(** * Numenera character sheet: form-to-document synchronisation

    A shallow embedding of [module/sheets/actorSheetNumeneraPC.js]: the
    click handlers of the dynamic tables ([onClickControlGenerator]), the
    three blur handlers that rewrite the field names of a row
    ([onSkillNameChange], [onWeaponNameChange], [onAbilityNameChange]) and
    the submit handler [_updateObject], together with the properties the
    specification states about them. *)

From Stdlib Require Import Bool Arith NArith List String Ascii PrimFloat DecimalString Lia.
From Stdlib Require Import Permutation.
Import ListNotations.
Open Scope string_scope.
Open Scope list_scope.

(** ** JavaScript values, as far as the sheet manipulates them *)

Module Js.

(** What a [throw] carries.  [TypeError] is raised by the language
    (property access on [undefined] or [null], call of a non-function);
    [Error] is the one the sheet raises itself with [new Error(message)]. *)
Inductive error : Type :=
| TypeError
| Error (message : string).

Inductive result (A : Type) : Type :=
| Ok (a : A)
| Throw (e : error).
Arguments Ok {A} a.
Arguments Throw {A} e.

Definition bind {A B : Type} (r : result A) (k : A -> result B) : result B :=
  match r with
  | Ok a => k a
  | Throw e => Throw e
  end.

Notation "'let*' x ':=' e 'in' k" := (bind e (fun x => k))
  (at level 10, x name, e at level 100, k at level 200).

(** Strings are sequences of code units; the development stays within the
    code units below 256, one [ascii] each. *)

(** The code units below 256 that [String.prototype.trim] strips: TAB, LF,
    VT, FF, CR, SPACE and NO-BREAK SPACE. *)
Definition isWhiteSpace (c : ascii) : bool :=
  let n := nat_of_ascii c in
  (Nat.leb 9 n && Nat.leb n 13) || Nat.eqb n 32 || Nat.eqb n 160.

Fixpoint trimStart (s : string) : string :=
  match s with
  | EmptyString => EmptyString
  | String c s' => if isWhiteSpace c then trimStart s' else s
  end.

Fixpoint trimEnd (s : string) : string :=
  match s with
  | EmptyString => EmptyString
  | String c s' =>
      match trimEnd s' with
      | EmptyString => if isWhiteSpace c then EmptyString else String c EmptyString
      | t => String c t
      end
  end.

(** [s.trim()] *)
Definition trim (s : string) : string := trimEnd (trimStart s).

(** [s.startsWith(p)] *)
Definition startsWith (s p : string) : bool := String.prefix p s.

(** A string used as a condition: [""] is falsy. *)
Definition nonEmpty (s : string) : bool :=
  match s with
  | EmptyString => false
  | String _ _ => true
  end.

(** Values.  A value that is an object is a plain one, as the host hands
    them over: its prototype is [Object.prototype] and it is the list of its
    own enumerable string-keyed properties, in the order [Object.keys]
    enumerates them.  No value is a function. *)
#[warnings="-register-all"]
Inductive val : Type :=
| VUndefined
| VNull
| VBool (b : bool)
| VNum (f : float)
| VStr (s : string)
| VObj (props : list (string * val)).

Definition object : Type := list (string * val).

(** Truthiness, as [||], [&&], [!] and [if] test it. *)
Definition truthy (v : val) : bool :=
  match v with
  | VUndefined | VNull => false
  | VBool b => b
  | VNum f => negb (PrimFloat.eqb f 0%float || PrimFloat.is_nan f)
  | VStr s => nonEmpty s
  | VObj _ => true
  end.

(** [a || b] on values (both operands are pure wherever the sheet uses it). *)
Definition or (a b : val) : val := if truthy a then a else b.

(** Own-property lookup. *)
Fixpoint get (o : object) (k : string) : option val :=
  match o with
  | [] => None
  | (k', v) :: o' => if String.eqb k' k then Some v else get o' k
  end.

Definition has (o : object) (k : string) : bool :=
  match get o k with
  | Some _ => true
  | None => false
  end.

(** *** The order of the own properties

    [Object.keys] enumerates the keys that are array indices first, in
    ascending order, and the other keys after them in the order they were
    created.  An array index is the canonical decimal numeral of an integer
    below [2^32 - 1]. *)
Definition digitOf (c : ascii) : option N :=
  let n := N_of_ascii c in
  if (N.leb 48 n && N.leb n 57)%bool then Some (n - 48)%N else None.

Fixpoint decimal (s : string) (acc : N) : option N :=
  match s with
  | EmptyString => Some acc
  | String c s' =>
      match digitOf c with
      | Some d => decimal s' (10 * acc + d)%N
      | None => None
      end
  end.

Definition arrayIndex (k : string) : option N :=
  match k with
  | EmptyString => None
  | String c rest =>
      if (Ascii.eqb c "0"%char && nonEmpty rest)%bool then None
      else
        match decimal k 0 with
        | Some n => if N.ltb n 4294967295 then Some n else None
        | None => None
        end
  end.

(** A new property whose key is the array index [n]: it goes before the
    first key that is no array index or a larger one. *)
Fixpoint insertIndex (n : N) (k : string) (v : val) (o : object) : object :=
  match o with
  | [] => [(k, v)]
  | (k', v') :: o' =>
      match arrayIndex k' with
      | Some n' =>
          if N.ltb n' n then (k', v') :: insertIndex n k v o' else (k, v) :: o
      | None => (k, v) :: o
      end
  end.

Fixpoint replace (o : object) (k : string) (v : val) : object :=
  match o with
  | [] => []
  | (k', v') :: o' =>
      if String.eqb k' k then (k', v) :: o' else (k', v') :: replace o' k v
  end.

(** Writing the own data property [k]: an existing property keeps its
    place, a new one takes the place its key gives it. *)
Definition writeOwn (o : object) (k : string) (v : val) : object :=
  if has o k then replace o k v
  else
    match arrayIndex k with
    | Some n => insertIndex n k v o
    | None => o ++ [(k, v)]
    end.

(** *** The objects the sheet creates

    An object that an object literal of the sheet creates starts on
    [Object.prototype] and is then written to with [obj[k] = v].  Such a
    write of the key [__proto__] can replace the prototype, and the
    prototype decides what [obj.hasOwnProperty] is, so the prototype is
    kept next to the own properties: [Object.prototype], [null], or a plain
    object of the submission. *)
Inductive prototype : Type :=
| ObjectPrototype
| NullPrototype
| PlainObject (o : object).

Record built : Type := { proto : prototype; own : object }.

(** [{ k1: v1, ... }] *)
Definition literal (props : object) : built :=
  {| proto := ObjectPrototype; own := props |}.

(** Whether the prototype chain leads a write of [__proto__] to the
    accessor of [Object.prototype]: a plain object on the way that has an
    own property [__proto__] stops it, and so does the end of the chain. *)
Definition reachesProtoSetter (p : prototype) : bool :=
  match p with
  | ObjectPrototype => true
  | NullPrototype => false
  | PlainObject o => negb (has o "__proto__")
  end.

(** What the accessor does with the value written: an object or [null]
    becomes the prototype, anything else is ignored. *)
Definition withPrototype (p : prototype) (v : val) : prototype :=
  match v with
  | VObj o => PlainObject o
  | VNull => NullPrototype
  | _ => p
  end.

(** [o[k] = v].  The key [__proto__], when [o] has no own property of that
    name and the accessor is reached, sets the prototype and creates no
    property; every other write is a write of an own data property. *)
Definition set (o : built) (k : string) (v : val) : built :=
  if (String.eqb k "__proto__" && negb (has (own o) k)
      && reachesProtoSetter (proto o))%bool
  then {| proto := withPrototype (proto o) v; own := own o |}
  else {| proto := proto o; own := writeOwn (own o) k v |}.

(** Whether [o.hasOwnProperty] is the method of [Object.prototype]: no own
    property of [o] and none of a plain object on its chain has that name,
    and the chain ends in [Object.prototype]. *)
Definition inheritsHasOwnProperty (o : built) : bool :=
  negb (has (own o) "hasOwnProperty") &&
  match proto o with
  | ObjectPrototype => true
  | NullPrototype => false
  | PlainObject p => negb (has p "hasOwnProperty")
  end.

(** [o.hasOwnProperty(k)]: the call of whatever the property read finds.
    What shadows the method is a value, and no value is a function. *)
Definition hasOwnProperty (o : built) (k : string) : result bool :=
  if inheritsHasOwnProperty o then Ok (has (own o) k) else Throw TypeError.

(** [v.k] and [v[k]] for a key [k] that no built-in prototype defines (the
    sheet reads [data], [skills], [equipment], [weapons], [abilities] and
    [name]): reading from [undefined] or [null] throws, a primitive has no
    such property, an object answers with its own property. *)
Definition member (v : val) (k : string) : result val :=
  match v with
  | VUndefined | VNull => Throw TypeError
  | VObj o =>
      match get o k with
      | Some x => Ok x
      | None => Ok VUndefined
      end
  | VBool _ | VNum _ | VStr _ => Ok VUndefined
  end.

Definition indexString (i : nat) : string :=
  NilEmpty.string_of_uint (Nat.to_uint i).

Fixpoint codeUnits (s : string) : list string :=
  match s with
  | EmptyString => []
  | String c s' => String c EmptyString :: codeUnits s'
  end.

(** [Object.keys(v)], [Object.values(v)], [Object.entries(v)]: they throw on
    [undefined] and [null], see the indices and code units of a string, and
    nothing in a boolean or a number. *)
Definition Object_keys (v : val) : result (list string) :=
  match v with
  | VUndefined | VNull => Throw TypeError
  | VObj o => Ok (map fst o)
  | VStr s => Ok (map indexString (seq 0 (String.length s)))
  | VBool _ | VNum _ => Ok []
  end.

Definition Object_values (v : val) : result (list val) :=
  match v with
  | VUndefined | VNull => Throw TypeError
  | VObj o => Ok (map snd o)
  | VStr s => Ok (map VStr (codeUnits s))
  | VBool _ | VNum _ => Ok []
  end.

Definition Object_entries (o : object) : list (string * val) := o.

(** [l.reduce(f, init)] for a callback that may throw. *)
Fixpoint reduce {A B : Type} (f : B -> A -> result B) (l : list A) (init : B)
  : result B :=
  match l with
  | [] => Ok init
  | x :: l' => let* acc := f init x in reduce f l' acc
  end.

(** [v.trim()]: only a string has the method; on [undefined] and [null] the
    property read throws, on any other value the call does. *)
Definition trimOf (v : val) : result string :=
  match v with
  | VStr s => Ok (trim s)
  | _ => Throw TypeError
  end.

(** [v.a.b.c], left to right. *)
Fixpoint members (v : val) (ks : list string) : result val :=
  match ks with
  | [] => Ok v
  | k :: ks' => let* x := member v k in members x ks'
  end.

End Js.

(** ** The part of the DOM the handlers walk and change *)

Module Dom.
Import Js.

Record attributes : Type := {
  tagName : string;                 (* lower-case tag name *)
  classList : list string;
  name : string;                    (* the submission path of a form field *)
  value : string;                   (* the current value of a form field *)
  dataset_action : option string    (* [data-action], when present *)
}.

(** An element: its attributes, the fragment a [<template>] holds in
    [content] (empty for any other element) and its element children. *)
#[warnings="-register-all"]
Inductive node : Type :=
| Element (attrs : attributes) (content : list node) (children : list node).

Definition attrs (n : node) : attributes :=
  match n with Element a _ _ => a end.
Definition content (n : node) : list node :=
  match n with Element _ c _ => c end.
Definition children (n : node) : list node :=
  match n with Element _ _ cs => cs end.

(** An element reference: the child indices leading to it from the root. *)
Definition path : Type := list nat.

Fixpoint lookup (root : node) (p : path) : option node :=
  match p with
  | [] => Some root
  | i :: p' =>
      match nth_error (children root) i with
      | Some c => lookup c p'
      | None => None
      end
  end.

Fixpoint modifyNth {A : Type} (f : A -> A) (i : nat) (l : list A) : list A :=
  match l, i with
  | [], _ => []
  | x :: l', O => f x :: l'
  | x :: l', S i' => x :: modifyNth f i' l'
  end.

Fixpoint removeNth {A : Type} (i : nat) (l : list A) : list A :=
  match l, i with
  | [], _ => []
  | _ :: l', O => l'
  | x :: l', S i' => x :: removeNth i' l'
  end.

(** The tree with [f] applied to the element at [p]. *)
Fixpoint modify (f : node -> node) (root : node) (p : path) : node :=
  match p with
  | [] => f root
  | i :: p' =>
      Element (attrs root) (content root)
        (modifyNth (fun c => modify f c p') i (children root))
  end.

(** The selectors the handlers pass to [closest], parsed: the type selector
    ["table"] is [Tag "table"], the class selectors [".skill"], [".weapon"]
    and [".ability"], and ["." + control] for the control names the
    constructor passes, are [Class "skill"] and so on. *)
Inductive selector : Type :=
| Tag (tag : string)
| Class (cls : string).

Definition matches (sel : selector) (n : node) : bool :=
  match sel with
  | Tag tag => String.eqb tag (tagName (attrs n))
  | Class cls => existsb (String.eqb cls) (classList (attrs n))
  end.

(** [closest]: the element itself or its nearest ancestor that matches.
    [rp] is the reference read from the element up to the root. *)
Fixpoint closestFrom (root : node) (sel : selector) (rp : list nat)
  : option path :=
  let here :=
    match lookup root (rev rp) with
    | Some n => matches sel n
    | None => false
    end in
  if here then Some (rev rp)
  else match rp with
       | [] => None
       | _ :: rp' => closestFrom root sel rp'
       end.

Definition closest (root : node) (p : path) (sel : selector) : option path :=
  closestFrom root sel (rev p).

(** The descendants of an element in document order, each with its
    reference relative to that element.  The fragment of a template is not
    among them. *)
Section Walk.

Variable below : node -> list (path * node).

Fixpoint walk (i : nat) (l : list node) : list (path * node) :=
  match l with
  | [] => []
  | c :: l' =>
      ([i], c) :: map (fun d => (i :: fst d, snd d)) (below c) ++ walk (S i) l'
  end.

End Walk.

Fixpoint descendants (n : node) : list (path * node) :=
  match n with
  | Element _ _ cs => walk descendants 0 cs
  end.

Definition getElementsByTagName (n : node) (tag : string) : list (path * node) :=
  filter (fun d => String.eqb tag (tagName (attrs (snd d)))) (descendants n).

(** [parent.appendChild(fragment)]: the nodes of the fragment go last. *)
Definition appendChildren (fragment : list node) (parent : node) : node :=
  Element (attrs parent) (content parent) (children parent ++ fragment).

(** [parent.removeChild(child)], the child given by its index. *)
Definition removeChildAt (i : nat) (parent : node) : node :=
  Element (attrs parent) (content parent) (removeNth i (children parent)).

(** [element.name = s] *)
Definition withName (s : string) (n : node) : node :=
  Element
    {| tagName := tagName (attrs n); classList := classList (attrs n);
       name := s; value := value (attrs n);
       dataset_action := dataset_action (attrs n) |}
    (content n) (children n).

(** The [name] and the [value] of the element at a reference. *)
Definition nameAt (root : node) (p : path) : option string :=
  option_map (fun n => name (attrs n)) (lookup root p).

Definition valueAt (root : node) (p : path) : option string :=
  option_map (fun n => value (attrs n)) (lookup root p).

End Dom.

(** ** The handlers of the sheet *)

Module Sheet.
Import Js Dom.

(** A DOM event, as far as a handler reads it. *)
Record Event : Type := { currentTarget : path }.

(** What a handler does besides changing the form: the calls it makes into
    the host application.  [Submit] stands for [this._onSubmit(event)] and
    records the form as it is when the call is made; how the call ends is
    the host's affair, see [submitOutcome] below. *)
Inductive effect : Type :=
| PreventDefault
| Submit (form : node).

(** The sheet a handler is bound to: its form and the calls made so far. *)
Record sheet : Type := { html : node; trace : list effect }.

(** A handler body: it runs on the sheet and either completes or throws;
    what it changed before throwing stays changed.  The handlers are
    [async]: a throw is the rejection of the promise they return. *)
Definition M (A : Type) : Type := sheet -> result A * sheet.

Definition ret {A : Type} (a : A) : M A := fun s => (Ok a, s).
Definition throw {A : Type} (e : error) : M A := fun s => (Throw e, s).
Definition bindM {A B : Type} (m : M A) (k : A -> M B) : M B :=
  fun s =>
    match m s with
    | (Ok a, s') => k a s'
    | (Throw e, s') => (Throw e, s')
    end.

Notation "x <- m ;; k" := (bindM m (fun x => k))
  (at level 61, m at next level, right associativity).
Notation "m ;; k" := (bindM m (fun _ => k))
  (at level 61, right associativity).

Definition emit (e : effect) : M unit :=
  fun s => (Ok tt, {| html := html s; trace := trace s ++ [e] |}).

(** [event.preventDefault()] *)
Definition preventDefault (event : Event) : M unit := emit PreventDefault.

(** A reference that may be [null] or [undefined] is an [option path];
    dereferencing [None] throws, and so does a reference that leads
    nowhere in the form. *)
Definition deref (r : option path) : M (path * node) :=
  fun s =>
    match r with
    | Some p =>
        match lookup (html s) p with
        | Some n => (Ok (p, n), s)
        | None => (Throw TypeError, s)
        end
    | None => (Throw TypeError, s)
    end.

Definition update (f : node -> node) (p : path) : M unit :=
  fun s => (Ok tt, {| html := modify f (html s) p; trace := trace s |}).

(** [e.dataset.action] *)
Definition actionOf (e : path) : M (option string) :=
  d <- deref (Some e) ;; ret (dataset_action (attrs (snd d))).

(** [e.value] *)
Definition valueOf (e : path) : M string :=
  d <- deref (Some e) ;; ret (value (attrs (snd d))).

(** [e.closest(selector)] *)
Definition closestOf (e : path) (sel : selector) : M (option path) :=
  fun s => (Ok (closest (html s) e sel), s).

(** [e.getElementsByTagName(tag)[0]] *)
Definition firstByTagName (e : option path) (tag : string) : M (option path) :=
  d <- deref e ;;
  ret (option_map (fun x => fst d ++ fst x)
         (hd_error (getElementsByTagName (snd d) tag))).

(** [e.children[i]] *)
Definition childOf (e : option path) (i : nat) : M (option path) :=
  d <- deref e ;;
  ret (match nth_error (children (snd d)) i with
       | Some _ => Some (fst d ++ [i])
       | None => None
       end).

(** [e.parentElement] *)
Definition parentElementOf (e : option path) : M (option path) :=
  d <- deref e ;;
  ret (match fst d with
       | [] => None
       | _ :: _ => Some (removelast (fst d))
       end).

(** [e.content.cloneNode(true)] *)
Definition cloneContentOf (e : option path) : M (list node) :=
  d <- deref e ;; ret (content (snd d)).

(** [e.appendChild(fragment)] *)
Definition appendChild (e : option path) (fragment : list node) : M unit :=
  d <- deref e ;; update (appendChildren fragment) (fst d).

(** [parent.removeChild(child)] for [parent = child.parentElement]: the
    child is the one at the last index of its reference. *)
Definition removeChild (parent child : option path) : M unit :=
  d <- deref parent ;;
  match child with
  | Some c => update (removeChildAt (last c 0)) (fst d)
  | None => throw TypeError
  end.

(** [row.children[i].children[j].name = rhs] *)
Definition assignName (row : option path) (i j : nat) (rhs : M string) : M unit :=
  cell <- childOf row i ;;
  field <- childOf cell j ;;
  s <- rhs ;;
  d <- deref field ;;
  update (withName s) (fst d).

(** The template literal [`${prefix}${input.value}${suffix}`]. *)
Definition fieldPath (prefix : string) (input : path) (suffix : string) : M string :=
  v <- valueOf input ;; ret (prefix ++ v ++ suffix)%string.

Definition actionIs (action : option string) (s : string) : bool :=
  match action with
  | Some a => String.eqb a s
  | None => false
  end.

Section Host.

(** The host's submit handler is not part of the sheet.  The click handler
    awaits the promise it returns, so all it sees of the call is whether
    the promise is fulfilled or rejected, and with what; [submitOutcome]
    says so for the event and the form the call is made with. *)
Variable submitOutcome : Event -> node -> result unit.

(** [await this._onSubmit(event)] *)
Definition _onSubmit (event : Event) : M unit :=
  fun s =>
    (submitOutcome event (html s),
     {| html := html s; trace := trace s ++ [Submit (html s)] |}).

(** The handler [onClickControlGenerator(control)] returns; [control] is a
    class name. *)
Definition onClickControlGenerator (control : string) (event : Event) : M unit :=
  preventDefault event ;;
  let a := currentTarget event in
  action <- actionOf a ;;
  if actionIs action "create" then
    table <- closestOf a (Tag "table") ;;
    template <- firstByTagName table "template" ;;
    body <- firstByTagName table "tbody" ;;
    match template with
    | None => throw (Error ("No row template found in " ++ control ++ " table")%string)
    | Some _ =>
        newRow <- cloneContentOf template ;;
        appendChild body newRow
    end
  else if actionIs action "delete" then
    row <- closestOf a (Class control) ;;
    parent <- parentElementOf row ;;
    removeChild parent row ;;
    _onSubmit event
  else
    ret tt.

Definition onClickSkillControl : Event -> M unit := onClickControlGenerator "skill".
Definition onClickWeaponControl : Event -> M unit := onClickControlGenerator "weapon".
Definition onClickAbilityControl : Event -> M unit := onClickControlGenerator "ability".

End Host.

Definition onAbilityNameChange (event : Event) : M unit :=
  preventDefault event ;;
  let input := currentTarget event in
  row <- closestOf (currentTarget event) (Class "ability") ;;
  assignName row 0 0 (fieldPath "data.abilities." input ".name") ;;
  assignName row 1 0 (fieldPath "data.abilities." input ".cost.amount") ;;
  assignName row 1 1 (fieldPath "data.abilities." input ".cost.pool") ;;
  assignName row 2 0 (fieldPath "data.abilities." input ".description").

Definition onSkillNameChange (event : Event) : M unit :=
  preventDefault event ;;
  let input := currentTarget event in
  row <- closestOf (currentTarget event) (Class "skill") ;;
  assignName row 0 0 (fieldPath "data.skills." input ".name") ;;
  assignName row 1 0 (fieldPath "data.skills." input ".stat") ;;
  assignName row 2 0 (fieldPath "data.skills." input ".inability") ;;
  assignName row 3 0 (fieldPath "data.skills." input ".trained") ;;
  assignName row 4 0 (fieldPath "data.skills." input ".specialized").

Definition onWeaponNameChange (event : Event) : M unit :=
  preventDefault event ;;
  let input := currentTarget event in
  row <- closestOf (currentTarget event) (Class "weapon") ;;
  assignName row 0 0 (fieldPath "data.equipment.weapons." input ".name") ;;
  assignName row 1 0 (fieldPath "data.equipment.weapons." input ".weightClass") ;;
  assignName row 1 1 (fieldPath "data.equipment.weapons." input ".weaponType") ;;
  assignName row 2 0 (fieldPath "data.equipment.weapons." input ".damage") ;;
  assignName row 3 0 (fieldPath "data.equipment.weapons." input ".range") ;;
  assignName row 4 0 (fieldPath "data.equipment.weapons." input ".notes").

(** *** Submission *)

(** The actor the sheet edits: [this.object._id] and [this.object.data]. *)
Record Actor : Type := { _id : val; data : val }.

(** The callback of the three [reduce] calls. *)
Definition formDataReduceFunction (obj : built) (v : val) : result built :=
  let* n := member v "name" in
  let* name := trimOf n in
  Ok (set obj name v).

(** The three [for ... of Object.keys(...)] loops: every current key that is
    non-empty and not an own property of the map, as the map is by then,
    gets its ["-=" + key] entry.  The test [sk && ...] calls
    [hasOwnProperty] for a non-empty key only. *)
Definition removeUnused (current : list string) (entities : built) : result built :=
  reduce
    (fun m k =>
       if nonEmpty k then
         let* found := hasOwnProperty m k in
         Ok (if found then m else set m ("-=" ++ k)%string VNull)
       else Ok m)
    current entities.

(** The filter of the re-combination step. *)
Definition unmanaged (e : string * val) : bool :=
  negb (startsWith (fst e) "data.skills") &&
  negb (startsWith (fst e) "data.equipment.weapons") &&
  negb (startsWith (fst e) "data.abilities").

Section UpdateObject.

(** The host's [expandObject], which turns the flat form data into a
    nested object; the sheet only calls it. *)
Variable expandObject : object -> val.

(** [_updateObject(event, formData)] on the sheet of [this_object]; the
    result is the object handed to [this.object.update], as the store reads
    it: by its own properties. *)
Definition _updateObject (this_object : Actor) (event : Event)
    (formData : object) : result object :=
  let fd := expandObject formData in
  let* formSkills :=
    (let* x := members fd ["data"; "skills"] in Ok (or x (VObj []))) in
  let* formEquipment :=
    (let* x := members fd ["data"; "equipment"] in Ok (or x (VObj []))) in
  let* formWeapons :=
    (let* x := member formEquipment "weapons" in Ok (or x (VObj []))) in
  let* formAbilities :=
    (let* x := members fd ["data"; "abilities"] in Ok (or x (VObj []))) in
  let* skills :=
    (let* vs := Object_values formSkills in
     reduce formDataReduceFunction vs (literal [])) in
  let* weapons :=
    (let* vs := Object_values formWeapons in
     reduce formDataReduceFunction vs (literal [])) in
  let* abilities :=
    (let* vs := Object_values formAbilities in
     reduce formDataReduceFunction vs (literal [])) in
  let* skills :=
    (let* c := members (data this_object) ["data"; "skills"] in
     let* ks := Object_keys c in
     removeUnused ks skills) in
  let* weapons :=
    (let* c := members (data this_object) ["data"; "equipment"; "weapons"] in
     let* ks := Object_keys c in
     removeUnused ks weapons) in
  let* abilities :=
    (let* c := members (data this_object) ["data"; "abilities"] in
     let* ks := Object_keys c in
     removeUnused ks abilities) in
  Ok (own
        (fold_left (fun obj e => set obj (fst e) (snd e))
           (filter unmanaged (Object_entries formData))
           (literal
              [ ("_id", _id this_object);
                ("data.skills", VObj (own skills));
                ("data.equipment.weapons", VObj (own weapons));
                ("data.abilities", VObj (own abilities)) ]))).

End UpdateObject.

End Sheet.

(** ** Reading a submission the way [_updateObject] does *)

Module Merge.
Import Js Sheet.

(** The three managed collections. *)
Inductive collection : Type := Skills | Weapons | Abilities.

(** The key under which [_updateObject] hands a collection to the store. *)
Definition key (c : collection) : string :=
  match c with
  | Skills => "data.skills"
  | Weapons => "data.equipment.weapons"
  | Abilities => "data.abilities"
  end.

(** The row-indexed object the expanded form data holds for a collection,
    before [|| {}] defaults it. *)
Definition submitted (c : collection) (fd : val) : result val :=
  match c with
  | Skills => members fd ["data"; "skills"]
  | Weapons =>
      let* e := members fd ["data"; "equipment"] in
      member (or e (VObj [])) "weapons"
  | Abilities => members fd ["data"; "abilities"]
  end.

(** Its rows, in iteration order. *)
Definition rows (c : collection) (fd : val) : result (list val) :=
  let* x := submitted c fd in Object_values (or x (VObj [])).

(** The key a row is filed under: [v["name"].trim()]. *)
Definition rowKey (v : val) : result string :=
  let* n := member v "name" in trimOf n.

(** The name-keyed map of a collection, before the deletion loop: the
    object the reduction returns, and its own properties. *)
Definition keyedObject (c : collection) (fd : val) : result built :=
  let* vs := rows c fd in reduce formDataReduceFunction vs (literal []).

Definition keyed (c : collection) (fd : val) : result object :=
  let* m := keyedObject c fd in Ok (own m).

(** The collection as the actor holds it before the submission. *)
Definition persisted (c : collection) (a : Actor) : result val :=
  members (data a)
    match c with
    | Skills => ["data"; "skills"]
    | Weapons => ["data"; "equipment"; "weapons"]
    | Abilities => ["data"; "abilities"]
    end.

Definition currentKeys (c : collection) (a : Actor) : result (list string) :=
  let* p := persisted c a in Object_keys p.

(** The finished map of a collection, read back from a patch. *)
Definition finished (patch : object) (c : collection) : option object :=
  match get patch (key c) with
  | Some (VObj m) => Some m
  | _ => None
  end.

(** The re-combination step on its own. *)
Definition recombine (id : val) (skills weapons abilities formData : object)
  : object :=
  own
    (fold_left (fun obj e => set obj (fst e) (snd e))
       (filter unmanaged (Object_entries formData))
       (literal
          [ ("_id", id);
            ("data.skills", VObj skills);
            ("data.equipment.weapons", VObj weapons);
            ("data.abilities", VObj abilities) ])).

(** A key of the flat form data that the filter drops. *)
Definition managed (k : string) : bool :=
  startsWith k "data.skills" || startsWith k "data.equipment.weapons"
  || startsWith k "data.abilities".

(** The deletion sentinel of a key. *)
Definition sentinel (k : string) : string := ("-=" ++ k)%string.

(** A row the reduction accepts: an object whose [name] is a string. *)
Definition hasStringName (v : val) : Prop :=
  exists o s, v = VObj o /\ get o "name" = Some (VStr s).

(** The name a row carries, for rows that have one. *)
Definition nameOf (v : val) : string :=
  match v with
  | VObj o => match get o "name" with Some (VStr s) => s | _ => "" end
  | _ => ""
  end.

(** The object the re-combination starts from. *)
Definition seed (id : val) (skills weapons abilities : object) : object :=
  [ ("_id", id);
    ("data.skills", VObj skills);
    ("data.equipment.weapons", VObj weapons);
    ("data.abilities", VObj abilities) ].

(** How the finished map [m] of a collection relates to the map [s] keyed
    from the submission and to the keys [current] the actor holds. *)
Definition sentinelsFor (current : list string) (s m : object) : Prop :=
  (forall k,
      In k current -> k <> "" -> get s k = None ->
      (forall k', In k' current -> k <> sentinel k') ->
      get m (sentinel k) = Some VNull /\ get m k = None) /\
  (forall k,
      get m k = Some VNull ->
      exists k', k = sentinel k' /\ In k' current /\ k' <> "" /\ get s k' = None).

(** The relation without the two provisos: a sentinel exactly for the
    current keys the keyed map lacks, and no entry for such a key. *)
Definition sentinelsAsStated (current : list string) (s m : object) : Prop :=
  (forall k,
      (In k current /\ get s k = None) <-> get m (sentinel k) = Some VNull) /\
  (forall k, In k current -> get s k = None -> get m k = None).

(** A finished map made of sentinels only. *)
Definition onlySentinels (current : list string) (m : object) : Prop :=
  forall k v,
    get m k = Some v ->
    v = VNull /\ exists k', k = sentinel k' /\ In k' current /\ k' <> "".

(** A string of white space only. *)
Fixpoint blank (s : string) : Prop :=
  match s with
  | EmptyString => True
  | String c s' => isWhiteSpace c = true /\ blank s'
  end.

(** A string with no white space at either end. *)
Definition edgeless (k : string) : Prop :=
  forall c rest, (k = String c rest \/ k = (rest ++ String c EmptyString)%string) ->
                 isWhiteSpace c = false.

(** [k] is [s] without the white space at its two ends. *)
Definition strippedTo (s k : string) : Prop :=
  exists a b, s = (a ++ k ++ b)%string /\ blank a /\ blank b /\ edgeless k.

(** The keyed map [m] of the rows [rs]: every entry is a row under its own
    name stripped of the white space around it, a key has one entry, and of
    the rows whose names strip to the same key, any key but [__proto__],
    the last one is the entry of that key. *)
Definition lastRowWins (rs : list val) (m : object) : Prop :=
  (forall k r, get m k = Some r -> In r rs /\ strippedTo (nameOf r) k) /\
  NoDup (map fst m) /\
  forall l1 r1 l2 r2 l3 k,
    rs = l1 ++ r1 :: l2 ++ r2 :: l3 ->
    k <> "__proto__" ->
    strippedTo (nameOf r1) k -> strippedTo (nameOf r2) k ->
    (forall r, In r l3 -> ~ strippedTo (nameOf r) k) ->
    get m k = Some r2 /\ count_occ string_dec (map fst m) k = 1.

(** What the patch holds, key by key, for the form data [formData] and the
    actor identity [id]. *)
Definition recombined (id : val) (formData patch : object) : Prop :=
  (forall c, exists m, get patch (key c) = Some (VObj m)) /\
  (forall k, managed k = true -> get patch k <> None -> exists c, k = key c) /\
  (forall k v,
      In (k, v) formData -> managed k = false -> k <> "__proto__" ->
      get patch k = Some v) /\
  (get formData "_id" = None -> get patch "_id" = Some id) /\
  (forall k v,
      get patch k = Some v ->
      (exists c, k = key c) \/ In (k, v) formData \/ (k = "_id" /\ v = id)).

(** The last row wins, whatever the key: of the rows filed under a key the
    keyed map [m] holds the last one, in exactly one entry. *)
Definition laterRowAsStated (rs : list val) (m : object) : Prop :=
  forall l1 r1 l2 r2 l3 k,
    rs = l1 ++ r1 :: l2 ++ r2 :: l3 ->
    rowKey r1 = Ok k -> rowKey r2 = Ok k ->
    (forall r, In r l3 -> rowKey r <> Ok k) ->
    get m k = Some r2 /\ count_occ string_dec (map fst m) k = 1.

End Merge.

(** ** Sample data *)

Module Sample.
Import Js Dom Sheet Merge.

(** [s.split(".")] *)
Fixpoint splitFrom (acc s : string) : list string :=
  match s with
  | EmptyString => [acc]
  | String c s' =>
      if Ascii.eqb c "."%char then acc :: splitFrom EmptyString s'
      else splitFrom (acc ++ String c EmptyString)%string s'
  end.

Definition split (s : string) : list string := splitFrom EmptyString s.

Fixpoint setProperty (o : object) (parts : list string) (v : val) : object :=
  match parts with
  | [] => o
  | [k] => writeOwn o k v
  | k :: rest =>
      let sub := match get o k with Some (VObj m) => m | _ => [] end in
      writeOwn o k (VObj (setProperty sub rest v))
  end.

(** An [expandObject] for the examples: each dotted path of the flat form
    data opens the nested objects it names, as the host's function does for
    form fields whose paths do not extend one another and have no segment
    that [Object.prototype] defines. *)
Definition expandObject (formData : object) : val :=
  VObj (fold_left (fun o e => setProperty o (split (fst e)) (snd e)) formData []).

Definition entity (fields : list (string * string)) : val :=
  VObj (map (fun f => (fst f, VStr (snd f))) fields).

(** An actor with one skill, one weapon and no ability. *)
Definition actor : Actor :=
  {| _id := VStr "a1";
     data :=
       VObj [("name", VStr "Ada");
             ("data",
               VObj [("skills",
                       VObj [("Climbing",
                               entity [("name", "Climbing"); ("stat", "Speed")])]);
                     ("equipment",
                       VObj [("weapons",
                               VObj [("Sword",
                                       entity [("name", "Sword"); ("damage", "4")])])]);
                     ("abilities", VObj [])])] |}.

Definition event : Event := {| currentTarget := [] |}.

(** The skill renamed to [Climb], the weapon row deleted, the name sent with
    blanks around it. *)
Definition renameForm : object :=
  [ ("name", VStr "Ada");
    ("data.skills.Climb.name", VStr " Climb ");
    ("data.skills.Climb.stat", VStr "Speed") ].

Definition renamePatch : object :=
  [ ("_id", VStr "a1");
    ("data.skills",
      VObj [("Climb", entity [("name", " Climb "); ("stat", "Speed")]);
            ("-=Climbing", VNull)]);
    ("data.equipment.weapons", VObj [("-=Sword", VNull)]);
    ("data.abilities", VObj []);
    ("name", VStr "Ada") ].

(** Every row as the actor holds it. *)
Definition unchangedForm : object :=
  [ ("name", VStr "Ada");
    ("data.skills.Climbing.name", VStr "Climbing");
    ("data.skills.Climbing.stat", VStr "Speed");
    ("data.equipment.weapons.Sword.name", VStr "Sword");
    ("data.equipment.weapons.Sword.damage", VStr "4") ].

Definition unchangedPatch : object :=
  [ ("_id", VStr "a1");
    ("data.skills",
      VObj [("Climbing", entity [("name", "Climbing"); ("stat", "Speed")])]);
    ("data.equipment.weapons",
      VObj [("Sword", entity [("name", "Sword"); ("damage", "4")])]);
    ("data.abilities", VObj []);
    ("name", VStr "Ada") ].

(** A form without a single field of a managed collection. *)
Definition plainForm : object :=
  [ ("name", VStr "Ada"); ("data.tier", VStr "2") ].

Definition plainPatch : object :=
  [ ("_id", VStr "a1");
    ("data.skills", VObj [("-=Climbing", VNull)]);
    ("data.equipment.weapons", VObj [("-=Sword", VNull)]);
    ("data.abilities", VObj []);
    ("name", VStr "Ada"); ("data.tier", VStr "2") ].

(** Two skill rows whose names trim to the same key. *)
Definition duplicateForm : object :=
  [ ("data.skills.0.name", VStr "X ");
    ("data.skills.0.stat", VStr "Might");
    ("data.skills.1.name", VStr " X");
    ("data.skills.1.stat", VStr "Speed") ].

(** Two skill rows named [__proto__], the second with blanks around the
    name, and the patch of the form for [actor]. *)
Definition protoForm : object :=
  [ ("data.skills.0.name", VStr "__proto__");
    ("data.skills.0.stat", VStr "Might");
    ("data.skills.1.name", VStr " __proto__ ");
    ("data.skills.1.stat", VStr "Speed") ].

Definition protoRowMight : val := entity [("name", "__proto__"); ("stat", "Might")].
Definition protoRowSpeed : val := entity [("name", " __proto__ "); ("stat", "Speed")].

Definition protoPatch : object :=
  [ ("_id", VStr "a1");
    ("data.skills", VObj [("-=Climbing", VNull)]);
    ("data.equipment.weapons", VObj [("-=Sword", VNull)]);
    ("data.abilities", VObj []) ].

(** A skill row whose name is blank, under the paths the blur handler gives
    a row with an empty name. *)
Definition blankRowForm : object :=
  [ ("data.skills..name", VStr "  ");
    ("data.skills..stat", VStr "Might") ].

Definition blankRow : val := entity [("name", "  "); ("stat", "Might")].

(** A skill row that has no name field. *)
Definition namelessRowForm : object :=
  [ ("data.skills.0.stat", VStr "Might") ].

(** A form with a field called [_id]. *)
Definition idForm : object :=
  [ ("_id", VStr "zz"); ("data.tier", VStr "2") ].

Definition withSkills (skills : object) : Actor :=
  {| _id := VStr "a1";
     data :=
       VObj [("data",
               VObj [("skills", VObj skills);
                     ("equipment", VObj [("weapons", VObj [])]);
                     ("abilities", VObj [])])] |}.

(** An actor holding a skill under the empty key. *)
Definition actorBlank : Actor :=
  withSkills [("", entity [("name", ""); ("stat", "Might")])].

(** An actor holding a skill [A] and a skill named like the sentinel of [A]. *)
Definition actorDash : Actor :=
  withSkills [("A", entity [("name", "A")]); ("-=A", entity [("name", "-=A")])].

(** The patches of [blankRowForm] and [idForm] for [actor], and of
    [plainForm] for [actorBlank]. *)
Definition blankRowPatch : object :=
  [ ("_id", VStr "a1");
    ("data.skills", VObj [("", blankRow); ("-=Climbing", VNull)]);
    ("data.equipment.weapons", VObj [("-=Sword", VNull)]);
    ("data.abilities", VObj []) ].

Definition idPatch : object :=
  [ ("_id", VStr "zz");
    ("data.skills", VObj [("-=Climbing", VNull)]);
    ("data.equipment.weapons", VObj [("-=Sword", VNull)]);
    ("data.abilities", VObj []);
    ("data.tier", VStr "2") ].

Definition actorBlankPatch : object :=
  [ ("_id", VStr "a1");
    ("data.skills", VObj []);
    ("data.equipment.weapons", VObj []);
    ("data.abilities", VObj []);
    ("name", VStr "Ada"); ("data.tier", VStr "2") ].

(** The patch of [plainForm] for [actorDash]. *)
Definition actorDashPatch : object :=
  [ ("_id", VStr "a1");
    ("data.skills", VObj [("-=A", VNull)]);
    ("data.equipment.weapons", VObj []);
    ("data.abilities", VObj []);
    ("name", VStr "Ada"); ("data.tier", VStr "2") ].

(** *** A sheet with a skills table *)

Definition el (tag : string) (classes : list string) (cs : list node) : node :=
  Element {| tagName := tag; classList := classes; name := ""; value := "";
             dataset_action := None |} [] cs.

Definition field (tag path v : string) : node :=
  Element {| tagName := tag; classList := []; name := path; value := v;
             dataset_action := None |} [] [].

Definition control (cls action : string) : node :=
  Element {| tagName := "a"; classList := [cls]; name := ""; value := "";
             dataset_action := Some action |} [] [].

Definition templateOf (fragment : list node) : node :=
  Element {| tagName := "template"; classList := []; name := ""; value := "";
             dataset_action := None |} fragment [].

(** A skill row whose paths encode [k] and whose name field reads [nm]. *)
Definition skillRow (k nm stat : string) : node :=
  el "tr" ["skill"]
    [ el "td" [] [field "input" ("data.skills." ++ k ++ ".name") nm];
      el "td" [] [field "select" ("data.skills." ++ k ++ ".stat") stat];
      el "td" [] [field "input" ("data.skills." ++ k ++ ".inability") ""];
      el "td" [] [field "input" ("data.skills." ++ k ++ ".trained") ""];
      el "td" [] [field "input" ("data.skills." ++ k ++ ".specialized") ""];
      el "td" [] [control "skill-control" "delete"] ]%string.

Definition blankSkillRow : node := skillRow "" "" "".

Definition skillsHead : node :=
  el "thead" [] [el "tr" [] [el "th" [] [control "skill-control" "create"]]].

Definition skillsTable (body : list node) : node :=
  el "table" ["skills"]
    [ templateOf [blankSkillRow]; skillsHead; el "tbody" [] body ].

(** The same table without its row template. *)
Definition bareSkillsTable (body : list node) : node :=
  el "table" ["skills"] [ skillsHead; el "tbody" [] body ].

Definition sheetOf (table : node) : sheet :=
  {| html := el "form" [] [table]; trace := [] |}.

(** The name field of the first row, the delete control of the first row
    and the create control of the table. *)
Definition blurFirstName : Event := {| currentTarget := [0; 2; 0; 0; 0] |}.
Definition clickFirstDelete : Event := {| currentTarget := [0; 2; 0; 5; 0] |}.
Definition clickCreate : Event := {| currentTarget := [0; 1; 0; 0; 0] |}.
Definition clickCreateBare : Event := {| currentTarget := [0; 0; 0; 0; 0] |}.

(** The skill [Climbing] with its name field cleared, and untouched. *)
Definition clearedSheet : sheet :=
  sheetOf (skillsTable [skillRow "Climbing" "" "Speed"]).
Definition untouchedSheet : sheet :=
  sheetOf (skillsTable [skillRow "Climbing" "Climbing" "Speed"]).

(** The untouched sheet after a click on its create control, and after a
    click on the delete control of its row. *)
Definition createdSheet : sheet :=
  {| html :=
       el "form" []
         [skillsTable [skillRow "Climbing" "Climbing" "Speed"; blankSkillRow]];
     trace := [PreventDefault] |}.

Definition deletedSheet : sheet :=
  {| html := el "form" [] [skillsTable []];
     trace := [PreventDefault; Submit (el "form" [] [skillsTable []])] |}.

(** A sheet with two skill rows, and what a click on the delete control
    of the first row leaves of it. *)
Definition twoRowSheet : sheet :=
  sheetOf (skillsTable [skillRow "Climbing" "Climbing" "Speed";
                        skillRow "Swimming" "Swimming" "Might"]).

Definition firstRowDeletedSheet : sheet :=
  {| html := el "form" [] [skillsTable [skillRow "Swimming" "Swimming" "Might"]];
     trace :=
       [PreventDefault;
        Submit (el "form" [] [skillsTable [skillRow "Swimming" "Swimming" "Might"]])] |}.

(** A host whose submit handler always completes, and one whose submit
    handler always fails. *)
Definition hostFulfils : Event -> node -> result unit := fun _ _ => Ok tt.
Definition hostRejects : Event -> node -> result unit :=
  fun _ _ => Throw (Error "update failed").

(** The untouched sample sheet after a blur of its name field. *)
Definition blurredSheet : sheet :=
  {| html := html untouchedSheet; trace := [PreventDefault] |}.

End Sample.

(** ** What a click on a row control leaves behind *)

Module Rows.
Import Js Dom Sheet.

(** The sheet once the handler has called [event.preventDefault()]. *)
Definition prevented (s : sheet) : sheet :=
  {| html := html s; trace := trace s ++ [PreventDefault] |}.

(** The error of a table without a row template. *)
Definition noTemplate (control : string) : error :=
  Error ("No row template found in " ++ control ++ " table")%string.

(** The number of calls of [_onSubmit] in a trace. *)
Definition submissions (t : list effect) : nat :=
  List.length (filter (fun e => match e with Submit _ => true | _ => false end) t).

(** What a [create] click that ended with [r] in sheet [s'] did to the
    sheet [s]. *)
Definition created (control : string) (event : Event) (s : sheet)
    (r : result unit) (s' : sheet) : Prop :=
  ((exists message, r = Throw (Error message)) <->
   exists tp t,
     closest (html s) (currentTarget event) (Tag "table") = Some tp /\
     lookup (html s) tp = Some t /\
     getElementsByTagName t "template" = []) /\
  (forall message, r = Throw (Error message) -> r = Throw (noTemplate control)) /\
  (r <> Ok tt -> html s' = html s) /\
  (r = Ok tt ->
   exists tp t tplp tpl bp body,
     closest (html s) (currentTarget event) (Tag "table") = Some tp /\
     lookup (html s) tp = Some t /\
     hd_error (getElementsByTagName t "template") = Some (tplp, tpl) /\
     hd_error (getElementsByTagName t "tbody") = Some (bp, body) /\
     lookup (html s) (tp ++ bp) = Some body /\
     lookup (html s') (tp ++ bp)
       = Some (Element (attrs body) (content body) (children body ++ content tpl)) /\
     html s' = modify (appendChildren (content tpl)) (html s) (tp ++ bp)) /\
  trace s' = trace s ++ [PreventDefault] /\
  submissions (trace s') = submissions (trace s).

(** Two references that part ways: neither leads through the other. *)
Definition apart (p q : path) : Prop :=
  exists common i j p' q',
    p = common ++ i :: p' /\ q = common ++ j :: q' /\ i <> j.

(** What a [delete] click on a control inside the row at [rowp] leaves,
    when the host's [_onSubmit] ends with [outcome]: the parent of the row
    has the rows before it and the rows after it and is the same element
    otherwise, every element the parent is not on the way to is as it was,
    [_onSubmit] has been called once, after [preventDefault], on the form
    without the row, and the handler ends the way that call ends. *)
Definition deleted (outcome : Event -> node -> result unit) (event : Event)
    (s : sheet) (rowp : path) (r : result unit) (s' : sheet) : Prop :=
  exists parent row before after parent',
    lookup (html s) (removelast rowp) = Some parent /\
    lookup (html s) rowp = Some row /\
    children parent = before ++ row :: after /\
    List.length before = last rowp 0 /\
    lookup (html s') (removelast rowp) = Some parent' /\
    attrs parent' = attrs parent /\
    content parent' = content parent /\
    children parent' = before ++ after /\
    (forall q, apart q (removelast rowp) -> lookup (html s') q = lookup (html s) q) /\
    trace s' = trace s ++ [PreventDefault; Submit (html s')] /\
    submissions (trace s') = S (submissions (trace s)) /\
    r = outcome event (html s').

End Rows.

(** ** The three blur handlers as one *)

Module Rebind.
Import Js Dom Sheet Merge.

(** The blur handler of each collection, the class of its rows, the prefix
    of its paths and the positions it rewrites, each with the suffix of the
    path it writes there. *)
Definition rebinder (c : collection) : Event -> M unit :=
  match c with
  | Skills => onSkillNameChange
  | Weapons => onWeaponNameChange
  | Abilities => onAbilityNameChange
  end.

Definition rowClass (c : collection) : selector :=
  match c with
  | Skills => Class "skill"
  | Weapons => Class "weapon"
  | Abilities => Class "ability"
  end.

Definition pathPrefix (c : collection) : string := (key c ++ ".")%string.

Definition fields (c : collection) : list (nat * nat * string) :=
  match c with
  | Skills =>
      [ (0, 0, ".name"); (1, 0, ".stat"); (2, 0, ".inability");
        (3, 0, ".trained"); (4, 0, ".specialized") ]
  | Weapons =>
      [ (0, 0, ".name"); (1, 0, ".weightClass"); (1, 1, ".weaponType");
        (2, 0, ".damage"); (3, 0, ".range"); (4, 0, ".notes") ]
  | Abilities =>
      [ (0, 0, ".name"); (1, 0, ".cost.amount"); (1, 1, ".cost.pool");
        (2, 0, ".description") ]
  end.

(** The reference of the field at a position of a row. *)
Definition fieldAt (rowp : path) (position : nat * nat * string) : path :=
  rowp ++ [fst (fst position); snd (fst position)].

(** The assignments of a handler, one after the other. *)
Fixpoint assignAll (row : option path) (prefix : string) (input : path)
    (positions : list (nat * nat * string)) : M unit :=
  match positions with
  | [] => ret tt
  | [(i, j, suffix)] => assignName row i j (fieldPath prefix input suffix)
  | (i, j, suffix) :: rest =>
      assignName row i j (fieldPath prefix input suffix) ;;
      assignAll row prefix input rest
  end.

(** What a completed blur handler of collection [c] did: [rowp] is the row
    it found, [v] the value of the field that lost focus. *)
Definition rebound (c : collection) (event : Event) (s s' : sheet) : Prop :=
  exists rowp v,
    closest (html s) (currentTarget event) (rowClass c) = Some rowp /\
    valueAt (html s) (currentTarget event) = Some v /\
    (forall x, In x (fields c) ->
               nameAt (html s') (fieldAt rowp x)
               = Some (pathPrefix c ++ v ++ snd x)%string) /\
    ((forall x, In x (fields c) ->
                nameAt (html s) (fieldAt rowp x)
                = Some (pathPrefix c ++ v ++ snd x)%string) ->
     html s' = html s) /\
    trace s' = trace s ++ [PreventDefault].

End Rebind.

(** ** More sample data *)

Module MoreSample.
Import Js Dom Sheet Merge Sample.

(** A form with nothing under [data]. *)
Definition nameOnlyForm : object := [ ("name", VStr "Ada") ].

(** An actor that holds skills and abilities but no equipment. *)
Definition actorNoEquipment : Actor :=
  {| _id := VStr "a2";
     data := VObj [("data", VObj [("skills", VObj []); ("abilities", VObj [])])] |}.

(** A skill row named like the sentinel of the skill the actor holds. *)
Definition dashRow : val := entity [("name", "-=Climbing"); ("stat", "Might")].

Definition dashRowForm : object :=
  [ ("data.skills.0.name", VStr "-=Climbing");
    ("data.skills.0.stat", VStr "Might") ].

Definition dashRowPatch : object :=
  [ ("_id", VStr "a1");
    ("data.skills", VObj [("-=Climbing", VNull)]);
    ("data.equipment.weapons", VObj [("-=Sword", VNull)]);
    ("data.abilities", VObj []) ].

(** A skill row named like the method the deletion loop calls. *)
Definition methodRow : val := entity [("name", "hasOwnProperty"); ("stat", "Might")].

Definition methodRowForm : object :=
  [ ("data.skills.0.name", VStr "hasOwnProperty");
    ("data.skills.0.stat", VStr "Might") ].

(** Two skill rows with different keys, in both orders. *)
Definition rowClimb : val := entity [("name", "Climb"); ("stat", "Speed")].
Definition rowSwim : val := entity [("name", " Swim"); ("stat", "Might")].

End MoreSample.

(** ** The form after some of the assignments of a blur handler *)

Module Renaming.
Import Js Dom Sheet Merge Rebind.

(** The form with the fields at [positions] of the row at [rowp] renamed,
    in that order, for the value [v]. *)
Definition renameAll (rowp : path) (prefix v : string)
    (positions : list (nat * nat * string)) (h : node) : node :=
  fold_left
    (fun h x => modify (withName (prefix ++ v ++ snd x)%string) h (fieldAt rowp x))
    positions h.

(** The sample row without its last two cells. *)
Definition shortSkillRow : node :=
  Sample.el "tr" ["skill"]
    [ Sample.el "td" [] [Sample.field "input" "data.skills.Climbing.name" "Climb"];
      Sample.el "td" [] [Sample.field "select" "data.skills.Climbing.stat" "Speed"];
      Sample.el "td" [] [Sample.field "input" "data.skills.Climbing.inability" ""] ].

Definition shortSheet : sheet := Sample.sheetOf (Sample.skillsTable [shortSkillRow]).

(** The skill [Climbing] renamed to [Climb] in its name field. *)
Definition renamedSheet : sheet :=
  Sample.sheetOf (Sample.skillsTable [Sample.skillRow "Climbing" "Climb" "Speed"]).

(** A click on the create control of a sheet without any table, and a
    blur outside any row. *)
Definition looseControl : sheet :=
  {| html := Sample.el "form" [] [Sample.control "skill-control" "create"];
     trace := [] |}.
Definition clickLoose : Event := {| currentTarget := [0] |}.

(** The delete control of the second row of the table. *)
Definition clickSecondDelete : Event := {| currentTarget := [0; 2; 1; 5; 0] |}.

End Renaming.

(** ** Objects as dictionaries *)

Module JsFacts.
Import Js.

Lemma get_None_iff (o : object) (k : string) :
  get o k = None <-> ~ In k (map fst o).
Proof.
  induction o as [|[k' v'] o IH]; simpl.
  - tauto.
  - destruct (String.eqb k' k) eqn:E.
    + apply String.eqb_eq in E. split; [discriminate | tauto].
    + apply String.eqb_neq in E. rewrite IH. tauto.
Qed.

Lemma In_keys_iff (o : object) (k : string) :
  In k (map fst o) <-> get o k <> None.
Proof.
  destruct (get o k) eqn:E.
  - split; [congruence|]. intros _.
    destruct (in_dec string_dec k (map fst o)) as [H|H]; auto.
    apply get_None_iff in H. congruence.
  - apply get_None_iff in E. tauto.
Qed.

Lemma get_Some_In (o : object) (k : string) (v : val) :
  get o k = Some v -> In (k, v) o.
Proof.
  induction o as [|[k' v'] o IH]; simpl; [discriminate|].
  destruct (String.eqb k' k) eqn:E.
  - apply String.eqb_eq in E. intros [= ->]. subst. now left.
  - intros H. right. auto.
Qed.

Lemma In_get_NoDup (o : object) (k : string) (v : val) :
  NoDup (map fst o) -> In (k, v) o -> get o k = Some v.
Proof.
  induction o as [|[k' v'] o IH]; simpl; [tauto|].
  intros Hnd [H|H]; inversion Hnd as [|? ? Hnotin Hnd']; subst.
  - injection H as -> ->. now rewrite String.eqb_refl.
  - destruct (String.eqb k' k) eqn:E; auto.
    apply String.eqb_eq in E. subst k'.
    exfalso. apply Hnotin. now apply (in_map fst) in H.
Qed.

Lemma has_false (o : object) (k : string) : has o k = false <-> get o k = None.
Proof. unfold has. destruct (get o k); split; congruence. Qed.

Lemma has_true (o : object) (k : string) : has o k = true <-> get o k <> None.
Proof. unfold has. destruct (get o k); split; congruence. Qed.

Lemma nonEmpty_true (k : string) : nonEmpty k = true <-> k <> "".
Proof. destruct k; simpl; split; congruence. Qed.

Lemma get_app (a b : object) (k : string) :
  get (a ++ b) k = match get a k with Some v => Some v | None => get b k end.
Proof.
  induction a as [|[ka va] a IHa]; simpl; auto.
  destruct (String.eqb ka k); auto.
Qed.

(** *** Writing an own property *)

Lemma keys_replace (o : object) (k : string) (v : val) :
  map fst (replace o k v) = map fst o.
Proof.
  induction o as [|[k' v'] o IH]; simpl; auto.
  destruct (String.eqb k' k); simpl; congruence.
Qed.

Lemma get_replace (o : object) (k k' : string) (v : val) :
  get o k <> None ->
  get (replace o k v) k' = if String.eqb k k' then Some v else get o k'.
Proof.
  induction o as [|[k0 v0] o IH]; simpl; [congruence|].
  destruct (String.eqb_spec k0 k) as [->|Hk0]; simpl.
  - intros _. destruct (String.eqb k k'); reflexivity.
  - intros H. rewrite (IH H).
    destruct (String.eqb_spec k0 k') as [->|_]; auto.
    apply String.eqb_neq in Hk0. rewrite String.eqb_sym in Hk0. now rewrite Hk0.
Qed.

Lemma insertIndex_perm (n : N) (k : string) (v : val) (o : object) :
  Permutation (insertIndex n k v o) ((k, v) :: o).
Proof.
  induction o as [|[k0 v0] o IH]; simpl; auto.
  destruct (arrayIndex k0) as [n0|]; auto.
  destruct (N.ltb n0 n); auto.
  rewrite IH. apply perm_swap.
Qed.

Lemma get_insertIndex (n : N) (o : object) (k k' : string) (v : val) :
  get o k = None ->
  get (insertIndex n k v o) k' = if String.eqb k k' then Some v else get o k'.
Proof.
  induction o as [|[k0 v0] o IH]; simpl; [reflexivity|].
  destruct (String.eqb_spec k0 k) as [->|Hk0]; [discriminate|]. intros Hnone.
  destruct (arrayIndex k0) as [n0|]; [destruct (N.ltb n0 n)|]; simpl; auto.
  rewrite (IH Hnone).
  destruct (String.eqb_spec k0 k') as [->|_]; auto.
  apply String.eqb_neq in Hk0. rewrite String.eqb_sym in Hk0. now rewrite Hk0.
Qed.

Lemma get_last (o : object) (k k' : string) (v : val) :
  get o k = None ->
  get (o ++ [(k, v)]) k' = if String.eqb k k' then Some v else get o k'.
Proof.
  intros Hnone. rewrite get_app. simpl.
  destruct (String.eqb_spec k k') as [<-|_].
  - now rewrite Hnone.
  - now destruct (get o k').
Qed.

(** Whatever place the key takes, the property written reads back and the
    others read as before. *)
Lemma get_writeOwn (o : object) (k k' : string) (v : val) :
  get (writeOwn o k v) k' = if String.eqb k k' then Some v else get o k'.
Proof.
  unfold writeOwn. destruct (has o k) eqn:E.
  - apply has_true in E. now apply get_replace.
  - apply has_false in E.
    destruct (arrayIndex k); [now apply get_insertIndex | now apply get_last].
Qed.

Lemma keys_writeOwn (o : object) (k k' : string) (v : val) :
  In k' (map fst (writeOwn o k v)) <-> k' = k \/ In k' (map fst o).
Proof.
  rewrite !In_keys_iff, get_writeOwn.
  destruct (String.eqb_spec k k') as [<-|Hk]; split; try tauto; try congruence.
  intros [->|H]; [contradiction | assumption].
Qed.

Lemma NoDup_keys_writeOwn (o : object) (k : string) (v : val) :
  NoDup (map fst o) -> NoDup (map fst (writeOwn o k v)).
Proof.
  intros Hnd. unfold writeOwn. destruct (has o k) eqn:E.
  - now rewrite keys_replace.
  - apply has_false, get_None_iff in E.
    assert (H : NoDup (map fst ((k, v) :: o))) by (simpl; now constructor).
    destruct (arrayIndex k) as [n|].
    + eapply Permutation_NoDup; [|exact H].
      apply Permutation_map, Permutation_sym, insertIndex_perm.
    + eapply Permutation_NoDup; [|exact H].
      apply Permutation_map. apply Permutation_cons_append.
Qed.

(** *** [o[k] = v] *)

(** Any key but [__proto__] is written as an own property. *)
Lemma set_plain (o : built) (k : string) (v : val) :
  k <> "__proto__" ->
  set o k v = {| proto := proto o; own := writeOwn (own o) k v |}.
Proof.
  intros Hk. unfold set. apply String.eqb_neq in Hk. now rewrite Hk.
Qed.

(** A write either writes an own property, or it is a write of
    [__proto__] that leaves the own properties as they are. *)
Lemma set_cases (o : built) (k : string) (v : val) :
  set o k v = {| proto := proto o; own := writeOwn (own o) k v |} \/
  (k = "__proto__" /\ get (own o) k = None /\ own (set o k v) = own o).
Proof.
  unfold set.
  destruct (String.eqb_spec k "__proto__") as [->|_]; [|now left].
  destruct (has (own o) "__proto__") eqn:E; [now left|].
  destruct (reachesProtoSetter (proto o)); [|now left].
  right. apply has_false in E. auto.
Qed.

Lemma get_set_other (o : built) (k k' : string) (v : val) :
  k <> k' -> get (own (set o k v)) k' = get (own o) k'.
Proof.
  intros Hne. destruct (set_cases o k v) as [->|(_ & _ & ->)]; auto.
  cbn [own]. rewrite get_writeOwn. apply String.eqb_neq in Hne. now rewrite Hne.
Qed.

Lemma get_set_same (o : built) (k : string) (v : val) :
  k <> "__proto__" -> get (own (set o k v)) k = Some v.
Proof.
  intros Hk. rewrite (set_plain _ _ _ Hk). cbn [own].
  now rewrite get_writeOwn, String.eqb_refl.
Qed.

Lemma get_set (o : built) (k k' : string) (v : val) :
  k' <> "__proto__" ->
  get (own (set o k v)) k' = if String.eqb k k' then Some v else get (own o) k'.
Proof.
  intros Hk'. destruct (String.eqb_spec k k') as [->|Hne].
  - now apply get_set_same.
  - now apply get_set_other.
Qed.

(** What is read after a write was there before, or is what was written. *)
Lemma get_set_inv (o : built) (k k' : string) (v x : val) :
  get (own (set o k v)) k' = Some x ->
  get (own o) k' = Some x \/ (k' = k /\ x = v).
Proof.
  destruct (set_cases o k v) as [->|(_ & _ & ->)]; auto.
  cbn [own]. rewrite get_writeOwn.
  destruct (String.eqb_spec k k') as [->|_]; auto.
  intros [= ->]. auto.
Qed.

(** A write removes no property. *)
Lemma get_set_keeps (o : built) (k k' : string) (v : val) :
  get (own o) k' <> None -> get (own (set o k v)) k' <> None.
Proof.
  destruct (set_cases o k v) as [->|(_ & _ & ->)]; auto.
  cbn [own]. rewrite get_writeOwn. destruct (String.eqb k k'); congruence.
Qed.

Lemma NoDup_keys_set (o : built) (k : string) (v : val) :
  NoDup (map fst (own o)) -> NoDup (map fst (own (set o k v))).
Proof.
  destruct (set_cases o k v) as [->|(_ & _ & ->)]; auto.
  apply NoDup_keys_writeOwn.
Qed.

(** Reading a property, other than [__proto__], of the object that
    [fold_left] of [set] builds: the last entry for the key wins, and the
    seed shows through otherwise. *)
Lemma get_fold_set (l : list (string * val)) (o : built) (k : string) :
  k <> "__proto__" ->
  get (own (fold_left (fun obj e => set obj (fst e) (snd e)) l o)) k =
  match get (rev l) k with
  | Some v => Some v
  | None => get (own o) k
  end.
Proof.
  intros Hk. revert o. induction l as [|[k0 v0] l IH]; intros o; simpl; auto.
  rewrite IH, get_app. destruct (get (rev l) k); auto.
  simpl. rewrite get_set by assumption. now destruct (String.eqb k0 k).
Qed.

(** Every property of that object was in the seed or is an entry of the
    list. *)
Lemma get_fold_set_inv (l : list (string * val)) (o : built) (k : string) (v : val) :
  get (own (fold_left (fun obj e => set obj (fst e) (snd e)) l o)) k = Some v ->
  get (own o) k = Some v \/ In (k, v) l.
Proof.
  revert o. induction l as [|[k0 v0] l IH]; intros o; simpl; auto.
  intros H. destruct (IH _ H) as [H1|H1]; [|now auto].
  apply get_set_inv in H1 as [H1|[-> ->]]; auto.
Qed.

(** *** [o.hasOwnProperty] *)

Lemma hasOwnProperty_Ok (o : built) (k : string) (b : bool) :
  hasOwnProperty o k = Ok b ->
  inheritsHasOwnProperty o = true /\ b = has (own o) k.
Proof.
  unfold hasOwnProperty. destruct (inheritsHasOwnProperty o); [|discriminate].
  intros [= <-]. auto.
Qed.

Lemma hasOwnProperty_Throw (o : built) (k : string) (e : error) :
  hasOwnProperty o k = Throw e ->
  inheritsHasOwnProperty o = false /\ e = TypeError.
Proof.
  unfold hasOwnProperty. destruct (inheritsHasOwnProperty o); [discriminate|].
  intros [= <-]. auto.
Qed.

(** A write of a key other than [__proto__] and [hasOwnProperty] leaves
    the method as it was. *)
Lemma inherits_set (o : built) (k : string) (v : val) :
  k <> "__proto__" -> k <> "hasOwnProperty" ->
  inheritsHasOwnProperty (set o k v) = inheritsHasOwnProperty o.
Proof.
  intros Hp Hh. rewrite (set_plain _ _ _ Hp).
  unfold inheritsHasOwnProperty, has. cbn [own proto].
  rewrite get_writeOwn. apply String.eqb_neq in Hh. now rewrite Hh.
Qed.

End JsFacts.

(** ** The keyed map and the deletion loop *)

Module MergeFacts.
Import Js Sheet Merge JsFacts.

Lemma formDataReduceFunction_rowKey (obj : built) (v : val) :
  formDataReduceFunction obj v = let* name := rowKey v in Ok (set obj name v).
Proof.
  unfold formDataReduceFunction, rowKey.
  destruct (member v "name") as [n|e]; simpl; auto.
Qed.

Lemma rowKey_Ok (v : val) (k : string) :
  rowKey v = Ok k <->
  exists o s, v = VObj o /\ get o "name" = Some (VStr s) /\ k = trim s.
Proof.
  unfold rowKey, member. split.
  - destruct v as [| | | | |o]; simpl; try discriminate.
    destruct (get o "name") as [[| | | |s|]|] eqn:E; simpl; try discriminate.
    intros [= <-]. eauto.
  - intros (o & s & -> & E & ->). now rewrite E.
Qed.

Lemma rowKey_hasStringName (v : val) :
  hasStringName v <-> exists k, rowKey v = Ok k.
Proof.
  split.
  - intros (o & s & Hv & E). exists (trim s). apply rowKey_Ok. eauto.
  - intros (k & Hk). apply rowKey_Ok in Hk as (o & s & Hv & E & _).
    exists o, s. auto.
Qed.

Lemma rowKey_Throw (v : val) (e : error) : rowKey v = Throw e -> e = TypeError.
Proof.
  unfold rowKey, member.
  destruct v as [| | | | |o]; simpl; try congruence.
  destruct (get o "name") as [[| | | |s|]|]; simpl; congruence.
Qed.

Lemma rowKey_nameOf (r : val) (k : string) :
  rowKey r = Ok k -> k = trim (nameOf r).
Proof.
  intros H. apply rowKey_Ok in H as (o & s & -> & E & ->).
  simpl. now rewrite E.
Qed.

Lemma reduce_app {A B : Type} (f : B -> A -> result B) (l1 l2 : list A) (i : B) :
  reduce f (l1 ++ l2) i = let* m := reduce f l1 i in reduce f l2 m.
Proof.
  revert i. induction l1 as [|x l1 IH]; intros i; simpl; auto.
  destruct (f i x); simpl; auto.
Qed.

Lemma result_string_dec (x y : result string) : {x = y} + {x <> y}.
Proof.
  decide equality; [apply string_dec|].
  decide equality. apply string_dec.
Qed.

Section Reduction.

Local Notation "'keyedFrom'" := (reduce formDataReduceFunction).

Lemma keyedFrom_cons (r : val) (l : list val) (i : built) :
  keyedFrom (r :: l) i =
  let* k := rowKey r in keyedFrom l (set i k r).
Proof.
  simpl. rewrite formDataReduceFunction_rowKey.
  destruct (rowKey r); auto.
Qed.

Lemma keyedFrom_Ok_rows (l : list val) (i m : built) :
  keyedFrom l i = Ok m -> Forall hasStringName l.
Proof.
  revert i. induction l as [|r l IH]; intros i H; [constructor|].
  rewrite keyedFrom_cons in H.
  destruct (rowKey r) as [k|e] eqn:E; cbn [bind] in H; [|discriminate].
  constructor; eauto. apply rowKey_hasStringName. eauto.
Qed.

Lemma keyedFrom_total (l : list val) (i : built) :
  Forall hasStringName l -> exists m, keyedFrom l i = Ok m.
Proof.
  intros H. revert i. induction H as [|r l Hr _ IH]; intros i.
  - exists i. reflexivity.
  - rewrite keyedFrom_cons.
    apply rowKey_hasStringName in Hr as (k & ->). simpl. apply IH.
Qed.

Lemma keyedFrom_Throw (l : list val) (i : built) (e : error) :
  keyedFrom l i = Throw e -> e = TypeError.
Proof.
  revert i. induction l as [|r l IH]; intros i; [discriminate|].
  rewrite keyedFrom_cons.
  destruct (rowKey r) as [k|e'] eqn:E; simpl; eauto.
  intros [= <-]. eapply rowKey_Throw; eauto.
Qed.

Lemma keyedFrom_bad_row (l : list val) (i : built) (r : val) :
  In r l -> ~ hasStringName r -> keyedFrom l i = Throw TypeError.
Proof.
  intros Hin Hbad.
  destruct (keyedFrom l i) as [m|e] eqn:E.
  - apply keyedFrom_Ok_rows in E. rewrite Forall_forall in E.
    exfalso. auto.
  - now rewrite (keyedFrom_Throw _ _ _ E).
Qed.

(** Rows filed under other keys leave a key as it was. *)
Lemma keyedFrom_get_skip (l : list val) (i m : built) (k : string) :
  keyedFrom l i = Ok m ->
  (forall r, In r l -> rowKey r <> Ok k) ->
  get (own m) k = get (own i) k.
Proof.
  revert i. induction l as [|r l IH]; intros i H Hskip.
  - now injection H as <-.
  - rewrite keyedFrom_cons in H.
    destruct (rowKey r) as [k'|e] eqn:E; cbn [bind] in H; [|discriminate].
    rewrite (IH _ H) by (intros; apply Hskip; now right).
    apply get_set_other. intros ->. apply (Hskip r); [now left | assumption].
Qed.

(** Rows filed under other keys than [__proto__] leave the prototype as
    it was. *)
Lemma keyedFrom_proto_skip (l : list val) (i m : built) :
  keyedFrom l i = Ok m ->
  (forall r, In r l -> rowKey r <> Ok "__proto__") ->
  proto m = proto i.
Proof.
  revert i. induction l as [|r l IH]; intros i H Hskip.
  - now injection H as <-.
  - rewrite keyedFrom_cons in H.
    destruct (rowKey r) as [k'|e] eqn:E; cbn [bind] in H; [|discriminate].
    rewrite (IH _ H) by (intros; apply Hskip; now right).
    rewrite set_plain; [reflexivity|].
    intros ->. apply (Hskip r); [now left | assumption].
Qed.

(** The last row filed under a key, [__proto__] apart, is the one the
    map holds. *)
Lemma keyedFrom_get_last (l1 l2 : list val) (r : val) (i m : built) (k : string) :
  keyedFrom (l1 ++ r :: l2) i = Ok m ->
  rowKey r = Ok k ->
  k <> "__proto__" ->
  (forall r', In r' l2 -> rowKey r' <> Ok k) ->
  get (own m) k = Some r.
Proof.
  intros H Hk Hp Hskip. rewrite reduce_app in H.
  destruct (keyedFrom l1 i) as [m1|e]; cbn [bind] in H; [|discriminate].
  rewrite keyedFrom_cons, Hk in H. cbn [bind] in H.
  rewrite (keyedFrom_get_skip _ _ _ _ H Hskip). now apply get_set_same.
Qed.

(** Every entry of the map is in the seed or is a submitted row under
    its own key. *)
Lemma keyedFrom_get_inv (l : list val) (i m : built) (k : string) (v : val) :
  keyedFrom l i = Ok m ->
  get (own m) k = Some v ->
  get (own i) k = Some v \/ (In v l /\ rowKey v = Ok k).
Proof.
  revert i. induction l as [|r l IH]; intros i H Hget.
  - injection H as <-. now left.
  - rewrite keyedFrom_cons in H.
    destruct (rowKey r) as [k'|e] eqn:E; cbn [bind] in H; [|discriminate].
    destruct (IH _ H Hget) as [Hi|[Hin Hk]].
    + apply get_set_inv in Hi as [Hi|[-> ->]]; [now left|].
      right. split; [now left | assumption].
    + right. split; [now right | assumption].
Qed.

Lemma keyedFrom_NoDup (l : list val) (i m : built) :
  keyedFrom l i = Ok m -> NoDup (map fst (own i)) -> NoDup (map fst (own m)).
Proof.
  revert i. induction l as [|r l IH]; intros i H Hnd.
  - now injection H as <-.
  - rewrite keyedFrom_cons in H.
    destruct (rowKey r) as [k'|e] eqn:E; cbn [bind] in H; [|discriminate].
    apply (IH _ H). now apply NoDup_keys_set.
Qed.

(** No row is [null], so no entry of a keyed map is. *)
Lemma keyedFrom_not_null (l : list val) (m : built) (k : string) :
  keyedFrom l (literal []) = Ok m -> get (own m) k <> Some VNull.
Proof.
  intros H Hget.
  destruct (keyedFrom_get_inv _ _ _ _ _ H Hget) as [Hi|[_ Hk]];
    [discriminate|].
  apply rowKey_Ok in Hk as (o & s & Hv & _). discriminate.
Qed.

(** A single row named [__proto__] becomes the prototype of the map and
    leaves no entry. *)
Lemma keyedFrom_proto_once (l : list val) (m : built) :
  keyedFrom l (literal []) = Ok m ->
  NoDup (map rowKey l) ->
  get (own m) "__proto__" = None.
Proof.
  intros H Hnd.
  destruct (in_dec result_string_dec (Ok "__proto__") (map rowKey l))
    as [Hin|Hnotin].
  - apply in_map_iff in Hin as (r & Hk & Hin).
    destruct (in_split _ _ Hin) as (l1 & l2 & ->).
    rewrite map_app in Hnd. cbn [map] in Hnd.
    pose proof (NoDup_remove_2 _ _ _ Hnd) as Hfresh.
    rewrite reduce_app in H.
    destruct (keyedFrom l1 (literal [])) as [m1|] eqn:E1; cbn [bind] in H;
      [|discriminate].
    rewrite keyedFrom_cons, Hk in H. cbn [bind] in H.
    assert (H1 : forall r', In r' l1 -> rowKey r' <> Ok "__proto__").
    { intros r' Hr' E. apply Hfresh. apply in_or_app. left.
      rewrite Hk, <- E. now apply in_map. }
    assert (H2 : forall r', In r' l2 -> rowKey r' <> Ok "__proto__").
    { intros r' Hr' E. apply Hfresh. apply in_or_app. right.
      rewrite Hk, <- E. now apply in_map. }
    rewrite (keyedFrom_get_skip _ _ _ _ H H2).
    pose proof (keyedFrom_get_skip _ _ _ _ E1 H1) as Hown.
    pose proof (keyedFrom_proto_skip _ _ _ E1 H1) as Hproto.
    cbn [literal own proto get] in Hown, Hproto.
    unfold set. rewrite String.eqb_refl.
    apply has_false in Hown. rewrite Hown, Hproto. cbn.
    now apply has_false.
  - rewrite (keyedFrom_get_skip _ _ _ _ H); [reflexivity|].
    intros r Hr E. apply Hnotin. rewrite <- E. now apply in_map.
Qed.

End Reduction.

(** *** The deletion loop *)

Lemma sentinel_not_proto (k : string) : sentinel k <> "__proto__".
Proof. discriminate. Qed.

Lemma sentinel_not_method (k : string) : sentinel k <> "hasOwnProperty".
Proof. discriminate. Qed.

(** Writing a sentinel is a write of an own property. *)
Lemma set_sentinel (m : built) (k : string) (v : val) :
  set m (sentinel k) v =
  {| proto := proto m; own := writeOwn (own m) (sentinel k) v |}.
Proof. apply set_plain, sentinel_not_proto. Qed.

Lemma removeUnused_cons (k : string) (ks : list string) (m : built) :
  removeUnused (k :: ks) m =
  if nonEmpty k then
    let* found := hasOwnProperty m k in
    removeUnused ks (if found then m else set m (sentinel k) VNull)
  else removeUnused ks m.
Proof.
  unfold removeUnused. cbn [reduce].
  destruct (nonEmpty k); cbn [bind]; [|reflexivity].
  destruct (hasOwnProperty m k); reflexivity.
Qed.

(** One round of a loop that runs to its end: the key is empty, or the
    method is the inherited one and the key is an own property, or it is
    not and its sentinel is written. *)
Lemma removeUnused_cons_Ok (k : string) (ks : list string) (m m' : built) :
  removeUnused (k :: ks) m = Ok m' ->
  (k = "" /\ removeUnused ks m = Ok m') \/
  (k <> "" /\ inheritsHasOwnProperty m = true /\ get (own m) k <> None /\
   removeUnused ks m = Ok m') \/
  (k <> "" /\ inheritsHasOwnProperty m = true /\ get (own m) k = None /\
   removeUnused ks (set m (sentinel k) VNull) = Ok m').
Proof.
  rewrite removeUnused_cons. destruct (nonEmpty k) eqn:Hne.
  - apply nonEmpty_true in Hne.
    destruct (hasOwnProperty m k) as [found|] eqn:Hcall; cbn [bind];
      [|discriminate].
    apply hasOwnProperty_Ok in Hcall as [Hinh ->].
    destruct (has (own m) k) eqn:Hhas; intros H; right.
    + left. apply has_true in Hhas. auto.
    + right. apply has_false in Hhas. auto.
  - intros H. left. split; [|assumption].
    destruct k; [reflexivity | discriminate].
Qed.

Ltac loop_round H IH :=
  apply removeUnused_cons_Ok in H
    as [[? H]|[(? & ? & ? & H)|(? & ? & ? & H)]];
  [pose proof (IH _ H) | pose proof (IH _ H) | pose proof (IH _ H)].

(** The loop throws nothing but a [TypeError]. *)
Lemma removeUnused_Throw (ks : list string) (m : built) (e : error) :
  removeUnused ks m = Throw e -> e = TypeError.
Proof.
  revert m. induction ks as [|k0 ks IH]; intros m; [discriminate|].
  rewrite removeUnused_cons. destruct (nonEmpty k0); [|apply IH].
  destruct (hasOwnProperty m k0) as [found|e'] eqn:Hcall; cbn [bind].
  - apply IH.
  - intros [= <-]. now apply hasOwnProperty_Throw in Hcall.
Qed.

(** The loop runs to its end exactly when it never calls the method, or
    the method is the inherited one. *)
Lemma removeUnused_Ok_iff (ks : list string) (m : built) :
  (exists m', removeUnused ks m = Ok m') <->
  (forall k, In k ks -> k = "") \/ inheritsHasOwnProperty m = true.
Proof.
  revert m. induction ks as [|k0 ks IH]; intros m.
  - split; [|intros _; exists m; reflexivity]. intros _. left. intros k [].
  - rewrite removeUnused_cons. destruct (nonEmpty k0) eqn:Hne.
    + apply nonEmpty_true in Hne. unfold hasOwnProperty.
      destruct (inheritsHasOwnProperty m) eqn:Hinh; cbn [bind].
      * split; [auto|]. intros _. apply IH. right.
        destruct (has (own m) k0); [assumption|].
        rewrite inherits_set;
          [assumption | apply sentinel_not_proto | apply sentinel_not_method].
      * split; [intros (m' & H); discriminate|].
        intros [Hall|H]; [|discriminate].
        exfalso. apply Hne, Hall. now left.
    + assert (k0 = "") as -> by (destruct k0; [reflexivity | discriminate]).
      rewrite IH. split; intros [Hall|H]; auto; left.
      * intros k [<-|Hk]; auto.
      * intros k Hk. apply Hall. now right.
Qed.

(** The loop never removes a key. *)
Lemma removeUnused_keeps_keys (ks : list string) (m m' : built) (k : string) :
  removeUnused ks m = Ok m' ->
  get (own m) k <> None -> get (own m') k <> None.
Proof.
  revert m. induction ks as [|k0 ks IH]; intros m H Hget.
  - now injection H as <-.
  - loop_round H IH; auto.
    match goal with Hs : _ -> get (own m') k <> None |- _ => apply Hs end.
    now apply get_set_keeps.
Qed.

(** A sentinel, once written, stays. *)
Lemma removeUnused_keeps_null (ks : list string) (m m' : built) (k : string) :
  removeUnused ks m = Ok m' ->
  get (own m) k = Some VNull -> get (own m') k = Some VNull.
Proof.
  revert m. induction ks as [|k0 ks IH]; intros m H Hget.
  - now injection H as <-.
  - loop_round H IH; auto.
    match goal with Hs : _ -> get (own m') k = Some VNull |- _ => apply Hs end.
    rewrite set_sentinel. cbn [own]. rewrite get_writeOwn.
    now destruct (String.eqb (sentinel k0) k).
Qed.

(** A key that is the sentinel of no current key is left as it was. *)
Lemma removeUnused_get_other (ks : list string) (m m' : built) (k : string) :
  removeUnused ks m = Ok m' ->
  (forall k', In k' ks -> k <> sentinel k') ->
  get (own m') k = get (own m) k.
Proof.
  revert m. induction ks as [|k0 ks IH]; intros m H Hplain.
  - now injection H as <-.
  - assert (Hrest : forall k', In k' ks -> k <> sentinel k')
      by (intros; apply Hplain; now right).
    loop_round H IH; auto.
    match goal with Hs : _ -> get (own m') k = _ |- _ => rewrite (Hs Hrest) end.
    apply get_set_other. intros <-. apply (Hplain k0); [now left | reflexivity].
Qed.

(** Every entry of the finished map was in the keyed map, or is the
    sentinel of a non-empty current key that the keyed map lacks. *)
Lemma removeUnused_get_inv (ks : list string) (m m' : built) (k : string) (v : val) :
  removeUnused ks m = Ok m' ->
  get (own m') k = Some v ->
  get (own m) k = Some v \/
  (v = VNull /\
   exists k', k = sentinel k' /\ In k' ks /\ k' <> "" /\ get (own m) k' = None).
Proof.
  revert m. induction ks as [|k0 ks IH]; intros m H Hget.
  - injection H as <-. now left.
  - assert (Hlater : forall m1,
               get (own m1) k = Some v \/
               (v = VNull /\
                exists k', k = sentinel k' /\ In k' ks /\ k' <> "" /\
                           get (own m1) k' = None) ->
               (forall k', get (own m) k' = None \/ get (own m1) k' <> None) ->
               (get (own m1) k = Some v ->
                get (own m) k = Some v \/
                (v = VNull /\ k = sentinel k0 /\ k0 <> "" /\ get (own m) k0 = None)) ->
               get (own m) k = Some v \/
               (v = VNull /\
                exists k', k = sentinel k' /\ In k' (k0 :: ks) /\ k' <> "" /\
                           get (own m) k' = None)).
    { intros m1 [H1|(-> & k' & -> & Hin & Hne & Hnone)] Hmono Hhere.
      - destruct (Hhere H1) as [Hm|(-> & -> & Hne & Hnone)]; auto.
        right. split; auto. exists k0. repeat split; auto. now left.
      - right. split; auto. exists k'. repeat split; auto; [now right|].
        destruct (Hmono k'); [assumption | contradiction]. }
    apply removeUnused_cons_Ok in H
      as [[? H]|[(? & ? & ? & H)|(Hne & ? & Hnone & H)]].
    + apply (Hlater m (IH _ H Hget)); auto.
      intros k'. destruct (get (own m) k'); [right; congruence | now left].
    + apply (Hlater m (IH _ H Hget)); auto.
      intros k'. destruct (get (own m) k'); [right; congruence | now left].
    + apply (Hlater _ (IH _ H Hget)).
      * intros k'. destruct (get (own m) k') eqn:E; [right | now left].
        apply get_set_keeps. congruence.
      * intros H1. apply get_set_inv in H1 as [H1|[-> ->]]; auto.
Qed.

(** A non-empty current key that the keyed map lacks, and that is not
    itself the sentinel of a current key, gets its sentinel and no entry
    of its own. *)
Lemma removeUnused_sentinel (ks : list string) (m m' : built) (k : string) :
  removeUnused ks m = Ok m' ->
  In k ks -> k <> "" -> get (own m) k = None ->
  (forall k', In k' ks -> k <> sentinel k') ->
  get (own m') (sentinel k) = Some VNull /\
  get (own m') k = None.
Proof.
  intros H Hin Hne Hnone Hplain. split.
  - revert m H Hnone Hin Hplain.
    induction ks as [|k0 ks IH]; intros m H Hnone Hin Hplain; [contradiction|].
    assert (Hrest : forall k', In k' ks -> k <> sentinel k')
      by (intros; apply Hplain; now right).
    destruct (string_dec k0 k) as [->|Hk0].
    + apply removeUnused_cons_Ok in H
        as [[? H]|[(? & ? & ? & H)|(_ & _ & _ & H)]]; try contradiction.
      apply (removeUnused_keeps_null _ _ _ _ H).
      apply get_set_same, sentinel_not_proto.
    + destruct Hin as [Hin|Hin]; [contradiction|].
      apply removeUnused_cons_Ok in H
        as [[? H]|[(? & ? & ? & H)|(_ & _ & _ & H)]];
        try (now apply (IH m)).
      apply (IH _ H); auto.
      rewrite get_set_other; auto.
      intros E. apply (Hplain k0); [now left | now symmetry].
  - now rewrite (removeUnused_get_other _ _ _ _ H).
Qed.

(** When every non-empty current key is in the keyed map, the loop adds
    nothing. *)
Lemma removeUnused_noop (ks : list string) (m m' : built) :
  removeUnused ks m = Ok m' ->
  (forall k, In k ks -> k <> "" -> get (own m) k <> None) ->
  m' = m.
Proof.
  revert m. induction ks as [|k0 ks IH]; intros m H Hall.
  - now injection H as <-.
  - assert (Hrest : forall k, In k ks -> k <> "" -> get (own m) k <> None)
      by (intros; apply Hall; auto; now right).
    apply removeUnused_cons_Ok in H
      as [[? H]|[(? & ? & ? & H)|(Hne & _ & Hnone & H)]];
      try (now apply IH).
    exfalso. apply (Hall k0); auto. now left.
Qed.

(** *** [_updateObject] in one equation *)

Lemma member_Throw (v : val) (k : string) (e : error) :
  member v k = Throw e -> e = TypeError.
Proof.
  destruct v as [| | | | |o]; simpl; try congruence.
  destruct (get o k); congruence.
Qed.

Lemma Object_values_Throw (v : val) (e : error) :
  Object_values v = Throw e -> e = TypeError.
Proof. destruct v; simpl; congruence. Qed.

Lemma Object_keys_Throw (v : val) (e : error) :
  Object_keys v = Throw e -> e = TypeError.
Proof. destruct v; simpl; congruence. Qed.

Ltac run_step :=
  match goal with
  | |- context [member ?a ?b] =>
      let E := fresh "E" in
      destruct (member a b) as [?|?] eqn:E;
      [|apply member_Throw in E; subst]
  | |- context [Object_values ?a] =>
      let E := fresh "E" in
      destruct (Object_values a) as [?|?] eqn:E;
      [|apply Object_values_Throw in E; subst]
  | |- context [Object_keys ?a] =>
      let E := fresh "E" in
      destruct (Object_keys a) as [?|?] eqn:E;
      [|apply Object_keys_Throw in E; subst]
  | |- context [reduce formDataReduceFunction ?l ?i] =>
      let E := fresh "E" in
      destruct (reduce formDataReduceFunction l i) as [?|?] eqn:E;
      [|apply keyedFrom_Throw in E; subst]
  | |- context [removeUnused ?l ?i] =>
      let E := fresh "E" in
      destruct (removeUnused l i) as [?|?] eqn:E;
      [|apply removeUnused_Throw in E; subst]
  end.

Ltac run := repeat (progress cbn [bind members] || run_step).

(** The submit handler returns exactly when the three keyed maps and the
    three lists of current keys can be computed and the three deletion
    loops run to their end, and then hands over the re-combination of the
    finished maps; otherwise it throws a [TypeError]. *)
Lemma _updateObject_eq (expandObject : object -> val) (this_object : Actor)
    (event : Event) (formData : object) :
  _updateObject expandObject this_object event formData =
  let fd := expandObject formData in
  match keyedObject Skills fd, keyedObject Weapons fd, keyedObject Abilities fd,
        currentKeys Skills this_object, currentKeys Weapons this_object,
        currentKeys Abilities this_object with
  | Ok s, Ok w, Ok a, Ok ks, Ok kw, Ok ka =>
      match removeUnused ks s, removeUnused kw w, removeUnused ka a with
      | Ok s', Ok w', Ok a' =>
          Ok (recombine (_id this_object) (own s') (own w') (own a') formData)
      | _, _, _ => Throw TypeError
      end
  | _, _, _, _, _, _ => Throw TypeError
  end.
Proof.
  unfold _updateObject, keyedObject, rows, submitted, currentKeys, persisted,
    recombine.
  cbv zeta. run; reflexivity.
Qed.

Lemma _updateObject_Ok (expandObject : object -> val) (this_object : Actor)
    (event : Event) (formData patch : object) :
  _updateObject expandObject this_object event formData = Ok patch ->
  exists s w a ks kw ka s' w' a',
    keyedObject Skills (expandObject formData) = Ok s /\
    keyedObject Weapons (expandObject formData) = Ok w /\
    keyedObject Abilities (expandObject formData) = Ok a /\
    currentKeys Skills this_object = Ok ks /\
    currentKeys Weapons this_object = Ok kw /\
    currentKeys Abilities this_object = Ok ka /\
    removeUnused ks s = Ok s' /\
    removeUnused kw w = Ok w' /\
    removeUnused ka a = Ok a' /\
    patch = recombine (_id this_object) (own s') (own w') (own a') formData.
Proof.
  rewrite _updateObject_eq. cbv zeta.
  destruct (keyedObject Skills _) as [s|]; [|discriminate].
  destruct (keyedObject Weapons _) as [w|]; [|discriminate].
  destruct (keyedObject Abilities _) as [a|]; [|discriminate].
  destruct (currentKeys Skills _) as [ks|]; [|discriminate].
  destruct (currentKeys Weapons _) as [kw|]; [|discriminate].
  destruct (currentKeys Abilities _) as [ka|]; [|discriminate].
  destruct (removeUnused ks s) as [s'|] eqn:Es; [|discriminate].
  destruct (removeUnused kw w) as [w'|] eqn:Ew;
    [|destruct (removeUnused ka a); discriminate].
  destruct (removeUnused ka a) as [a'|] eqn:Ea; [|discriminate].
  intros [= <-]. exists s, w, a, ks, kw, ka, s', w', a'. repeat split; auto.
Qed.

Lemma _updateObject_Throw (expandObject : object -> val) (this_object : Actor)
    (event : Event) (formData : object) (e : error) :
  _updateObject expandObject this_object event formData = Throw e ->
  e = TypeError.
Proof.
  rewrite _updateObject_eq. cbv zeta.
  repeat match goal with
         | |- context [match ?x with Ok _ => _ | Throw _ => _ end] =>
             destruct x
         end; congruence.
Qed.

(** Whatever goes wrong, the handler throws a [TypeError]. *)
Lemma _updateObject_fails (expandObject : object -> val) (this_object : Actor)
    (event : Event) (formData : object) :
  (forall patch,
      _updateObject expandObject this_object event formData <> Ok patch) ->
  _updateObject expandObject this_object event formData = Throw TypeError.
Proof.
  intros H.
  destruct (_updateObject expandObject this_object event formData) as [p|e] eqn:E.
  - now contradiction (H p).
  - now rewrite (_updateObject_Throw _ _ _ _ _ E).
Qed.

Lemma keyed_object (c : collection) (fd : val) (s : object) :
  keyed c fd = Ok s <-> exists m, keyedObject c fd = Ok m /\ s = own m.
Proof.
  unfold keyed. destruct (keyedObject c fd) as [m|]; cbn [bind].
  - split; [intros [= <-]; eauto | intros (m' & [= <-] & ->); reflexivity].
  - split; [discriminate | intros (m' & H & _); discriminate].
Qed.

Lemma keyedObject_rows (c : collection) (fd : val) (m : built) :
  keyedObject c fd = Ok m ->
  exists rs,
    rows c fd = Ok rs /\ reduce formDataReduceFunction rs (literal []) = Ok m.
Proof.
  unfold keyedObject. destruct (rows c fd) as [rs|]; [|discriminate].
  cbn [bind]. eauto.
Qed.

(** *** The re-combination step *)

Lemma unmanaged_managed (k : string) (v : val) :
  unmanaged (k, v) = negb (managed k).
Proof.
  unfold unmanaged, managed. simpl.
  now rewrite !negb_orb.
Qed.

Lemma managed_key (c : collection) : managed (key c) = true.
Proof. destruct c; reflexivity. Qed.

Lemma managed_not_proto (k : string) : managed k = true -> k <> "__proto__".
Proof. intros H ->. discriminate. Qed.

Lemma recombine_get (id : val) (s w a formData : object) (k : string) :
  k <> "__proto__" ->
  get (recombine id s w a formData) k =
  match get (rev (filter unmanaged formData)) k with
  | Some v => Some v
  | None => get (seed id s w a) k
  end.
Proof. intros Hk. unfold recombine. now apply get_fold_set. Qed.

Lemma get_kept_inv (formData : object) (k : string) (v : val) :
  get (rev (filter unmanaged formData)) k = Some v ->
  In (k, v) formData /\ managed k = false.
Proof.
  intros H. apply get_Some_In, in_rev, filter_In in H as [Hin Hun].
  rewrite unmanaged_managed in Hun. apply negb_true_iff in Hun. auto.
Qed.

Lemma get_kept_managed (formData : object) (k : string) :
  managed k = true -> get (rev (filter unmanaged formData)) k = None.
Proof.
  intros Hk. destruct (get (rev (filter unmanaged formData)) k) eqn:E; auto.
  apply get_kept_inv in E as [_ E]. congruence.
Qed.

Lemma get_kept (formData : object) (k : string) (v : val) :
  NoDup (map fst formData) -> In (k, v) formData -> managed k = false ->
  get (rev (filter unmanaged formData)) k = Some v.
Proof.
  intros Hnd Hin Hk. apply In_get_NoDup.
  - rewrite map_rev. apply NoDup_rev.
    clear Hin. induction formData as [|[k0 v0] l IH]; simpl; [constructor|].
    inversion Hnd as [|? ? Hnotin Hnd']; subst.
    destruct (unmanaged (k0, v0)); simpl; auto.
    constructor; auto. intros Hin. apply Hnotin.
    apply in_map_iff in Hin as (x & Hx & Hin%filter_In).
    apply in_map_iff. exists x. tauto.
  - apply -> in_rev. apply filter_In. split; auto.
    rewrite unmanaged_managed, Hk. reflexivity.
Qed.

Lemma get_seed_key (id : val) (s w a : object) (c : collection) :
  get (seed id s w a) (key c) =
  Some (VObj match c with Skills => s | Weapons => w | Abilities => a end).
Proof. destruct c; reflexivity. Qed.

Lemma get_seed_inv (id : val) (s w a : object) (k : string) (v : val) :
  get (seed id s w a) k = Some v ->
  (k = "_id" /\ v = id) \/ exists c, k = key c.
Proof.
  unfold seed. cbn [get].
  destruct (String.eqb_spec "_id" k) as [<-|_].
  { intros [= <-]. now left. }
  destruct (String.eqb_spec "data.skills" k) as [<-|_].
  { intros _. right. now exists Skills. }
  destruct (String.eqb_spec "data.equipment.weapons" k) as [<-|_].
  { intros _. right. now exists Weapons. }
  destruct (String.eqb_spec "data.abilities" k) as [<-|_].
  { intros _. right. now exists Abilities. }
  discriminate.
Qed.

(** Every entry of the patch is in the seed or is a kept entry of the form
    data. *)
Lemma recombine_get_inv (id : val) (s w a formData : object) (k : string) (v : val) :
  get (recombine id s w a formData) k = Some v ->
  get (seed id s w a) k = Some v \/ (In (k, v) formData /\ managed k = false).
Proof.
  unfold recombine. intros H.
  apply get_fold_set_inv in H as [H|H]; [now left|].
  right. apply filter_In in H as [Hin Hun].
  rewrite unmanaged_managed in Hun. apply negb_true_iff in Hun. auto.
Qed.

Lemma recombine_key (id : val) (s w a formData : object) (c : collection) :
  get (recombine id s w a formData) (key c) =
  Some (VObj match c with Skills => s | Weapons => w | Abilities => a end).
Proof.
  rewrite recombine_get, get_kept_managed, get_seed_key;
    auto using managed_key, managed_not_proto.
Qed.

(** What a returned patch holds for a collection: the keyed map after the
    deletion loop. *)
Lemma finished_patch (expandObject : object -> val) (this_object : Actor)
    (event : Event) (formData patch : object) (c : collection) :
  _updateObject expandObject this_object event formData = Ok patch ->
  exists m ks m',
    keyedObject c (expandObject formData) = Ok m /\
    currentKeys c this_object = Ok ks /\
    removeUnused ks m = Ok m' /\
    finished patch c = Some (own m').
Proof.
  intros H.
  apply _updateObject_Ok in H
    as (s & w & a & ks & kw & ka & s' & w' & a'
        & Hs & Hw & Ha & Hks & Hkw & Hka & Hs' & Hw' & Ha' & ->).
  unfold finished. rewrite recombine_key.
  destruct c; eauto 10.
Qed.

End MergeFacts.

(** ** The submission: what [_updateObject] hands to the store *)

Module Submission.
Import Js Sheet Merge JsFacts MergeFacts.

(** What a returned patch holds for a collection, in terms of the own
    properties of the keyed map. *)
Lemma finished_keyed (expandObject : object -> val) (this_object : Actor)
    (event : Event) (formData patch : object) (c : collection) :
  _updateObject expandObject this_object event formData = Ok patch ->
  exists m ks m',
    keyedObject c (expandObject formData) = Ok m /\
    keyed c (expandObject formData) = Ok (own m) /\
    currentKeys c this_object = Ok ks /\
    removeUnused ks m = Ok m' /\
    finished patch c = Some (own m').
Proof.
  intros H.
  destruct (finished_patch _ _ _ _ _ c H) as (m & ks & m' & Hm & Hks & Hm' & Hf).
  exists m, ks, m'. repeat split; auto.
  apply keyed_object. eauto.
Qed.

(** (C1, as amended) For each managed collection the finished map of a
    returned patch holds the sentinel ["-=" + K], bound to [null], for every
    non-empty key [K] the actor held that the keyed submission lacks and that
    is not itself the sentinel of a held key; such a [K] has no entry of its
    own; and every [null] entry of the finished map is the sentinel of a
    non-empty held key that the keyed submission lacks, so none is emitted
    for a key that was not held, nor for the empty key. *)
Theorem sentinels_for_vanished_keys
    (expandObject : object -> val) (this_object : Actor) (event : Event)
    (formData patch : object) (c : collection) :
  _updateObject expandObject this_object event formData = Ok patch ->
  exists s current m,
    keyed c (expandObject formData) = Ok s /\
    currentKeys c this_object = Ok current /\
    finished patch c = Some m /\
    sentinelsFor current s m.
Proof.
  intros H.
  destruct (finished_keyed _ _ _ _ _ c H)
    as (s & ks & m & Hobj & Hs & Hks & Hloop & Hm).
  exists (own s), ks, (own m). repeat split; auto.
  - now apply (removeUnused_sentinel ks s m).
  - now apply (removeUnused_sentinel ks s m).
  - intros k Hk.
    destruct (removeUnused_get_inv _ _ _ _ _ Hloop Hk) as [Hkeyed|[_ Hsent]]; auto.
    exfalso.
    destruct (keyedObject_rows _ _ _ Hobj) as (rs & _ & Hred).
    exact (keyedFrom_not_null _ _ _ Hred Hkeyed).
Qed.

Lemma sentinels_for_vanished_keys_witness :
  _updateObject Sample.expandObject Sample.actor Sample.event Sample.renameForm
    = Ok Sample.renamePatch /\
  exists s current m,
    keyed Skills (Sample.expandObject Sample.renameForm) = Ok s /\
    currentKeys Skills Sample.actor = Ok current /\
    finished Sample.renamePatch Skills = Some m /\
    sentinelsFor current s m.
Proof.
  split; [reflexivity|].
  apply (sentinels_for_vanished_keys Sample.expandObject Sample.actor
           Sample.event Sample.renameForm Sample.renamePatch Skills).
  reflexivity.
Defined.

(** (C1, as stated) An actor that holds a skill under the empty key and a
    submission without skill rows: the empty key is held and absent from the
    keyed map, yet the patch has no sentinel for it. *)
Lemma sentinels_for_vanished_keys_counterexample :
  _updateObject Sample.expandObject Sample.actorBlank Sample.event
    Sample.plainForm = Ok Sample.actorBlankPatch /\
  keyed Skills (Sample.expandObject Sample.plainForm) = Ok [] /\
  currentKeys Skills Sample.actorBlank = Ok [""] /\
  finished Sample.actorBlankPatch Skills = Some [] /\
  ~ sentinelsAsStated [""] [] [].
Proof.
  repeat split; try reflexivity.
  intros [Hsent _].
  assert (H : get (@nil (string * val)) (sentinel "") = Some VNull).
  { apply Hsent. split; [now left | reflexivity]. }
  discriminate.
Qed.

(** (C2) The reduction files a row with [obj[name] = v] on an object made
    by [{}], and for the name [__proto__] that write is the write of the
    prototype.  Two skill rows whose names both trim to [__proto__]: the
    keyed map has no entry for the key, not the one entry holding the later
    row; the later row has become the prototype of the map, and the patch
    carries neither row. *)
Theorem proto_rows_are_not_filed :
  rows Skills (Sample.expandObject Sample.protoForm)
    = Ok [Sample.protoRowMight; Sample.protoRowSpeed] /\
  rowKey Sample.protoRowMight = Ok "__proto__" /\
  rowKey Sample.protoRowSpeed = Ok "__proto__" /\
  keyedObject Skills (Sample.expandObject Sample.protoForm)
    = Ok {| proto := PlainObject [("name", VStr " __proto__ "); ("stat", VStr "Speed")];
            own := [] |} /\
  keyed Skills (Sample.expandObject Sample.protoForm) = Ok [] /\
  _updateObject Sample.expandObject Sample.actor Sample.event Sample.protoForm
    = Ok Sample.protoPatch /\
  finished Sample.protoPatch Skills = Some [("-=Climbing", VNull)] /\
  ~ laterRowAsStated [Sample.protoRowMight; Sample.protoRowSpeed] [].
Proof.
  repeat split; try reflexivity.
  intros H.
  destruct (H [] Sample.protoRowMight [] Sample.protoRowSpeed [] "__proto__")
    as [Hget _]; try reflexivity; [intros r []|discriminate].
Qed.

(** (C3, as amended) A submitted row whose name is empty after trimming is
    not left out: the keyed map files it under the empty key, the last such
    row winning, and the patch carries it there, since the deletion loop
    only ever writes keys that start with ["-="]. *)
Theorem blank_name_row_is_kept
    (expandObject : object -> val) (this_object : Actor) (event : Event)
    (formData patch : object) (c : collection) (l1 l2 : list val) (r : val) :
  _updateObject expandObject this_object event formData = Ok patch ->
  rows c (expandObject formData) = Ok (l1 ++ r :: l2) ->
  rowKey r = Ok "" ->
  (forall r', In r' l2 -> rowKey r' <> Ok "") ->
  exists s m,
    keyed c (expandObject formData) = Ok s /\ get s "" = Some r /\
    finished patch c = Some m /\ get m "" = Some r.
Proof.
  intros H Hrows Hk Hlast.
  destruct (finished_keyed _ _ _ _ _ c H)
    as (s & ks & m & Hobj & Hs & Hks & Hloop & Hm).
  assert (Hget : get (own s) "" = Some r).
  { unfold keyedObject in Hobj. rewrite Hrows in Hobj. cbn [bind] in Hobj.
    apply (keyedFrom_get_last _ _ _ _ _ _ Hobj Hk); [discriminate | exact Hlast]. }
  exists (own s), (own m). repeat split; auto.
  rewrite (removeUnused_get_other _ _ _ _ Hloop); auto.
  intros k' _. discriminate.
Qed.

Lemma blank_name_row_is_kept_witness :
  _updateObject Sample.expandObject Sample.actor Sample.event
    Sample.blankRowForm = Ok Sample.blankRowPatch /\
  rows Skills (Sample.expandObject Sample.blankRowForm) = Ok [Sample.blankRow] /\
  rowKey Sample.blankRow = Ok "" /\
  exists s m,
    keyed Skills (Sample.expandObject Sample.blankRowForm) = Ok s /\
    get s "" = Some Sample.blankRow /\
    finished Sample.blankRowPatch Skills = Some m /\
    get m "" = Some Sample.blankRow.
Proof.
  split; [reflexivity|]. split; [reflexivity|]. split; [reflexivity|].
  apply (blank_name_row_is_kept Sample.expandObject Sample.actor Sample.event
           Sample.blankRowForm Sample.blankRowPatch Skills [] []
           Sample.blankRow).
  - reflexivity.
  - reflexivity.
  - reflexivity.
  - intros r' [].
Defined.

(** (C3, as stated) A skill row whose name is two blanks is submitted; the
    finished skills map of the patch has an entry for it, under the empty
    key. *)
Lemma blank_name_row_is_kept_counterexample :
  _updateObject Sample.expandObject Sample.actor Sample.event
    Sample.blankRowForm = Ok Sample.blankRowPatch /\
  rows Skills (Sample.expandObject Sample.blankRowForm) = Ok [Sample.blankRow] /\
  nameOf Sample.blankRow = "  " /\
  trim (nameOf Sample.blankRow) = "" /\
  finished Sample.blankRowPatch Skills
    = Some [("", Sample.blankRow); ("-=Climbing", VNull)] /\
  ~ (forall k, ~ In (k, Sample.blankRow)
                    [("", Sample.blankRow); ("-=Climbing", VNull)]).
Proof.
  repeat split; try reflexivity.
  intros H. apply (H ""). now left.
Qed.

(** (C4, as amended) The patch of a submission binds each of the three
    collection keys to a finished map and has no other key that starts with
    [data.skills], [data.equipment.weapons] or [data.abilities]; every key
    of the flat form data that starts with none of the three, the key
    [__proto__] apart, is in the patch with the value the form gave it;
    [_id] is the identity of the actor unless the form data has an [_id]
    entry of its own; and the patch has nothing else. *)
Theorem patch_frame
    (expandObject : object -> val) (this_object : Actor) (event : Event)
    (formData patch : object) :
  NoDup (map fst formData) ->
  _updateObject expandObject this_object event formData = Ok patch ->
  recombined (_id this_object) formData patch /\
  forall c, exists s current m,
    keyedObject c (expandObject formData) = Ok s /\
    currentKeys c this_object = Ok current /\
    removeUnused current s = Ok m /\
    get patch (key c) = Some (VObj (own m)).
Proof.
  intros Hnd H. split.
  - apply _updateObject_Ok in H
      as (s & w & a & ks & kw & ka & s' & w' & a'
          & _ & _ & _ & _ & _ & _ & _ & _ & _ & ->).
    repeat split.
    + intros c. rewrite recombine_key. eauto.
    + intros k Hk Hget.
      rewrite recombine_get, get_kept_managed in Hget
        by auto using managed_not_proto.
      destruct (get (seed _ _ _ _) k) as [v|] eqn:E; [|contradiction].
      apply get_seed_inv in E as [[-> _]|Hc]; [discriminate | assumption].
    + intros k v Hin Hk Hproto. rewrite recombine_get by assumption.
      now rewrite (get_kept _ _ _ Hnd Hin Hk).
    + intros Hid. rewrite recombine_get by discriminate.
      destruct (get (rev (filter unmanaged formData)) "_id") as [v|] eqn:E;
        [|reflexivity].
      apply get_kept_inv in E as [Hin _].
      apply (In_get_NoDup _ _ _ Hnd) in Hin. congruence.
    + intros k v Hget.
      apply recombine_get_inv in Hget as [Hseed|[Hin _]]; auto.
      apply get_seed_inv in Hseed as [Hid|Hc]; auto.
  - intros c.
    destruct (finished_patch _ _ _ _ _ c H) as (s & ks & m & Hs & Hks & Hloop & Hm).
    exists s, ks, m. repeat split; auto.
    unfold finished in Hm.
    destruct (get patch (key c)) as [[| | | | |m0]|]; try discriminate.
    now injection Hm as ->.
Qed.

Lemma patch_frame_witness :
  NoDup (map fst Sample.renameForm) /\
  _updateObject Sample.expandObject Sample.actor Sample.event Sample.renameForm
    = Ok Sample.renamePatch /\
  recombined (_id Sample.actor) Sample.renameForm Sample.renamePatch /\
  forall c, exists s current m,
    keyedObject c (Sample.expandObject Sample.renameForm) = Ok s /\
    currentKeys c Sample.actor = Ok current /\
    removeUnused current s = Ok m /\
    get Sample.renamePatch (key c) = Some (VObj (own m)).
Proof.
  assert (Hnd : NoDup (map fst Sample.renameForm)).
  { simpl. repeat constructor; simpl; intuition discriminate. }
  split; [exact Hnd|]. split; [reflexivity|].
  apply (patch_frame Sample.expandObject Sample.actor Sample.event
           Sample.renameForm Sample.renamePatch Hnd).
  reflexivity.
Defined.

(** (C4, as stated) A form with a field called [_id]: the patch carries the
    value of the field, not the identity of the actor. *)
Lemma patch_frame_counterexample :
  NoDup (map fst Sample.idForm) /\
  _updateObject Sample.expandObject Sample.actor Sample.event Sample.idForm
    = Ok Sample.idPatch /\
  _id Sample.actor = VStr "a1" /\
  get Sample.idPatch "_id" = Some (VStr "zz") /\
  get Sample.idPatch "_id" <> Some (_id Sample.actor).
Proof.
  split; [|repeat split; try reflexivity; discriminate].
  simpl. repeat constructor; simpl; intuition discriminate.
Qed.

(** A form with a field called [__proto__], which the filter keeps: the
    write of that key sets the prototype of the patch, and the patch has no
    entry for the field. *)
Example proto_field_is_not_carried :
  _updateObject (fun _ => VObj [("data", VObj [("tier", VStr "2")])])
    Sample.actor Sample.event [("__proto__", VStr "x"); ("data.tier", VStr "2")]
  = Ok [ ("_id", VStr "a1");
         ("data.skills", VObj [("-=Climbing", VNull)]);
         ("data.equipment.weapons", VObj [("-=Sword", VNull)]);
         ("data.abilities", VObj []);
         ("data.tier", VStr "2") ].
Proof. reflexivity. Qed.

(** (C8) A submission whose keyed map has, for a collection, the keys and
    the entities the actor holds: the deletion loop adds nothing, so the
    finished map in the patch is the keyed map itself, it agrees with the
    persisted collection key by key, and none of its entries is a
    sentinel. *)
Theorem noop_submit
    (expandObject : object -> val) (this_object : Actor) (event : Event)
    (formData patch : object) (c : collection) (s held : object) :
  _updateObject expandObject this_object event formData = Ok patch ->
  keyed c (expandObject formData) = Ok s ->
  persisted c this_object = Ok (VObj held) ->
  (forall k, get s k = get held k) ->
  exists m,
    finished patch c = Some m /\
    m = s /\
    (forall k, get m k = get held k) /\
    (forall k, get m k <> Some VNull).
Proof.
  intros H Hs Hheld Hsame.
  destruct (finished_keyed _ _ _ _ _ c H)
    as (s' & ks & m & Hobj & Hs' & Hks & Hloop & Hm).
  rewrite Hs in Hs'. injection Hs' as ->.
  unfold currentKeys in Hks. rewrite Hheld in Hks. cbn in Hks.
  injection Hks as <-.
  assert (Hnoop : m = s').
  { apply (removeUnused_noop _ _ _ Hloop).
    intros k Hin _. rewrite Hsame. intros Hnone.
    apply get_None_iff in Hnone. contradiction. }
  subst m. exists (own s'). repeat split; auto.
  intros k.
  destruct (keyedObject_rows _ _ _ Hobj) as (rs & _ & Hred).
  exact (keyedFrom_not_null _ _ _ Hred).
Qed.

Lemma noop_submit_witness :
  _updateObject Sample.expandObject Sample.actor Sample.event
    Sample.unchangedForm = Ok Sample.unchangedPatch /\
  exists m,
    finished Sample.unchangedPatch Skills = Some m /\
    m = [("Climbing", Sample.entity [("name", "Climbing"); ("stat", "Speed")])] /\
    (forall k,
        get m k
        = get [("Climbing", Sample.entity [("name", "Climbing"); ("stat", "Speed")])] k) /\
    (forall k, get m k <> Some VNull).
Proof.
  split; [reflexivity|].
  apply (noop_submit Sample.expandObject Sample.actor Sample.event
           Sample.unchangedForm Sample.unchangedPatch Skills).
  - reflexivity.
  - reflexivity.
  - reflexivity.
  - reflexivity.
Defined.

Lemma keyedObject_Throw (c : collection) (fd : val) (rs : list val) (r : val) :
  rows c fd = Ok rs -> In r rs -> ~ hasStringName r ->
  keyedObject c fd = Throw TypeError.
Proof.
  unfold keyedObject. intros -> Hin Hbad. cbn [bind].
  exact (keyedFrom_bad_row _ _ _ Hin Hbad).
Qed.

(** (C9) The reduction reads [v["name"].trim()] unguarded: a submission
    with a row, in any managed collection, that is not an object with a
    string [name] makes [_updateObject] throw a [TypeError] and build no
    patch; so whenever a patch is returned, every row of every managed
    collection has a string [name]. *)
Theorem rows_need_string_names
    (expandObject : object -> val) (this_object : Actor) (event : Event)
    (formData : object) :
  (forall c rs r,
      rows c (expandObject formData) = Ok rs -> In r rs -> ~ hasStringName r ->
      _updateObject expandObject this_object event formData = Throw TypeError) /\
  (forall patch,
      _updateObject expandObject this_object event formData = Ok patch ->
      forall c, exists rs,
        rows c (expandObject formData) = Ok rs /\ Forall hasStringName rs).
Proof.
  split.
  - intros c rs r Hrows Hin Hbad.
    pose proof (keyedObject_Throw _ _ _ _ Hrows Hin Hbad) as Hk.
    apply _updateObject_fails. intros patch H.
    destruct (finished_patch _ _ _ _ _ c H) as (m & _ & _ & Hm & _).
    congruence.
  - intros patch H c.
    destruct (finished_patch _ _ _ _ _ c H) as (s & ks & m & Hs & _ & _ & _).
    destruct (keyedObject_rows _ _ _ Hs) as (rs & Hrs & Hred).
    exists rs. split; [assumption|].
    exact (keyedFrom_Ok_rows _ _ _ Hred).
Qed.

Lemma rows_need_string_names_witness :
  rows Skills (Sample.expandObject Sample.namelessRowForm)
    = Ok [Sample.entity [("stat", "Might")]] /\
  ~ hasStringName (Sample.entity [("stat", "Might")]) /\
  _updateObject Sample.expandObject Sample.actor Sample.event
    Sample.namelessRowForm = Throw TypeError.
Proof.
  assert (Hbad : ~ hasStringName (Sample.entity [("stat", "Might")])).
  { intros (o & s & Ho & Hname). injection Ho as <-. discriminate. }
  split; [reflexivity|]. split; [exact Hbad|].
  apply (proj1 (rows_need_string_names Sample.expandObject Sample.actor
                  Sample.event Sample.namelessRowForm)
           Skills [Sample.entity [("stat", "Might")]]
           (Sample.entity [("stat", "Might")])).
  - reflexivity.
  - now left.
  - exact Hbad.
Defined.

(** When the expanded form holds nothing for a managed collection, so that
    the [|| {}] default is taken, the finished map of the patch is made of
    sentinels only: each entry is ["-=" + K] bound to [null] for a
    non-empty key [K] the actor holds, and a non-empty held key has its
    sentinel whenever it is not itself the sentinel of a held key. *)
Lemma absent_collection_is_emptied
    (expandObject : object -> val) (this_object : Actor) (event : Event)
    (formData patch : object) (c : collection) (x : val) :
  _updateObject expandObject this_object event formData = Ok patch ->
  submitted c (expandObject formData) = Ok x ->
  truthy x = false ->
  exists current m,
    currentKeys c this_object = Ok current /\
    finished patch c = Some m /\
    onlySentinels current m /\
    (forall k,
        In k current -> k <> "" ->
        (forall k', In k' current -> k <> sentinel k') ->
        get m (sentinel k) = Some VNull).
Proof.
  intros H Hx Hfalsy.
  destruct (finished_patch _ _ _ _ _ c H) as (s & ks & m & Hs & Hks & Hloop & Hm).
  assert (s = literal []) as ->.
  { unfold keyedObject, rows in Hs. rewrite Hx in Hs. cbn [bind] in Hs.
    unfold or in Hs. rewrite Hfalsy in Hs. now injection Hs as <-. }
  exists ks, (own m).
  split; [assumption|]. split; [assumption|]. split.
  - intros k v Hget.
    destruct (removeUnused_get_inv _ _ _ _ _ Hloop Hget)
      as [Hnil|(-> & k' & Hk & Hin & Hne & _)]; [discriminate|].
    split; [reflexivity|]. exists k'. auto.
  - intros k Hin Hne Hplain.
    now apply (removeUnused_sentinel ks (literal []) m).
Qed.

Lemma absent_collection_is_emptied_witness :
  _updateObject Sample.expandObject Sample.actor Sample.event Sample.plainForm
    = Ok Sample.plainPatch /\
  submitted Skills (Sample.expandObject Sample.plainForm) = Ok VUndefined /\
  exists current m,
    currentKeys Skills Sample.actor = Ok current /\
    finished Sample.plainPatch Skills = Some m /\
    onlySentinels current m /\
    (forall k,
        In k current -> k <> "" ->
        (forall k', In k' current -> k <> sentinel k') ->
        get m (sentinel k) = Some VNull).
Proof.
  split; [reflexivity|]. split; [reflexivity|].
  apply (absent_collection_is_emptied Sample.expandObject Sample.actor
           Sample.event Sample.plainForm Sample.plainPatch Skills VUndefined).
  - reflexivity.
  - reflexivity.
  - reflexivity.
Defined.

(** (C10) The deletion loop tests each held key against the map it is
    extending.  For an actor that holds a skill [A] and a skill named
    [-=A], and a form without skill fields, the sentinel written for [A]
    is taken for an entry of the second skill: the held key [-=A] is not
    empty, yet the finished map has no sentinel for it and is
    [{"-=A": null}] alone. *)
Theorem absent_collection_sentinel_collision :
  _updateObject Sample.expandObject Sample.actorDash Sample.event
    Sample.plainForm = Ok Sample.actorDashPatch /\
  submitted Skills (Sample.expandObject Sample.plainForm) = Ok VUndefined /\
  currentKeys Skills Sample.actorDash = Ok ["A"; "-=A"] /\
  finished Sample.actorDashPatch Skills = Some [("-=A", VNull)] /\
  get [("-=A", VNull)] (sentinel "-=A") = None /\
  ~ (forall k,
        In k ["A"; "-=A"] -> k <> "" ->
        get [("-=A", VNull)] (sentinel k) = Some VNull).
Proof.
  repeat split; try reflexivity.
  intros H.
  assert (Hget : get [("-=A", VNull)] (sentinel "-=A") = Some VNull).
  { apply H; [right; now left | discriminate]. }
  discriminate.
Qed.

End Submission.

(** ** Walking and changing the tree *)

Module DomFacts.
Import Js Dom.

Lemma lookup_app (root : node) (p q : path) :
  lookup root (p ++ q) =
  match lookup root p with
  | Some n => lookup n q
  | None => None
  end.
Proof.
  revert root. induction p as [|i p IH]; intros root; simpl; auto.
  destruct (nth_error (children root) i); auto.
Qed.

Lemma lookup_prefix (root : node) (p q : path) :
  lookup root (p ++ q) <> None -> lookup root p <> None.
Proof. rewrite lookup_app. destruct (lookup root p); congruence. Qed.

Lemma nth_error_modifyNth {A : Type} (f : A -> A) (i j : nat) (l : list A) :
  nth_error (modifyNth f i l) j =
  if Nat.eqb i j then option_map f (nth_error l j) else nth_error l j.
Proof.
  revert i j. induction l as [|x l IH]; intros i j.
  - destruct i, j; simpl; auto; now destruct (Nat.eqb i j).
  - destruct i, j; simpl; auto.
Qed.

Lemma modifyNth_fixed {A : Type} (f : A -> A) (i : nat) (l : list A) :
  (forall x, nth_error l i = Some x -> f x = x) -> modifyNth f i l = l.
Proof.
  revert i. induction l as [|x l IH]; intros i H; destruct i; simpl; auto.
  - now rewrite H.
  - now rewrite IH.
Qed.

Lemma lookup_modify_same (f : node -> node) (root : node) (p : path) (n : node) :
  lookup root p = Some n -> lookup (modify f root p) p = Some (f n).
Proof.
  revert root. induction p as [|i p IH]; intros root; simpl.
  - now intros [= ->].
  - rewrite nth_error_modifyNth, Nat.eqb_refl.
    destruct (nth_error (children root) i) as [c|]; simpl; [|discriminate].
    apply IH.
Qed.

(** A change that leaves the element at [p] as it was leaves the tree as it
    was. *)
Lemma modify_fixed (f : node -> node) (root : node) (p : path) :
  (forall n, lookup root p = Some n -> f n = n) -> modify f root p = root.
Proof.
  revert root. induction p as [|i p IH]; intros root H; simpl.
  - now apply H.
  - destruct root as [a ct cs]. simpl in *. f_equal.
    apply modifyNth_fixed. intros c Hc. apply IH.
    intros n Hn. apply H. now rewrite Hc.
Qed.

Lemma withName_same (s : string) (n : node) :
  name (attrs n) = s -> withName s n = n.
Proof. destruct n as [[t cl nm v d] ct cs]. simpl. now intros ->. Qed.

(** Renaming an element changes the [name] read at its reference and no
    other, and no [value]. *)
Lemma nameAt_rename_same (s : string) (root : node) (p : path) :
  lookup root p <> None -> nameAt (modify (withName s) root p) p = Some s.
Proof.
  unfold nameAt. destruct (lookup root p) as [n|] eqn:E; [|congruence].
  intros _. rewrite (lookup_modify_same _ _ _ _ E).
  now destruct n as [[t cl nm v d] ct cs].
Qed.

Lemma nameAt_rename_other (s : string) (root : node) (p q : path) :
  q <> p -> nameAt (modify (withName s) root p) q = nameAt root q.
Proof.
  unfold nameAt. revert root q. induction p as [|i p IH]; intros root q Hne.
  - destruct q as [|j q]; [congruence|]. reflexivity.
  - destruct q as [|j q]; [reflexivity|].
    cbn [lookup modify children]. rewrite nth_error_modifyNth.
    destruct (Nat.eqb_spec i j) as [<-|Hij]; auto.
    destruct (nth_error (children root) i) as [c|]; cbn [option_map]; auto.
    apply IH. congruence.
Qed.

Lemma valueAt_rename (s : string) (root : node) (p q : path) :
  valueAt (modify (withName s) root p) q = valueAt root q.
Proof.
  unfold valueAt. revert root q. induction p as [|i p IH]; intros root q.
  - destruct q as [|j q]; simpl; auto.
  - destruct q as [|j q]; simpl; auto.
    rewrite nth_error_modifyNth.
    destruct (Nat.eqb_spec i j) as [<-|Hij]; auto.
    destruct (nth_error (children root) i) as [c|]; simpl; auto.
Qed.

(** [closest] answers with an element of the tree that matches. *)
Lemma closestFrom_Some (root : node) (sel : selector) (rp : list nat) (q : path) :
  closestFrom root sel rp = Some q ->
  exists n, lookup root q = Some n /\ matches sel n = true.
Proof.
  induction rp as [|i rp IH]; simpl.
  - destruct (matches sel root) eqn:E; [|discriminate].
    intros [= <-]. exists root. auto.
  - destruct (lookup root (rev rp ++ [i])) as [n|] eqn:E; auto.
    destruct (matches sel n) eqn:Em; auto.
    intros [= <-]. exists n. auto.
Qed.

Lemma closest_Some (root : node) (p : path) (sel : selector) (q : path) :
  closest root p sel = Some q ->
  exists n, lookup root q = Some n /\ matches sel n = true.
Proof. apply closestFrom_Some. Qed.

(** A change at one reference is not seen at a reference that has parted
    ways with it. *)
Lemma lookup_modify_apart (f : node -> node) (root : node) (common : path)
    (i j : nat) (p q : path) :
  i <> j ->
  lookup (modify f root (common ++ i :: p)) (common ++ j :: q)
  = lookup root (common ++ j :: q).
Proof.
  intros Hij. revert root. induction common as [|c common IH]; intros root.
  - cbn [app lookup modify children]. rewrite nth_error_modifyNth.
    apply Nat.eqb_neq in Hij. now rewrite Hij.
  - cbn [app lookup modify children]. rewrite nth_error_modifyNth, Nat.eqb_refl.
    destruct (nth_error (children root) c) as [n|]; cbn [option_map]; auto.
Qed.

(** Taking the element at an index out of a list leaves what is before it
    and what is after it. *)
Lemma removeNth_split {A : Type} (i : nat) (l : list A) (x : A) :
  nth_error l i = Some x ->
  exists before after,
    l = before ++ x :: after /\ List.length before = i /\
    removeNth i l = before ++ after.
Proof.
  revert i. induction l as [|y l IH]; intros i H; [now destruct i|].
  destruct i as [|i]; simpl in H.
  - injection H as ->. exists [], l. auto.
  - destruct (IH _ H) as (before & after & -> & Hlen & Hrm).
    exists (y :: before), after. simpl. rewrite Hrm, Hlen. auto.
Qed.

Lemma removelast_last (p : path) : p <> [] -> removelast p ++ [last p 0] = p.
Proof. intros H. symmetry. now apply app_removelast_last. Qed.

(** Induction on a tree, with the hypothesis for every child. *)
Lemma node_children_ind (P : node -> Prop) :
  (forall a ct cs, Forall P cs -> P (Element a ct cs)) -> forall n, P n.
Proof.
  intros H. fix IH 1. intros [a ct cs]. apply H.
  induction cs as [|c cs IHcs]; constructor; [apply IH | apply IHcs].
Qed.

Lemma walk_In (below : node -> list (path * node)) (l : list node) (i : nat)
    (p : path) (n : node) :
  In (p, n) (walk below i l) ->
  exists j c,
    nth_error l j = Some c /\
    ((p = [i + j] /\ n = c) \/ exists q, p = (i + j) :: q /\ In (q, n) (below c)).
Proof.
  revert i. induction l as [|c l IH]; intros i; simpl; [tauto|].
  intros [H|H].
  - injection H as <- <-. exists 0, c. rewrite Nat.add_0_r. auto.
  - apply in_app_or in H as [H|H].
    + apply in_map_iff in H as ([q m] & [= <- <-] & Hin).
      exists 0, c. rewrite Nat.add_0_r. split; [reflexivity|]. right. eauto.
    + apply IH in H as (j & c' & Hnth & Hcase).
      exists (S j), c'. rewrite Nat.add_succ_r. auto.
Qed.

(** The reference of a descendant leads to it. *)
Lemma descendants_lookup (t : node) (p : path) (n : node) :
  In (p, n) (descendants t) -> lookup t p = Some n.
Proof.
  revert p n. induction t as [a ct cs IH] using node_children_ind.
  intros p n H. simpl in H.
  apply walk_In in H as (j & c & Hnth & [[-> ->]|(q & -> & Hin)]); simpl.
  - now rewrite Hnth.
  - rewrite Hnth. rewrite Forall_forall in IH.
    apply IH; auto. eapply nth_error_In; eauto.
Qed.

Lemma firstByTag_lookup (t : node) (tag : string) (p : path) (n : node) :
  hd_error (getElementsByTagName t tag) = Some (p, n) ->
  lookup t p = Some n /\ tagName (attrs n) = tag.
Proof.
  intros H.
  assert (Hin : In (p, n) (getElementsByTagName t tag)).
  { destruct (getElementsByTagName t tag); [discriminate|].
    injection H as ->. now left. }
  apply filter_In in Hin as [Hin Htag]. simpl in Htag.
  apply String.eqb_eq in Htag. split; [now apply descendants_lookup | auto].
Qed.

End DomFacts.

(** ** Creating and deleting rows *)

Module RowLifecycle.
Import Js Dom Sheet Rows DomFacts.

Ltac unfold_handler :=
  cbv beta iota delta
    [onClickControlGenerator bindM preventDefault emit actionOf closestOf
     firstByTagName cloneContentOf appendChild parentElementOf removeChild
     _onSubmit update deref ret throw actionIs];
  cbn [html trace fst snd].

Ltac crunch :=
  repeat (progress (cbv beta iota; cbn [html trace fst snd option_map])
          || rewrite String.eqb_refl
          || rewrite lookup_app
          || match goal with
             | H : ?x = _ |- context [?x] => rewrite H
             end).

(** The [create] branch, outcome by outcome. *)
Lemma create_eq (outcome : Event -> node -> result unit) (control : string)
    (event : Event) (s : sheet) (a : node) :
  lookup (html s) (currentTarget event) = Some a ->
  dataset_action (attrs a) = Some "create" ->
  onClickControlGenerator outcome control event s =
  match closest (html s) (currentTarget event) (Tag "table") with
  | None => (Throw TypeError, prevented s)
  | Some tp =>
      match lookup (html s) tp with
      | None => (Throw TypeError, prevented s)
      | Some t =>
          match hd_error (getElementsByTagName t "template"),
                hd_error (getElementsByTagName t "tbody") with
          | None, _ => (Throw (noTemplate control), prevented s)
          | Some _, None => (Throw TypeError, prevented s)
          | Some (_, tpl), Some (bp, _) =>
              (Ok tt,
               {| html := modify (appendChildren (content tpl)) (html s) (tp ++ bp);
                  trace := trace s ++ [PreventDefault] |})
          end
      end
  end.
Proof.
  intros Ha Hact.
  destruct (closest (html s) (currentTarget event) (Tag "table")) as [tp|] eqn:Etp.
  2: { unfold_handler. crunch. reflexivity. }
  destruct (lookup (html s) tp) as [t|] eqn:Ht.
  2: { unfold_handler. crunch. reflexivity. }
  destruct (hd_error (getElementsByTagName t "template")) as [[tplp tpl]|] eqn:Etpl;
    destruct (hd_error (getElementsByTagName t "tbody")) as [[bp b]|] eqn:Eb;
    try (pose proof (firstByTag_lookup _ _ _ _ Etpl) as [Htpl _]);
    try (pose proof (firstByTag_lookup _ _ _ _ Eb) as [Hb _]);
    unfold_handler; crunch; reflexivity.
Qed.

(** The [delete] branch, outcome by outcome: once the row is out of its
    parent, the handler ends the way the host's [_onSubmit] ends. *)
Lemma delete_eq (outcome : Event -> node -> result unit) (control : string)
    (event : Event) (s : sheet) (a : node) :
  lookup (html s) (currentTarget event) = Some a ->
  dataset_action (attrs a) = Some "delete" ->
  onClickControlGenerator outcome control event s =
  match closest (html s) (currentTarget event) (Class control) with
  | None | Some [] => (Throw TypeError, prevented s)
  | Some rowp =>
      let h := modify (removeChildAt (last rowp 0)) (html s) (removelast rowp) in
      (outcome event h,
       {| html := h; trace := trace s ++ [PreventDefault; Submit h] |})
  end.
Proof.
  intros Ha Hact.
  destruct (closest (html s) (currentTarget event) (Class control))
    as [rowp|] eqn:Erow.
  2: { unfold_handler. crunch.
       replace ("delete" =? "create") with false by reflexivity.
       crunch. reflexivity. }
  destruct (closest_Some _ _ _ _ Erow) as (row & Hrow & _).
  destruct rowp as [|i p].
  { unfold_handler. crunch.
    replace ("delete" =? "create") with false by reflexivity.
    crunch. simpl in Hrow. crunch. reflexivity. }
  assert (Hparent : lookup (html s) (removelast (i :: p)) <> None).
  { apply (lookup_prefix _ _ [last (i :: p) 0]).
    rewrite removelast_last by discriminate. congruence. }
  destruct (lookup (html s) (removelast (i :: p))) as [parent|] eqn:Ep;
    [|congruence].
  unfold_handler. crunch.
  replace ("delete" =? "create") with false by reflexivity.
  crunch. rewrite <- app_assoc. reflexivity.
Qed.

Lemma delete_row_eq (outcome : Event -> node -> result unit) (control : string)
    (event : Event) (s : sheet) (a : node) (rowp : path) :
  lookup (html s) (currentTarget event) = Some a ->
  dataset_action (attrs a) = Some "delete" ->
  closest (html s) (currentTarget event) (Class control) = Some rowp ->
  rowp <> [] ->
  onClickControlGenerator outcome control event s =
  (outcome event (modify (removeChildAt (last rowp 0)) (html s) (removelast rowp)),
   {| html := modify (removeChildAt (last rowp 0)) (html s) (removelast rowp);
      trace :=
        trace s ++
        [PreventDefault;
         Submit (modify (removeChildAt (last rowp 0)) (html s) (removelast rowp))] |}).
Proof.
  intros Ha Hact Hrow Hne. rewrite (delete_eq _ _ _ _ _ Ha Hact), Hrow.
  destruct rowp; [congruence | reflexivity].
Qed.


Lemma submissions_prevented (t : list effect) :
  submissions (t ++ [PreventDefault]) = submissions t.
Proof.
  unfold submissions. rewrite filter_app, length_app. simpl. lia.
Qed.

(** A [create] click calls [preventDefault] and nothing else of the host. *)
Lemma create_trace (outcome : Event -> node -> result unit) (control : string)
    (event : Event) (s : sheet) (a : node) (r : result unit) (s' : sheet) :
  lookup (html s) (currentTarget event) = Some a ->
  dataset_action (attrs a) = Some "create" ->
  onClickControlGenerator outcome control event s = (r, s') ->
  trace s' = trace s ++ [PreventDefault].
Proof.
  intros Ha Hact Hrun. rewrite (create_eq _ _ _ _ _ Ha Hact) in Hrun.
  destruct (closest (html s) (currentTarget event) (Tag "table")) as [tp|];
    [|now injection Hrun as <- <-].
  destruct (lookup (html s) tp) as [t|]; [|now injection Hrun as <- <-].
  destruct (hd_error (getElementsByTagName t "template")) as [[tplp tpl]|];
    destruct (hd_error (getElementsByTagName t "tbody")) as [[bp b]|];
    now injection Hrun as <- <-.
Qed.

(** (C6) A [create] click throws the configuration error exactly when the
    table it is in has no row template; whenever it does not complete, the
    form is as before; when it completes, the body of the table has the
    content of the template appended after its rows and nothing else
    changed; in no case is the form submitted. *)
Theorem create_needs_template (outcome : Event -> node -> result unit)
    (control : string) (event : Event) (s : sheet)
    (a : node) (r : result unit) (s' : sheet) :
  lookup (html s) (currentTarget event) = Some a ->
  dataset_action (attrs a) = Some "create" ->
  onClickControlGenerator outcome control event s = (r, s') ->
  created control event s r s'.
Proof.
  intros Ha Hact Hrun. rewrite (create_eq _ _ _ _ _ Ha Hact) in Hrun.
  unfold created.
  destruct (closest (html s) (currentTarget event) (Tag "table")) as [tp|] eqn:Etp.
  2: { injection Hrun as <- <-. cbn [html trace prevented].
       rewrite submissions_prevented.
       split; [|split; [|split; [|split; [|split]]]];
         try reflexivity; try discriminate.
       split; [intros (message & H) | intros (tp & t & H & _)]; discriminate. }
  destruct (lookup (html s) tp) as [t|] eqn:Ht.
  2: { injection Hrun as <- <-. cbn [html trace prevented].
       rewrite submissions_prevented.
       split; [|split; [|split; [|split; [|split]]]];
         try reflexivity; try discriminate.
       split; [intros (message & H); discriminate|].
       intros (tp' & t & [= <-] & H & _). congruence. }
  destruct (hd_error (getElementsByTagName t "template")) as [[tplp tpl]|] eqn:Etpl.
  - assert (Hnot : ~ exists tp' t',
               Some tp = Some tp' /\
               lookup (html s) tp' = Some t' /\
               getElementsByTagName t' "template" = []).
    { intros (tp' & t' & [= <-] & Ht' & E).
      rewrite Ht in Ht'. injection Ht' as <-. rewrite E in Etpl. discriminate. }
    destruct (hd_error (getElementsByTagName t "tbody")) as [[bp body]|] eqn:Eb.
    + injection Hrun as <- <-. cbn [html trace].
      rewrite submissions_prevented.
      split; [|split; [|split; [|split; [|split]]]];
        try reflexivity; try discriminate.
      * split; [intros (message & H); discriminate | intros H; contradiction].
      * intros H. now contradiction H.
      * intros _. exists tp, t, tplp, tpl, bp, body.
        destruct (firstByTag_lookup _ _ _ _ Eb) as [Hb _].
        assert (Hbody : lookup (html s) (tp ++ bp) = Some body)
          by now rewrite lookup_app, Ht.
        repeat split; auto.
        now rewrite (lookup_modify_same _ _ _ _ Hbody).
    + injection Hrun as <- <-. cbn [html trace prevented].
      rewrite submissions_prevented.
      split; [|split; [|split; [|split; [|split]]]];
        try reflexivity; try discriminate.
      split; [intros (message & H); discriminate | intros H; contradiction].
  - injection Hrun as <- <-. cbn [html trace prevented].
    rewrite submissions_prevented.
    split; [|split; [|split; [|split; [|split]]]];
      try reflexivity; try discriminate.
    split.
    + intros _. exists tp, t. repeat split; auto.
      destruct (getElementsByTagName t "template"); [reflexivity | discriminate].
    + intros _. eexists. reflexivity.
Qed.

Lemma create_needs_template_witness :
  lookup (html Sample.untouchedSheet) (currentTarget Sample.clickCreate)
    = Some (Sample.control "skill-control" "create") /\
  onClickControlGenerator Sample.hostFulfils "skill" Sample.clickCreate
    Sample.untouchedSheet
    = (Ok tt, Sample.createdSheet) /\
  created "skill" Sample.clickCreate Sample.untouchedSheet (Ok tt)
    Sample.createdSheet.
Proof.
  split; [reflexivity|]. split; [reflexivity|].
  apply (create_needs_template Sample.hostFulfils "skill" Sample.clickCreate
           Sample.untouchedSheet (Sample.control "skill-control" "create")).
  - reflexivity.
  - reflexivity.
  - reflexivity.
Defined.

(** The same click in a table without a template. *)
Example create_without_template :
  onClickControlGenerator Sample.hostFulfils "skill" Sample.clickCreateBare
    (Sample.sheetOf (Sample.bareSkillsTable []))
  = (Throw (Error "No row template found in skill table"),
     prevented (Sample.sheetOf (Sample.bareSkillsTable []))).
Proof. reflexivity. Qed.

(** What taking the row at [rowp] out of its parent leaves of a form. *)
Lemma detached (h : node) (rowp : path) (row : node) :
  lookup h rowp = Some row -> rowp <> [] ->
  exists parent before after,
    lookup h (removelast rowp) = Some parent /\
    children parent = before ++ row :: after /\
    List.length before = last rowp 0 /\
    lookup (modify (removeChildAt (last rowp 0)) h (removelast rowp))
           (removelast rowp)
    = Some (Element (attrs parent) (content parent) (before ++ after)) /\
    (forall q, apart q (removelast rowp) ->
               lookup (modify (removeChildAt (last rowp 0)) h (removelast rowp)) q
               = lookup h q).
Proof.
  intros Hrow Hne.
  rewrite <- (removelast_last rowp Hne) in Hrow at 1.
  rewrite lookup_app in Hrow.
  destruct (lookup h (removelast rowp)) as [parent|] eqn:Ep; [|discriminate].
  cbn [lookup] in Hrow.
  destruct (nth_error (children parent) (last rowp 0)) as [c|] eqn:Ec;
    [|discriminate].
  injection Hrow as ->.
  destruct (removeNth_split _ _ _ Ec) as (before & after & Hch & Hlen & Hrm).
  exists parent, before, after.
  split; [reflexivity|]. split; [assumption|]. split; [assumption|]. split.
  - rewrite (lookup_modify_same _ _ _ _ Ep). unfold removeChildAt.
    now rewrite Hrm.
  - intros q (common & i & j & q' & p' & -> & Hp & Hij). rewrite Hp.
    apply lookup_modify_apart. congruence.
Qed.

(** (C7) A [delete] click whose control sits in a row of the control's
    class takes that row, and no other, out of its parent and then, in the
    same run, calls [_onSubmit] once, on the form without the row; the
    handler ends the way that call ends.  A [create] click never calls
    it. *)
Theorem delete_commits (outcome : Event -> node -> result unit)
    (control : string) (event : Event) (s : sheet)
    (a : node) (r : result unit) (s' : sheet) :
  lookup (html s) (currentTarget event) = Some a ->
  onClickControlGenerator outcome control event s = (r, s') ->
  (dataset_action (attrs a) = Some "delete" ->
   forall rowp,
     closest (html s) (currentTarget event) (Class control) = Some rowp ->
     rowp <> [] ->
     deleted outcome event s rowp r s') /\
  (dataset_action (attrs a) = Some "create" ->
   submissions (trace s') = submissions (trace s) /\
   forall form, ~ In (Submit form) (skipn (List.length (trace s)) (trace s'))).
Proof.
  intros Ha Hrun. split.
  - intros Hact rowp Hrow Hne.
    rewrite (delete_row_eq _ _ _ _ _ _ Ha Hact Hrow Hne) in Hrun.
    injection Hrun as <- <-. cbn [html trace].
    destruct (closest_Some _ _ _ _ Hrow) as (row & Hlook & _).
    destruct (detached _ _ _ Hlook Hne)
      as (parent & before & after & Hp & Hch & Hlen & Hp' & Hframe).
    exists parent, row, before, after,
      (Element (attrs parent) (content parent) (before ++ after)).
    cbn [html trace attrs content children].
    repeat split; auto.
    unfold submissions. rewrite filter_app, length_app. simpl. lia.
  - intros Hact.
    pose proof (create_trace _ _ _ _ _ _ _ Ha Hact Hrun) as Htrace.
    split; [rewrite Htrace; apply submissions_prevented|].
    intros form. rewrite Htrace, skipn_app, Nat.sub_diag, skipn_all.
    simpl. intros [H|H]; [discriminate | assumption].
Qed.

Lemma delete_commits_witness :
  lookup (html Sample.twoRowSheet) (currentTarget Sample.clickFirstDelete)
    = Some (Sample.control "skill-control" "delete") /\
  onClickControlGenerator Sample.hostFulfils "skill" Sample.clickFirstDelete
    Sample.twoRowSheet
    = (Ok tt, Sample.firstRowDeletedSheet) /\
  closest (html Sample.twoRowSheet) (currentTarget Sample.clickFirstDelete)
    (Class "skill") = Some [0; 2; 0] /\
  deleted Sample.hostFulfils Sample.clickFirstDelete Sample.twoRowSheet
    [0; 2; 0] (Ok tt) Sample.firstRowDeletedSheet.
Proof.
  split; [reflexivity|]. split; [reflexivity|]. split; [reflexivity|].
  apply (proj1 (delete_commits Sample.hostFulfils "skill"
                  Sample.clickFirstDelete Sample.twoRowSheet
                  (Sample.control "skill-control" "delete") (Ok tt)
                  Sample.firstRowDeletedSheet eq_refl eq_refl)).
  - reflexivity.
  - reflexivity.
  - discriminate.
Defined.

End RowLifecycle.

(** ** Rebinding the fields of a row *)

Module Rebinding.
Import Js Dom Sheet Merge Rebind DomFacts.

Lemma rebinder_eq (c : collection) (event : Event) :
  rebinder c event =
  (preventDefault event ;;
   row <- closestOf (currentTarget event) (rowClass c) ;;
   assignAll row (pathPrefix c) (currentTarget event) (fields c)).
Proof. destruct c; reflexivity. Qed.

Ltac unfold_assign :=
  cbv beta iota delta
    [assignName fieldPath valueOf childOf bindM update deref ret throw];
  cbn [html trace fst snd].

Ltac crunch :=
  repeat (progress (cbv beta iota; cbn [html trace fst snd option_map])
          || match goal with
             | H : ?x = _ |- context [?x] => rewrite H
             end).

(** One assignment: it needs the field and the value of the input, and
    renames the field. *)
Lemma assignName_eq (rowp : path) (i j : nat) (prefix suffix : string)
    (input : path) (s : sheet) :
  assignName (Some rowp) i j (fieldPath prefix input suffix) s =
  match lookup (html s) (rowp ++ [i; j]), valueAt (html s) input with
  | Some _, Some v =>
      (Ok tt,
       {| html := modify (withName (prefix ++ v ++ suffix)) (html s) (rowp ++ [i; j]);
          trace := trace s |})
  | _, _ => (Throw TypeError, s)
  end.
Proof.
  replace (rowp ++ [i; j]) with ((rowp ++ [i]) ++ [j])
    by now rewrite <- app_assoc.
  rewrite !lookup_app. unfold valueAt.
  destruct (lookup (html s) rowp) as [r|] eqn:Er.
  2: { unfold_assign. crunch. reflexivity. }
  cbn [lookup].
  destruct (nth_error (children r) i) as [cell|] eqn:Ecell.
  2: { unfold_assign. crunch. reflexivity. }
  assert (Hcell : lookup (html s) (rowp ++ [i]) = Some cell).
  { rewrite lookup_app, Er. simpl. now rewrite Ecell. }
  destruct (nth_error (children cell) j) as [f|] eqn:Ef.
  2: { unfold_assign. crunch.
       destruct (lookup (html s) input); crunch; reflexivity. }
  assert (Hf : lookup (html s) ((rowp ++ [i]) ++ [j]) = Some f).
  { rewrite lookup_app, Hcell. simpl. now rewrite Ef. }
  destruct (lookup (html s) input) as [e|] eqn:Ee;
    unfold_assign; crunch; reflexivity.
Qed.

Lemma assignName_None (i j : nat) (rhs : M string) (s : sheet) :
  assignName None i j rhs s = (Throw TypeError, s).
Proof. reflexivity. Qed.

Lemma assignAll_cons (row : option path) (prefix : string) (input : path)
    (x : nat * nat * string) (rest : list (nat * nat * string)) (s : sheet) :
  assignAll row prefix input (x :: rest) s =
  (assignName row (fst (fst x)) (snd (fst x)) (fieldPath prefix input (snd x)) ;;
   assignAll row prefix input rest) s.
Proof.
  destruct x as [[i j] suffix]. destruct rest; [|reflexivity].
  cbn [assignAll fst snd]. unfold bindM, ret.
  destruct (assignName row i j (fieldPath prefix input suffix) s)
    as [[[]|e] s1]; reflexivity.
Qed.

Lemma fieldAt_inj (rowp : path) (x y : nat * nat * string) :
  fieldAt rowp x = fieldAt rowp y -> fst x = fst y.
Proof.
  unfold fieldAt. intros H. apply app_inv_head in H.
  destruct x as [[i j] sx], y as [[i' j'] sy]. simpl in *. congruence.
Qed.

(** What a completed run of the assignments leaves: the same trace and
    values, the names outside the positions as they were, each position
    renamed, and the form untouched when the names were already those. *)
Lemma assignAll_Ok (rowp : path) (prefix : string) (input : path) (v : string)
    (positions : list (nat * nat * string)) (s s' : sheet) :
  valueAt (html s) input = Some v ->
  assignAll (Some rowp) prefix input positions s = (Ok tt, s') ->
  trace s' = trace s /\
  (forall q, valueAt (html s') q = valueAt (html s) q) /\
  (forall q, (forall x, In x positions -> q <> fieldAt rowp x) ->
             nameAt (html s') q = nameAt (html s) q) /\
  (NoDup (map fst positions) ->
   forall x, In x positions ->
             nameAt (html s') (fieldAt rowp x) = Some (prefix ++ v ++ snd x)%string) /\
  ((forall x, In x positions ->
              nameAt (html s) (fieldAt rowp x) = Some (prefix ++ v ++ snd x)%string) ->
   html s' = html s).
Proof.
  revert s. induction positions as [|x rest IH]; intros s Hv Hrun.
  - injection Hrun as <-. repeat split; auto. intros _ x [].
  - rewrite assignAll_cons in Hrun. unfold bindM in Hrun.
    rewrite assignName_eq, Hv in Hrun.
    destruct x as [[i j] suffix]. cbn [fst snd] in Hrun.
    destruct (lookup (html s) (rowp ++ [i; j])) as [f|] eqn:Ef;
      [|discriminate].
    set (s1 := {| html := modify (withName (prefix ++ v ++ suffix)) (html s)
                            (rowp ++ [i; j]);
                  trace := trace s |}) in Hrun.
    assert (Hv1 : valueAt (html s1) input = Some v)
      by (unfold s1; cbn [html]; now rewrite valueAt_rename).
    destruct (IH s1 Hv1 Hrun) as (Htrace & Hvalue & Hframe & Hnames & Hsame).
    split; [exact Htrace|]. split; [|split; [|split]].
    + intros q. rewrite Hvalue. unfold s1. cbn [html]. apply valueAt_rename.
    + intros q Hq. rewrite Hframe by (intros; apply Hq; now right).
      unfold s1. cbn [html]. apply nameAt_rename_other.
      apply (Hq (i, j, suffix)). now left.
    + intros Hnd y Hy. inversion Hnd as [|? ? Hnotin Hnd']; subst.
      destruct Hy as [<-|Hy]; [|now apply Hnames].
      rewrite Hframe.
      * unfold s1, fieldAt. cbn [html fst snd].
        apply nameAt_rename_same. congruence.
      * intros y Hy E. apply Hnotin. apply fieldAt_inj in E.
        cbn [fst] in E. rewrite E. now apply in_map.
    + intros Hold.
      assert (H1 : html s1 = html s).
      { unfold s1. cbn [html]. apply modify_fixed. intros n Hn.
        apply withName_same.
        specialize (Hold (i, j, suffix) (or_introl eq_refl)).
        unfold nameAt, fieldAt in Hold. cbn [fst snd] in Hold.
        rewrite Hn in Hold. now injection Hold. }
      rewrite <- H1. apply Hsame. intros y Hy. rewrite H1. apply Hold. now right.
Qed.

Lemma fields_NoDup (c : collection) : NoDup (map fst (fields c)).
Proof.
  destruct c; simpl; repeat constructor; simpl; intuition discriminate.
Qed.

(** (C5, as amended) Each of the three blur handlers rewrites the path of
    every field position of its row to prefix, value and suffix, whatever
    the value is: with an unchanged name, one the paths of the row already
    encode, the form is left as it was; with an empty name the paths are
    written with an empty key segment, as in [data.skills..stat]. *)
Theorem rebinder_rewrites (c : collection) (event : Event) (s s' : sheet) :
  rebinder c event s = (Ok tt, s') ->
  rebound c event s s'.
Proof.
  rewrite rebinder_eq. unfold bindM, preventDefault, emit, closestOf.
  cbn [html trace]. intros Hrun.
  set (s0 := {| html := html s; trace := trace s ++ [PreventDefault] |}) in Hrun.
  destruct (fields c) as [|x rest] eqn:Efields; [destruct c; discriminate|].
  destruct (closest (html s) (currentTarget event) (rowClass c)) as [rowp|] eqn:Erow.
  2: { rewrite assignAll_cons in Hrun. unfold bindM in Hrun.
       rewrite assignName_None in Hrun. discriminate. }
  destruct (valueAt (html s) (currentTarget event)) as [v|] eqn:Ev.
  2: { rewrite assignAll_cons in Hrun. unfold bindM in Hrun.
       rewrite assignName_eq in Hrun. unfold s0 in Hrun. cbn [html] in Hrun.
       rewrite Ev in Hrun.
       destruct (lookup (html s) (rowp ++ [fst (fst x); snd (fst x)]));
         discriminate. }
  assert (Hv0 : valueAt (html s0) (currentTarget event) = Some v) by exact Ev.
  destruct (assignAll_Ok _ _ _ _ _ _ _ Hv0 Hrun)
    as (Htrace & _ & _ & Hnames & Hsame).
  exists rowp, v. rewrite <- Efields in *.
  split; [exact Erow|]. split; [exact Ev|]. split; [|split].
  - apply Hnames. apply fields_NoDup.
  - exact Hsame.
  - exact Htrace.
Qed.

Lemma rebinder_rewrites_witness :
  onSkillNameChange Sample.blurFirstName Sample.untouchedSheet
    = (Ok tt, Sample.blurredSheet) /\
  rebound Skills Sample.blurFirstName Sample.untouchedSheet Sample.blurredSheet.
Proof.
  split; [reflexivity|].
  apply (rebinder_rewrites Skills Sample.blurFirstName Sample.untouchedSheet).
  reflexivity.
Defined.

(** (C5, as stated) The name field of the skill [Climbing] is cleared and
    loses focus: the handler completes, and the path of the stat field,
    which encoded [Climbing], now has an empty key segment. *)
Lemma rebinder_rewrites_counterexample :
  exists s',
    onSkillNameChange Sample.blurFirstName Sample.clearedSheet = (Ok tt, s') /\
    valueAt (html Sample.clearedSheet) (currentTarget Sample.blurFirstName)
      = Some "" /\
    nameAt (html Sample.clearedSheet) [0; 2; 0; 1; 0]
      = Some "data.skills.Climbing.stat" /\
    nameAt (html s') [0; 2; 0; 1; 0] = Some "data.skills..stat" /\
    html s' <> html Sample.clearedSheet.
Proof.
  exists (snd (onSkillNameChange Sample.blurFirstName Sample.clearedSheet)).
  split; [reflexivity|]. split; [reflexivity|].
  split; [reflexivity|]. split; [reflexivity|].
  intros H. apply (f_equal (fun h => nameAt h [0; 2; 0; 1; 0])) in H.
  discriminate.
Qed.

End Rebinding.

(** ** Trimming *)

Module TrimFacts.
Import Js.

(** A string that is empty or starts with a code unit [trim] keeps. *)
Definition startsClean (s : string) : Prop :=
  match s with
  | EmptyString => True
  | String c _ => isWhiteSpace c = false
  end.

Lemma trimStart_clean (s : string) : startsClean (trimStart s).
Proof.
  induction s as [|c s IH]; simpl; auto.
  destruct (isWhiteSpace c) eqn:E; simpl; auto.
Qed.

Lemma trimStart_of_clean (s : string) : startsClean s -> trimStart s = s.
Proof. destruct s as [|c s]; simpl; auto. now intros ->. Qed.

Lemma trimEnd_clean (s : string) : startsClean s -> startsClean (trimEnd s).
Proof.
  destruct s as [|c s]; simpl; auto. intros Hc.
  destruct (trimEnd s); simpl; rewrite ?Hc; auto.
Qed.

Lemma trimEnd_cons (c : ascii) (s : string) :
  trimEnd (String c s) =
  match trimEnd s with
  | EmptyString => if isWhiteSpace c then EmptyString else String c EmptyString
  | t => String c t
  end.
Proof. reflexivity. Qed.

Lemma trimEnd_idempotent (s : string) : trimEnd (trimEnd s) = trimEnd s.
Proof.
  induction s as [|c s IH]; [reflexivity|].
  rewrite trimEnd_cons.
  destruct (trimEnd s) as [|d u] eqn:E.
  - destruct (isWhiteSpace c) eqn:Ec; [reflexivity|].
    rewrite trimEnd_cons. cbn [trimEnd]. now rewrite Ec.
  - rewrite trimEnd_cons, IH. reflexivity.
Qed.

Lemma trim_idempotent (s : string) : trim (trim s) = trim s.
Proof.
  unfold trim.
  rewrite (trimStart_of_clean (trimEnd (trimStart s))).
  - apply trimEnd_idempotent.
  - apply trimEnd_clean, trimStart_clean.
Qed.

(** *** What [trim] takes off *)

Lemma trimStart_split (s : string) :
  exists a, s = (a ++ trimStart s)%string /\ Merge.blank a.
Proof.
  induction s as [|c s (a & IH & Ha)]; [now exists EmptyString|].
  simpl. destruct (isWhiteSpace c) eqn:Ec.
  - exists (String c a). simpl. split; [congruence | auto].
  - now exists EmptyString.
Qed.

Lemma trimEnd_split (s : string) :
  exists b, s = (trimEnd s ++ b)%string /\ Merge.blank b.
Proof.
  induction s as [|c s (b & IH & Hb)]; [now exists EmptyString|].
  rewrite trimEnd_cons. destruct (trimEnd s) as [|d t] eqn:E.
  - simpl in IH. subst s. destruct (isWhiteSpace c) eqn:Ec.
    + exists (String c b). simpl. auto.
    + exists b. simpl. auto.
  - exists b. split; [|assumption]. cbn [append] in IH |- *. congruence.
Qed.

Lemma trimEnd_ends_clean (s rest : string) (c : ascii) :
  trimEnd s = (rest ++ String c EmptyString)%string -> isWhiteSpace c = false.
Proof.
  revert rest. induction s as [|a s IH]; intros rest.
  - destruct rest; discriminate.
  - rewrite trimEnd_cons. destruct (trimEnd s) as [|d t] eqn:E.
    + destruct (isWhiteSpace a) eqn:Ea.
      * destruct rest; discriminate.
      * destruct rest as [|a' rest]; simpl.
        -- intros [= <-]. assumption.
        -- intros [= _ H]. destruct rest; discriminate.
    + destruct rest as [|a' rest]; simpl; [discriminate|].
      intros [= _ H]. now apply (IH rest).
Qed.

Lemma trim_edgeless (s : string) : Merge.edgeless (trim s).
Proof.
  intros c rest [H|H].
  - pose proof (trimEnd_clean _ (trimStart_clean s)) as Hclean.
    fold (trim s) in Hclean. rewrite H in Hclean. exact Hclean.
  - exact (trimEnd_ends_clean _ _ _ H).
Qed.

(** [trim s] is [s] without the white space at its two ends. *)
Lemma trim_strippedTo (s : string) : Merge.strippedTo s (trim s).
Proof.
  destruct (trimStart_split s) as (a & Hs & Ha).
  destruct (trimEnd_split (trimStart s)) as (b & Ht & Hb).
  exists a, b. fold (trim s) in Ht.
  split; [congruence|]. split; [assumption|]. split; [assumption|].
  apply trim_edgeless.
Qed.

Lemma trimStart_blank (a s : string) :
  Merge.blank a -> trimStart (a ++ s) = trimStart s.
Proof.
  induction a as [|c a IH]; simpl; [reflexivity|].
  intros [-> Ha]. now apply IH.
Qed.

Lemma trimStart_all_blank (b : string) : Merge.blank b -> trimStart b = EmptyString.
Proof.
  induction b as [|c b IH]; simpl; [reflexivity|].
  intros [-> Hb]. now apply IH.
Qed.

Lemma trimEnd_all_blank (b : string) : Merge.blank b -> trimEnd b = EmptyString.
Proof.
  induction b as [|c b IH]; [reflexivity|].
  intros [Hc Hb]. rewrite trimEnd_cons, (IH Hb). now rewrite Hc.
Qed.

Lemma trimEnd_app_blank (k b : string) :
  Merge.blank b -> trimEnd (k ++ b) = trimEnd k.
Proof.
  intros Hb. induction k as [|c k IH]; [now apply trimEnd_all_blank|].
  cbn [append]. now rewrite !trimEnd_cons, IH.
Qed.

Lemma trimEnd_of_clean (k : string) :
  (forall rest c, k = (rest ++ String c EmptyString)%string ->
                  isWhiteSpace c = false) ->
  trimEnd k = k.
Proof.
  induction k as [|c k IH]; intros H; [reflexivity|].
  rewrite trimEnd_cons, IH.
  - destruct k as [|d k]; [|reflexivity].
    now rewrite (H EmptyString c eq_refl).
  - intros rest c0 E. apply (H (String c rest) c0). simpl. now rewrite E.
Qed.

(** Nothing else is. *)
Lemma strippedTo_trim (s k : string) : Merge.strippedTo s k -> k = trim s.
Proof.
  intros (a & b & -> & Ha & Hb & Hk). unfold trim.
  rewrite (trimStart_blank _ _ Ha).
  destruct k as [|c k].
  - simpl. now rewrite (trimStart_all_blank _ Hb).
  - assert (Hc : isWhiteSpace c = false) by (apply (Hk c k); now left).
    cbn [append trimStart]. rewrite Hc.
    change (String c (k ++ b)) with (String c k ++ b)%string.
    rewrite (trimEnd_app_blank _ _ Hb). symmetry. apply trimEnd_of_clean.
    intros rest c0 E. apply (Hk c0 rest). now right.
Qed.

End TrimFacts.

(** ** More about the submission *)

Module SubmissionMore.
Import Js Sheet Merge JsFacts MergeFacts TrimFacts.

Lemma members_app (v : val) (l1 l2 : list string) :
  members v (l1 ++ l2) = let* x := members v l1 in members x l2.
Proof.
  revert v. induction l1 as [|k l1 IH]; intros v; [reflexivity|].
  cbn [members app]. destruct (member v k); cbn [bind]; auto.
Qed.

Lemma member_nullish (v : val) (k : string) :
  v = VUndefined \/ v = VNull -> member v k = Throw TypeError.
Proof. intros [-> | ->]; reflexivity. Qed.

Lemma Object_keys_nullish (v : val) :
  v = VUndefined \/ v = VNull -> Object_keys v = Throw TypeError.
Proof. intros [-> | ->]; reflexivity. Qed.

Lemma keyedObject_Throw_result (expandObject : object -> val) (this_object : Actor)
    (event : Event) (formData : object) (c : collection) (e : error) :
  keyedObject c (expandObject formData) = Throw e ->
  _updateObject expandObject this_object event formData = Throw TypeError.
Proof.
  intros Hk. apply _updateObject_fails. intros patch H.
  destruct (finished_patch _ _ _ _ _ c H) as (m & _ & _ & Hm & _). congruence.
Qed.

Lemma currentKeys_Throw_result (expandObject : object -> val)
    (this_object : Actor) (event : Event) (formData : object) (c : collection)
    (e : error) :
  currentKeys c this_object = Throw e ->
  _updateObject expandObject this_object event formData = Throw TypeError.
Proof.
  intros Hk. apply _updateObject_fails. intros patch H.
  destruct (finished_patch _ _ _ _ _ c H) as (_ & ks & _ & _ & Hks & _).
  congruence.
Qed.

(** (X1) A form whose expansion has no [data] object - it is [undefined] or
    [null] there - cannot be submitted: [_updateObject] throws a
    [TypeError] on the first read of [fd.data.skills]. *)
Theorem submit_needs_form_data
    (expandObject : object -> val) (this_object : Actor) (event : Event)
    (formData : object) (d : val) :
  member (expandObject formData) "data" = Ok d ->
  d = VUndefined \/ d = VNull ->
  _updateObject expandObject this_object event formData = Throw TypeError.
Proof.
  intros Hd Hnull.
  apply (keyedObject_Throw_result _ _ _ _ Skills TypeError).
  unfold keyedObject, rows, submitted. cbn [members bind]. rewrite Hd. cbn [bind].
  now rewrite (member_nullish _ _ Hnull).
Qed.

Lemma submit_needs_form_data_witness :
  member (Sample.expandObject MoreSample.nameOnlyForm) "data" = Ok VUndefined /\
  _updateObject Sample.expandObject Sample.actor Sample.event
    MoreSample.nameOnlyForm = Throw TypeError.
Proof.
  split; [reflexivity|].
  apply (submit_needs_form_data Sample.expandObject Sample.actor Sample.event
           MoreSample.nameOnlyForm VUndefined).
  - reflexivity.
  - now left.
Defined.

(** (X2) The form side defaults a missing collection to [{}], the actor
    side does not: when the actor has no [equipment], or any of its three
    collections is [undefined] or [null], [_updateObject] throws a
    [TypeError] whatever the form holds. *)
Theorem submit_needs_actor_collections
    (expandObject : object -> val) (this_object : Actor) (event : Event)
    (formData : object) :
  (forall v,
      members (data this_object) ["data"; "equipment"] = Ok v ->
      v = VUndefined \/ v = VNull ->
      _updateObject expandObject this_object event formData = Throw TypeError) /\
  (forall c v,
      persisted c this_object = Ok v ->
      v = VUndefined \/ v = VNull ->
      _updateObject expandObject this_object event formData = Throw TypeError).
Proof.
  split.
  - intros v Hv Hnull.
    apply (currentKeys_Throw_result _ _ _ _ Weapons TypeError).
    unfold currentKeys, persisted.
    change ["data"; "equipment"; "weapons"] with (["data"; "equipment"] ++ ["weapons"]).
    rewrite members_app, Hv. cbn [bind members].
    now rewrite (member_nullish _ _ Hnull).
  - intros c v Hv Hnull.
    apply (currentKeys_Throw_result _ _ _ _ c TypeError).
    unfold currentKeys. rewrite Hv. cbn [bind].
    now apply Object_keys_nullish.
Qed.

Lemma submit_needs_actor_collections_witness :
  members (data MoreSample.actorNoEquipment) ["data"; "equipment"]
    = Ok VUndefined /\
  _updateObject Sample.expandObject MoreSample.actorNoEquipment Sample.event
    Sample.unchangedForm = Throw TypeError.
Proof.
  split; [reflexivity|].
  apply (proj1 (submit_needs_actor_collections Sample.expandObject
                  MoreSample.actorNoEquipment Sample.event
                  Sample.unchangedForm) VUndefined).
  - reflexivity.
  - now left.
Defined.

(** A row leaves an entry under its key, [__proto__] apart, whatever rows
    follow it. *)
Lemma keyedFrom_get_some (l : list val) (i m : built) (r : val) (k : string) :
  reduce formDataReduceFunction l i = Ok m ->
  In r l -> rowKey r = Ok k -> k <> "__proto__" ->
  get (own m) k <> None.
Proof.
  intros H Hin Hk Hp.
  destruct (in_split _ _ Hin) as (l1 & l2 & ->).
  rewrite reduce_app in H.
  destruct (reduce formDataReduceFunction l1 i) as [m1|]; cbn [bind] in H;
    [|discriminate].
  rewrite keyedFrom_cons, Hk in H. cbn [bind] in H.
  assert (Hhere : get (own (set m1 k r)) k <> None)
    by (rewrite get_set_same by assumption; discriminate).
  clear Hin. revert H Hhere. generalize (set m1 k r). clear m1.
  induction l2 as [|x l2 IH]; intros b H Hb.
  - now injection H as <-.
  - rewrite keyedFrom_cons in H.
    destruct (rowKey x) as [kx|]; cbn [bind] in H; [|discriminate].
    apply (IH _ H). now apply get_set_keeps.
Qed.

(** The submit handler returns exactly when the rows and the held keys
    can be read and, for every collection of which the actor holds a
    non-empty key, the keyed map still inherits [hasOwnProperty]. *)
Lemma _updateObject_returns_iff
    (expandObject : object -> val) (this_object : Actor) (event : Event)
    (formData : object) :
  (exists patch,
      _updateObject expandObject this_object event formData = Ok patch) <->
  (forall c, exists m ks,
      keyedObject c (expandObject formData) = Ok m /\
      currentKeys c this_object = Ok ks /\
      ((forall k, In k ks -> k = "") \/ inheritsHasOwnProperty m = true)).
Proof.
  split.
  - intros (patch & H) c.
    destruct (finished_patch _ _ _ _ _ c H) as (m & ks & m' & Hm & Hks & Hloop & _).
    exists m, ks. repeat split; auto.
    apply removeUnused_Ok_iff. eauto.
  - intros Hall. rewrite _updateObject_eq. cbv zeta.
    destruct (Hall Skills) as (s & ks & -> & -> & Hs).
    destruct (Hall Weapons) as (w & kw & -> & -> & Hw).
    destruct (Hall Abilities) as (a & ka & -> & -> & Ha).
    apply removeUnused_Ok_iff in Hs as (s' & ->).
    apply removeUnused_Ok_iff in Hw as (w' & ->).
    apply removeUnused_Ok_iff in Ha as (a' & ->).
    eauto.
Qed.

(** Without a row named [__proto__], the keyed map inherits
    [hasOwnProperty] unless a row is named like the method. *)
Lemma inherits_iff (rs : list val) (m : built) :
  reduce formDataReduceFunction rs (literal []) = Ok m ->
  (forall r, In r rs -> rowKey r <> Ok "__proto__") ->
  (inheritsHasOwnProperty m = true <->
   forall r, In r rs -> rowKey r <> Ok "hasOwnProperty").
Proof.
  intros Hred Hplain.
  unfold inheritsHasOwnProperty.
  rewrite (keyedFrom_proto_skip _ _ _ Hred Hplain). cbn [literal proto].
  rewrite andb_true_r, negb_true_iff, has_false. split.
  - intros Hnone r Hin Hk.
    apply (keyedFrom_get_some _ _ _ _ _ Hred Hin Hk); [discriminate | assumption].
  - intros Hskip. now rewrite (keyedFrom_get_skip _ _ _ _ Hred Hskip).
Qed.

(** (X3) For a submission without a row named [__proto__],
    [_updateObject] returns a patch exactly when the rows of the three
    collections can be read from the expanded form and each is an object
    with a string [name], the keys of the three collections can be read
    from the actor, and no collection of which the actor holds a non-empty
    key has a row named [hasOwnProperty]. *)
Theorem submit_returns_iff
    (expandObject : object -> val) (this_object : Actor) (event : Event)
    (formData : object) :
  (forall c rs r,
      rows c (expandObject formData) = Ok rs -> In r rs ->
      rowKey r <> Ok "__proto__") ->
  ((exists patch,
       _updateObject expandObject this_object event formData = Ok patch) <->
   (forall c, exists rs,
       rows c (expandObject formData) = Ok rs /\ Forall hasStringName rs) /\
   (forall c, exists ks, currentKeys c this_object = Ok ks) /\
   (forall c rs ks k r,
       rows c (expandObject formData) = Ok rs ->
       currentKeys c this_object = Ok ks ->
       In k ks -> k <> "" -> In r rs ->
       rowKey r <> Ok "hasOwnProperty")).
Proof.
  intros Hplain. rewrite _updateObject_returns_iff. split.
  - intros Hall. split; [|split].
    + intros c. destruct (Hall c) as (m & ks & Hm & _ & _).
      destruct (keyedObject_rows _ _ _ Hm) as (rs & Hrs & Hred).
      exists rs. split; [assumption|]. exact (keyedFrom_Ok_rows _ _ _ Hred).
    + intros c. destruct (Hall c) as (m & ks & _ & Hks & _). eauto.
    + intros c rs ks k r Hrs Hks Hk Hne Hr.
      destruct (Hall c) as (m & ks' & Hm & Hks' & Hcall).
      rewrite Hks in Hks'. injection Hks' as <-.
      destruct (keyedObject_rows _ _ _ Hm) as (rs' & Hrs' & Hred).
      rewrite Hrs in Hrs'. injection Hrs' as <-.
      destruct Hcall as [Hempty|Hinh]; [now contradiction Hne; apply Hempty|].
      exact (proj1 (inherits_iff _ _ Hred (fun r => Hplain c rs r Hrs)) Hinh r Hr).
  - intros (Hrows & Hkeys & Hmethod) c.
    destruct (Hrows c) as (rs & Hrs & Hnames).
    destruct (Hkeys c) as (ks & Hks).
    destruct (keyedFrom_total rs (literal []) Hnames) as (m & Hred).
    exists m, ks. split; [unfold keyedObject; now rewrite Hrs|].
    split; [assumption|].
    destruct (forallb (fun k => negb (nonEmpty k)) ks) eqn:E.
    + left. intros k Hk. rewrite forallb_forall in E.
      specialize (E k Hk). destruct k; [reflexivity | discriminate].
    + right. apply (proj2 (inherits_iff _ _ Hred (fun r => Hplain c rs r Hrs))).
      assert (Hex : exists k, In k ks /\ k <> "").
      { destruct (forallb_forall (fun k => negb (nonEmpty k)) ks) as [_ Hfb].
        destruct (existsb nonEmpty ks) eqn:Ex.
        - apply existsb_exists in Ex as (k & Hk & Hne).
          exists k. split; [assumption|]. now apply nonEmpty_true.
        - rewrite Hfb in E; [discriminate|].
          intros k Hk. destruct (nonEmpty k) eqn:Hne; [|reflexivity].
          assert (existsb nonEmpty ks = true)
            by (apply existsb_exists; eauto).
          congruence. }
      destruct Hex as (k & Hk & Hne).
      intros r Hr. exact (Hmethod c rs ks k r Hrs Hks Hk Hne Hr).
Qed.

Lemma submit_returns_iff_witness :
  (forall c rs r,
      rows c (Sample.expandObject Sample.unchangedForm) = Ok rs -> In r rs ->
      rowKey r <> Ok "__proto__") /\
  (exists patch,
      _updateObject Sample.expandObject Sample.actor Sample.event
        Sample.unchangedForm = Ok patch) /\
  forall c rs ks k r,
    rows c (Sample.expandObject Sample.unchangedForm) = Ok rs ->
    currentKeys c Sample.actor = Ok ks ->
    In k ks -> k <> "" -> In r rs ->
    rowKey r <> Ok "hasOwnProperty".
Proof.
  assert (Hplain : forall c rs r,
             rows c (Sample.expandObject Sample.unchangedForm) = Ok rs ->
             In r rs -> rowKey r <> Ok "__proto__").
  { intros c rs r Hrs Hin.
    destruct c; vm_compute in Hrs; injection Hrs as <-; simpl in Hin;
      repeat (destruct Hin as [<-|Hin]; [discriminate|]); contradiction. }
  split; [exact Hplain|].
  split; [exists Sample.unchangedPatch; reflexivity|].
  apply (proj1 (submit_returns_iff Sample.expandObject Sample.actor
                  Sample.event Sample.unchangedForm Hplain)).
  exists Sample.unchangedPatch. reflexivity.
Defined.

(** (X4) Nothing in a finished map is invented: each of its entries is
    either a row of the submission, kept as submitted and filed under its
    own trimmed name, or [null] under the sentinel of a non-empty key the
    actor holds. *)
Theorem finished_entries_come_from_rows
    (expandObject : object -> val) (this_object : Actor) (event : Event)
    (formData patch : object) (c : collection) (m : object) (k : string)
    (v : val) :
  _updateObject expandObject this_object event formData = Ok patch ->
  finished patch c = Some m ->
  get m k = Some v ->
  exists rs ks,
    rows c (expandObject formData) = Ok rs /\
    currentKeys c this_object = Ok ks /\
    ((In v rs /\ rowKey v = Ok k /\ k = trim (nameOf v)) \/
     (v = VNull /\ exists k', k = sentinel k' /\ In k' ks /\ k' <> "")).
Proof.
  intros H Hm Hget.
  destruct (finished_patch _ _ _ _ _ c H) as (s & ks & m' & Hs & Hks & Hloop & Hm').
  rewrite Hm in Hm'. injection Hm' as ->.
  destruct (keyedObject_rows _ _ _ Hs) as (rs & Hrs & Hred).
  exists rs, ks. split; [assumption|]. split; [assumption|].
  destruct (removeUnused_get_inv _ _ _ _ _ Hloop Hget)
    as [Hkeyed|(-> & k' & -> & Hin & Hne & _)].
  - left. destruct (keyedFrom_get_inv _ _ _ _ _ Hred Hkeyed) as [Hnil|[Hin Hk]];
      [discriminate|].
    repeat split; auto. now apply rowKey_nameOf.
  - right. split; [reflexivity|]. exists k'. auto.
Qed.

Lemma finished_entries_come_from_rows_witness :
  _updateObject Sample.expandObject Sample.actor Sample.event Sample.renameForm
    = Ok Sample.renamePatch /\
  exists rs ks,
    rows Skills (Sample.expandObject Sample.renameForm) = Ok rs /\
    currentKeys Skills Sample.actor = Ok ks /\
    ((In (Sample.entity [("name", " Climb "); ("stat", "Speed")]) rs /\
      rowKey (Sample.entity [("name", " Climb "); ("stat", "Speed")]) = Ok "Climb" /\
      "Climb" = trim (nameOf (Sample.entity [("name", " Climb "); ("stat", "Speed")]))) \/
     (Sample.entity [("name", " Climb "); ("stat", "Speed")] = VNull /\
      exists k', "Climb" = sentinel k' /\ In k' ks /\ k' <> "")).
Proof.
  split; [reflexivity|].
  apply (finished_entries_come_from_rows Sample.expandObject Sample.actor
           Sample.event Sample.renameForm Sample.renamePatch Skills
           [("Climb", Sample.entity [("name", " Climb "); ("stat", "Speed")]);
            ("-=Climbing", VNull)]
           "Climb").
  - reflexivity.
  - reflexivity.
  - reflexivity.
Defined.

(** (X5) A row can lose against a sentinel.  When a row is named like the
    sentinel of a non-empty key the actor holds, and that key has no row of
    its own, the deletion loop overwrites the row: the finished map binds
    the sentinel to [null] and holds the row under no key. *)
Theorem sentinel_overwrites_row
    (expandObject : object -> val) (this_object : Actor) (event : Event)
    (formData patch : object) (c : collection) (rs : list val) (r : val)
    (ks : list string) (K : string) :
  _updateObject expandObject this_object event formData = Ok patch ->
  rows c (expandObject formData) = Ok rs ->
  In r rs ->
  rowKey r = Ok (sentinel K) ->
  currentKeys c this_object = Ok ks ->
  In K ks -> K <> "" ->
  (forall r', In r' rs -> rowKey r' <> Ok K) ->
  (forall k', In k' ks -> K <> sentinel k') ->
  exists m,
    finished patch c = Some m /\
    get m (sentinel K) = Some VNull /\
    forall k, get m k <> Some r.
Proof.
  intros H Hrs Hin Hk Hks HK Hne Hnorow Hplain.
  destruct (finished_patch _ _ _ _ _ c H) as (s & ks' & m & Hs & Hks' & Hloop & Hm).
  rewrite Hks in Hks'. injection Hks' as <-.
  destruct (keyedObject_rows _ _ _ Hs) as (rs' & Hrs' & Hred).
  rewrite Hrs in Hrs'. injection Hrs' as <-.
  assert (Hnone : get (own s) K = None)
    by now rewrite (keyedFrom_get_skip _ _ _ _ Hred Hnorow).
  destruct (removeUnused_sentinel ks s m K Hloop HK Hne Hnone Hplain) as [Hsent _].
  exists (own m). split; [assumption|]. split; [assumption|].
  intros k Hget.
  assert (Hobj : r <> VNull).
  { apply rowKey_Ok in Hk as (o & n & -> & _). discriminate. }
  destruct (removeUnused_get_inv _ _ _ _ _ Hloop Hget) as [Hkeyed|[Hnull _]];
    [|contradiction].
  destruct (keyedFrom_get_inv _ _ _ _ _ Hred Hkeyed) as [Hnil|[_ Hk']];
    [discriminate|].
  rewrite Hk in Hk'. injection Hk' as <-. congruence.
Qed.

Lemma sentinel_overwrites_row_witness :
  _updateObject Sample.expandObject Sample.actor Sample.event
    MoreSample.dashRowForm = Ok MoreSample.dashRowPatch /\
  rows Skills (Sample.expandObject MoreSample.dashRowForm)
    = Ok [MoreSample.dashRow] /\
  currentKeys Skills Sample.actor = Ok ["Climbing"] /\
  exists m,
    finished MoreSample.dashRowPatch Skills = Some m /\
    get m (sentinel "Climbing") = Some VNull /\
    forall k, get m k <> Some MoreSample.dashRow.
Proof.
  split; [reflexivity|]. split; [reflexivity|]. split; [reflexivity|].
  apply (sentinel_overwrites_row Sample.expandObject Sample.actor Sample.event
           MoreSample.dashRowForm MoreSample.dashRowPatch Skills
           [MoreSample.dashRow] MoreSample.dashRow ["Climbing"] "Climbing").
  - reflexivity.
  - reflexivity.
  - now left.
  - reflexivity.
  - reflexivity.
  - now left.
  - discriminate.
  - intros r' [<-|[]]. discriminate.
  - intros k' [<-|[]]. discriminate.
Defined.

(** (X6) A submitted row reaches the patch under its trimmed name whenever
    that name is neither [__proto__] nor the sentinel of a key the actor
    holds: the finished map binds the key to the last row filed under
    it. *)
Theorem row_is_upserted
    (expandObject : object -> val) (this_object : Actor) (event : Event)
    (formData patch : object) (c : collection) (l1 l2 : list val) (r : val)
    (ks : list string) (k : string) :
  _updateObject expandObject this_object event formData = Ok patch ->
  rows c (expandObject formData) = Ok (l1 ++ r :: l2) ->
  rowKey r = Ok k ->
  k <> "__proto__" ->
  (forall r', In r' l2 -> rowKey r' <> Ok k) ->
  currentKeys c this_object = Ok ks ->
  (forall k', In k' ks -> k <> sentinel k') ->
  exists m, finished patch c = Some m /\ get m k = Some r.
Proof.
  intros H Hrs Hk Hproto Hlast Hks Hplain.
  destruct (finished_patch _ _ _ _ _ c H) as (s & ks' & m & Hs & Hks' & Hloop & Hm).
  rewrite Hks in Hks'. injection Hks' as <-.
  destruct (keyedObject_rows _ _ _ Hs) as (rs' & Hrs' & Hred).
  rewrite Hrs in Hrs'. injection Hrs' as <-.
  exists (own m). split; [assumption|].
  rewrite (removeUnused_get_other _ _ _ _ Hloop) by assumption.
  exact (keyedFrom_get_last _ _ _ _ _ _ Hred Hk Hproto Hlast).
Qed.

Lemma row_is_upserted_witness :
  _updateObject Sample.expandObject Sample.actor Sample.event Sample.renameForm
    = Ok Sample.renamePatch /\
  rows Skills (Sample.expandObject Sample.renameForm)
    = Ok [Sample.entity [("name", " Climb "); ("stat", "Speed")]] /\
  exists m,
    finished Sample.renamePatch Skills = Some m /\
    get m "Climb" = Some (Sample.entity [("name", " Climb "); ("stat", "Speed")]).
Proof.
  split; [reflexivity|]. split; [reflexivity|].
  apply (row_is_upserted Sample.expandObject Sample.actor Sample.event
           Sample.renameForm Sample.renamePatch Skills [] []
           (Sample.entity [("name", " Climb "); ("stat", "Speed")])
           ["Climbing"] "Climb").
  - reflexivity.
  - reflexivity.
  - reflexivity.
  - discriminate.
  - intros r' [].
  - reflexivity.
  - intros k' [<-|[]]. discriminate.
Defined.

(** (X7) Every key of a keyed map is trimmed: it has no white space at
    either end, whatever the names of the rows had. *)
Theorem keyed_keys_are_trimmed (c : collection) (fd : val) (m : object)
    (k : string) :
  keyed c fd = Ok m ->
  In k (map fst m) ->
  trim k = k.
Proof.
  intros Hs Hin.
  apply keyed_object in Hs as (b & Hb & ->).
  destruct (keyedObject_rows _ _ _ Hb) as (rs & _ & Hred).
  destruct (get (own b) k) as [v|] eqn:Hget.
  - destruct (keyedFrom_get_inv _ _ _ _ _ Hred Hget) as [Hnil|[_ Hk]];
      [discriminate|].
    apply rowKey_Ok in Hk as (o & n & _ & _ & ->). apply trim_idempotent.
  - apply get_None_iff in Hget. contradiction.
Qed.

Lemma keyed_keys_are_trimmed_witness :
  keyed Skills (Sample.expandObject Sample.renameForm)
    = Ok [("Climb", Sample.entity [("name", " Climb "); ("stat", "Speed")])] /\
  trim "Climb" = "Climb".
Proof.
  split; [reflexivity|].
  apply (keyed_keys_are_trimmed Skills (Sample.expandObject Sample.renameForm)
           [("Climb", Sample.entity [("name", " Climb "); ("stat", "Speed")])]).
  - reflexivity.
  - now left.
Defined.

(** With pairwise different keys, the keyed map holds exactly the rows,
    each under its key, a row named [__proto__] apart. *)
Lemma keyed_get_iff (rs : list val) (m : built) (k : string) (r : val) :
  reduce formDataReduceFunction rs (literal []) = Ok m ->
  NoDup (map rowKey rs) ->
  k <> "__proto__" ->
  (get (own m) k = Some r <-> In r rs /\ rowKey r = Ok k).
Proof.
  intros Hred Hnd Hproto. split.
  - intros Hget.
    destruct (keyedFrom_get_inv _ _ _ _ _ Hred Hget) as [Hnil|Hin];
      [discriminate | assumption].
  - intros [Hin Hk].
    destruct (in_split _ _ Hin) as (l1 & l2 & ->).
    apply (keyedFrom_get_last _ _ _ _ _ _ Hred Hk Hproto).
    intros r' Hr' E.
    rewrite map_app in Hnd. cbn [map] in Hnd.
    apply NoDup_remove_2 in Hnd. apply Hnd.
    apply in_or_app. right. rewrite Hk, <- E. now apply in_map.
Qed.

(** (X8) The order of the rows matters only between rows of the same key:
    two submissions whose rows for a collection are the same up to their
    order, with pairwise different trimmed names, give the same keyed map,
    key by key. *)
Theorem row_order_is_irrelevant (c : collection) (fd fd' : val)
    (rs rs' : list val) (m : object) :
  rows c fd = Ok rs ->
  rows c fd' = Ok rs' ->
  keyed c fd = Ok m ->
  Permutation rs rs' ->
  NoDup (map rowKey rs) ->
  exists m', keyed c fd' = Ok m' /\ forall k, get m k = get m' k.
Proof.
  intros Hrs Hrs' Hm Hperm Hnd.
  apply keyed_object in Hm as (b & Hb & ->).
  unfold keyedObject in Hb. rewrite Hrs in Hb. cbn [bind] in Hb.
  assert (Hall : Forall hasStringName rs') .
  { apply keyedFrom_Ok_rows in Hb. rewrite Forall_forall in *.
    intros r Hr. apply Hb. now apply (Permutation_in _ (Permutation_sym Hperm)). }
  destruct (keyedFrom_total rs' (literal []) Hall) as (b' & Hb').
  exists (own b'). split.
  { apply keyed_object. exists b'. split; [|reflexivity].
    unfold keyedObject. now rewrite Hrs'. }
  assert (Hnd' : NoDup (map rowKey rs')).
  { eapply Permutation_NoDup; [|exact Hnd]. now apply Permutation_map. }
  intros k.
  destruct (string_dec k "__proto__") as [->|Hproto].
  { now rewrite (keyedFrom_proto_once _ _ Hb Hnd),
                (keyedFrom_proto_once _ _ Hb' Hnd'). }
  destruct (get (own b) k) as [r|] eqn:E.
  - apply (keyed_get_iff _ _ _ _ Hb Hnd Hproto) in E as [Hin Hk].
    symmetry. apply (keyed_get_iff _ _ _ _ Hb' Hnd' Hproto). split; auto.
    now apply (Permutation_in _ Hperm).
  - destruct (get (own b') k) as [r'|] eqn:E'; [|reflexivity].
    apply (keyed_get_iff _ _ _ _ Hb' Hnd' Hproto) in E' as [Hin Hk].
    assert (Hget : get (own b) k = Some r').
    { apply (keyed_get_iff _ _ _ _ Hb Hnd Hproto). split; auto.
      now apply (Permutation_in _ (Permutation_sym Hperm)). }
    congruence.
Qed.

Lemma row_order_is_irrelevant_witness :
  exists m',
    keyed Skills
      (VObj [("data", VObj [("skills",
                VObj [("0", MoreSample.rowSwim); ("1", MoreSample.rowClimb)])])])
    = Ok m' /\
    forall k,
      get [("Climb", MoreSample.rowClimb); ("Swim", MoreSample.rowSwim)] k
      = get m' k.
Proof.
  apply (row_order_is_irrelevant Skills
           (VObj [("data", VObj [("skills",
                    VObj [("0", MoreSample.rowClimb); ("1", MoreSample.rowSwim)])])])
           (VObj [("data", VObj [("skills",
                    VObj [("0", MoreSample.rowSwim); ("1", MoreSample.rowClimb)])])])
           [MoreSample.rowClimb; MoreSample.rowSwim]
           [MoreSample.rowSwim; MoreSample.rowClimb]).
  - reflexivity.
  - reflexivity.
  - reflexivity.
  - apply perm_swap.
  - simpl. repeat constructor; simpl; intuition discriminate.
Defined.

(** (X18) The finished map, entry by entry.  When no key the actor holds
    is the sentinel of a key it holds, the finished map of a collection is
    the keyed map with [null] written under the sentinel of every non-empty
    held key that the keyed map lacks: those keys read [null], every other
    key reads what the keyed map has for it. *)
Theorem finished_map_exactly
    (expandObject : object -> val) (this_object : Actor) (event : Event)
    (formData patch : object) (c : collection) (s : object) (ks : list string) :
  _updateObject expandObject this_object event formData = Ok patch ->
  keyed c (expandObject formData) = Ok s ->
  currentKeys c this_object = Ok ks ->
  (forall k' k'', In k' ks -> In k'' ks -> k' <> sentinel k'') ->
  exists m,
    finished patch c = Some m /\
    (forall k,
        (exists K, In K ks /\ K <> "" /\ get s K = None /\ k = sentinel K) ->
        get m k = Some VNull) /\
    (forall k,
        ~ (exists K, In K ks /\ K <> "" /\ get s K = None /\ k = sentinel K) ->
        get m k = get s k).
Proof.
  intros H Hs Hks Hplain.
  destruct (finished_patch _ _ _ _ _ c H) as (b & ks' & m & Hb & Hks' & Hloop & Hm).
  apply keyed_object in Hs as (b' & Hb' & ->).
  rewrite Hb in Hb'. injection Hb' as <-.
  rewrite Hks in Hks'. injection Hks' as <-.
  exists (own m). split; [assumption|]. split.
  - intros k (K & HK & Hne & Hnone & ->).
    apply (removeUnused_sentinel ks b m); auto.
  - intros k Hnot.
    destruct (get (own m) k) as [v|] eqn:E.
    + destruct (removeUnused_get_inv _ _ _ _ _ Hloop E)
        as [Hkeyed|(-> & K & -> & HK & Hne & Hnone)]; [congruence|].
      exfalso. apply Hnot. exists K. auto.
    + destruct (get (own b) k) eqn:Es; [|reflexivity].
      exfalso. apply (removeUnused_keeps_keys ks b m k); congruence.
Qed.

Lemma finished_map_exactly_witness :
  _updateObject Sample.expandObject Sample.actor Sample.event Sample.renameForm
    = Ok Sample.renamePatch /\
  exists m,
    finished Sample.renamePatch Skills = Some m /\
    (forall k,
        (exists K, In K ["Climbing"] /\ K <> "" /\
                   get [("Climb", Sample.entity [("name", " Climb "); ("stat", "Speed")])] K
                   = None /\
                   k = sentinel K) ->
        get m k = Some VNull) /\
    (forall k,
        ~ (exists K, In K ["Climbing"] /\ K <> "" /\
                     get [("Climb", Sample.entity [("name", " Climb "); ("stat", "Speed")])] K
                     = None /\
                     k = sentinel K) ->
        get m k
        = get [("Climb", Sample.entity [("name", " Climb "); ("stat", "Speed")])] k).
Proof.
  split; [reflexivity|].
  apply (finished_map_exactly Sample.expandObject Sample.actor Sample.event
           Sample.renameForm Sample.renamePatch Skills
           [("Climb", Sample.entity [("name", " Climb "); ("stat", "Speed")])]
           ["Climbing"]).
  - reflexivity.
  - reflexivity.
  - reflexivity.
  - intros k' k'' [<-|[]] [<-|[]]. discriminate.
Defined.

Lemma rowKey_strippedTo (r : val) (k : string) :
  hasStringName r -> (rowKey r = Ok k <-> strippedTo (nameOf r) k).
Proof.
  intros (o & n & -> & Hname). split.
  - intros Hk. rewrite (rowKey_nameOf _ _ Hk). apply trim_strippedTo.
  - intros Hs. apply strippedTo_trim in Hs. subst k.
    apply rowKey_Ok. exists o, n. simpl. rewrite Hname. auto.
Qed.

(** (X19) The keyed map of a collection holds rows of the submission only,
    each under its own name stripped of the white space around it, one
    entry to a key; and when the names of two rows strip to the same key,
    any key but [__proto__], the entry of that key holds the later
    row. *)
Theorem later_row_wins (c : collection) (fd : val) (rs : list val) (m : object) :
  rows c fd = Ok rs ->
  keyed c fd = Ok m ->
  lastRowWins rs m.
Proof.
  intros Hrs Hm. apply keyed_object in Hm as (b & Hb & ->).
  unfold keyedObject in Hb. rewrite Hrs in Hb. cbn [bind] in Hb.
  pose proof (keyedFrom_Ok_rows _ _ _ Hb) as Hnames.
  rewrite Forall_forall in Hnames.
  assert (Hnd : NoDup (map fst (own b))).
  { apply (keyedFrom_NoDup _ _ _ Hb). constructor. }
  split; [|split; [assumption|]].
  - intros k r Hget.
    destruct (keyedFrom_get_inv _ _ _ _ _ Hb Hget) as [Hnil|[Hin Hk]];
      [discriminate|].
    split; [assumption|]. now apply rowKey_strippedTo; auto.
  - intros l1 r1 l2 r2 l3 k -> Hproto _ Hk2 Hlast.
    assert (Hin2 : In r2 (l1 ++ r1 :: l2 ++ r2 :: l3)).
    { apply in_or_app. right. right. apply in_or_app. right. now left. }
    assert (Hget : get (own b) k = Some r2).
    { replace (l1 ++ r1 :: l2 ++ r2 :: l3) with ((l1 ++ r1 :: l2) ++ r2 :: l3) in Hb
        by now rewrite <- app_assoc.
      apply (keyedFrom_get_last _ _ _ _ _ _ Hb); auto.
      - apply rowKey_strippedTo; auto.
      - intros r Hr Hk. apply (Hlast r Hr).
        apply rowKey_strippedTo; auto. apply Hnames.
        apply in_or_app. right. right. apply in_or_app. right. now right. }
    split; [assumption|].
    apply NoDup_count_occ'; auto.
    apply get_Some_In in Hget. now apply (in_map fst) in Hget.
Qed.

Lemma later_row_wins_witness :
  rows Skills (Sample.expandObject Sample.duplicateForm)
    = Ok [ Sample.entity [("name", "X "); ("stat", "Might")];
           Sample.entity [("name", " X"); ("stat", "Speed")] ] /\
  keyed Skills (Sample.expandObject Sample.duplicateForm)
    = Ok [ ("X", Sample.entity [("name", " X"); ("stat", "Speed")]) ] /\
  lastRowWins
    [ Sample.entity [("name", "X "); ("stat", "Might")];
      Sample.entity [("name", " X"); ("stat", "Speed")] ]
    [ ("X", Sample.entity [("name", " X"); ("stat", "Speed")]) ].
Proof.
  split; [reflexivity|]. split; [reflexivity|].
  apply (later_row_wins Skills (Sample.expandObject Sample.duplicateForm));
    reflexivity.
Defined.

(** (X20) A row named [hasOwnProperty] shadows the method the deletion
    loop calls on the keyed map: as soon as the actor holds a non-empty key
    in that collection, [_updateObject] throws a [TypeError] and no patch
    is built. *)
Theorem method_row_blocks_submit
    (expandObject : object -> val) (this_object : Actor) (event : Event)
    (formData : object) (c : collection) (rs : list val) (r : val)
    (ks : list string) (k : string) :
  rows c (expandObject formData) = Ok rs ->
  In r rs ->
  rowKey r = Ok "hasOwnProperty" ->
  currentKeys c this_object = Ok ks ->
  In k ks -> k <> "" ->
  _updateObject expandObject this_object event formData = Throw TypeError.
Proof.
  intros Hrs Hin Hk Hks Hheld Hne.
  apply _updateObject_fails. intros patch H.
  destruct (finished_patch _ _ _ _ _ c H) as (m & ks' & m' & Hm & Hks' & Hloop & _).
  rewrite Hks in Hks'. injection Hks' as <-.
  destruct (keyedObject_rows _ _ _ Hm) as (rs' & Hrs' & Hred).
  rewrite Hrs in Hrs'. injection Hrs' as <-.
  assert (Hcall : (forall k, In k ks -> k = "") \/ inheritsHasOwnProperty m = true)
    by (apply removeUnused_Ok_iff; eauto).
  destruct Hcall as [Hempty|Hinh]; [now apply Hne, Hempty|].
  unfold inheritsHasOwnProperty in Hinh.
  apply andb_prop in Hinh as [Hown _].
  apply negb_true_iff, has_false in Hown.
  apply (keyedFrom_get_some _ _ _ _ _ Hred Hin Hk); [discriminate | assumption].
Qed.

Lemma method_row_blocks_submit_witness :
  rows Skills (Sample.expandObject MoreSample.methodRowForm)
    = Ok [MoreSample.methodRow] /\
  rowKey MoreSample.methodRow = Ok "hasOwnProperty" /\
  currentKeys Skills Sample.actor = Ok ["Climbing"] /\
  _updateObject Sample.expandObject Sample.actor Sample.event
    MoreSample.methodRowForm = Throw TypeError.
Proof.
  split; [reflexivity|]. split; [reflexivity|]. split; [reflexivity|].
  apply (method_row_blocks_submit Sample.expandObject Sample.actor Sample.event
           MoreSample.methodRowForm Skills [MoreSample.methodRow]
           MoreSample.methodRow ["Climbing"] "Climbing").
  - reflexivity.
  - now left.
  - reflexivity.
  - reflexivity.
  - now left.
  - discriminate.
Defined.

End SubmissionMore.

(** ** More about the blur handlers *)

Module RebindingMore.
Import Js Dom Sheet Merge Rows Rebind Renaming DomFacts Rebinding.

Lemma matches_withName (sel : selector) (s : string) (n : node) :
  matches sel (withName s n) = matches sel n.
Proof. destruct n as [[t cl nm v d] ct cs]. destruct sel; reflexivity. Qed.

(** Renaming an element keeps the shape of the tree and what a tag or
    class selector sees. *)
Lemma matches_rename (sel : selector) (s : string) (root : node) (p q : path) :
  option_map (matches sel) (lookup (modify (withName s) root p) q) =
  option_map (matches sel) (lookup root q).
Proof.
  revert root q. induction p as [|i p IH]; intros root q.
  - destruct q as [|j q]; cbn [modify lookup option_map].
    + now rewrite matches_withName.
    + now destruct root as [[t cl nm v d] ct cs].
  - destruct q as [|j q]; [reflexivity|].
    cbn [lookup modify children]. rewrite nth_error_modifyNth.
    destruct (Nat.eqb_spec i j) as [<-|Hij]; auto.
    destruct (nth_error (children root) i) as [c|]; cbn [option_map]; auto.
Qed.

Lemma lookup_rename_None (s : string) (root : node) (p q : path) :
  lookup (modify (withName s) root p) q = None <-> lookup root q = None.
Proof.
  pose proof (matches_rename (Tag "x") s root p q) as H.
  destruct (lookup (modify (withName s) root p) q), (lookup root q);
    simpl in H; split; congruence.
Qed.

Lemma closest_rename (s : string) (root : node) (p q : path) (sel : selector) :
  closest (modify (withName s) root p) q sel = closest root q sel.
Proof.
  unfold closest. induction (rev q) as [|i rp IH]; cbn [closestFrom].
  - pose proof (matches_rename sel s root p (rev [])) as H.
    destruct (lookup (modify (withName s) root p) (rev [])),
             (lookup root (rev [])); simpl in H; try congruence.
    injection H as ->. reflexivity.
  - pose proof (matches_rename sel s root p (rev (i :: rp))) as H.
    destruct (lookup (modify (withName s) root p) (rev (i :: rp))),
             (lookup root (rev (i :: rp))); simpl in H; try congruence.
    injection H as ->. now rewrite IH.
Qed.

Section RenameAll.

Variables (rowp : path) (prefix v : string).

Lemma renameAll_cons (x : nat * nat * string) (rest : list (nat * nat * string))
    (h : node) :
  renameAll rowp prefix v (x :: rest) h =
  renameAll rowp prefix v rest
    (modify (withName (prefix ++ v ++ snd x)%string) h (fieldAt rowp x)).
Proof. reflexivity. Qed.

Lemma renameAll_value (positions : list (nat * nat * string)) (h : node) (q : path) :
  valueAt (renameAll rowp prefix v positions h) q = valueAt h q.
Proof.
  revert h. induction positions as [|x rest IH]; intros h; [reflexivity|].
  rewrite renameAll_cons, IH. apply valueAt_rename.
Qed.

Lemma renameAll_None (positions : list (nat * nat * string)) (h : node) (q : path) :
  lookup (renameAll rowp prefix v positions h) q = None <-> lookup h q = None.
Proof.
  revert h. induction positions as [|x rest IH]; intros h; [reflexivity|].
  rewrite renameAll_cons, IH. apply lookup_rename_None.
Qed.

Lemma renameAll_closest (positions : list (nat * nat * string)) (h : node)
    (q : path) (sel : selector) :
  closest (renameAll rowp prefix v positions h) q sel = closest h q sel.
Proof.
  revert h. induction positions as [|x rest IH]; intros h; [reflexivity|].
  rewrite renameAll_cons, IH. apply closest_rename.
Qed.

Lemma renameAll_other (positions : list (nat * nat * string)) (h : node) (q : path) :
  (forall x, In x positions -> q <> fieldAt rowp x) ->
  nameAt (renameAll rowp prefix v positions h) q = nameAt h q.
Proof.
  revert h. induction positions as [|x rest IH]; intros h Hq; [reflexivity|].
  rewrite renameAll_cons, IH by (intros; apply Hq; now right).
  apply nameAt_rename_other. apply Hq. now left.
Qed.

Lemma renameAll_name (positions : list (nat * nat * string)) (h : node)
    (x : nat * nat * string) :
  NoDup (map fst positions) ->
  In x positions ->
  lookup h (fieldAt rowp x) <> None ->
  nameAt (renameAll rowp prefix v positions h) (fieldAt rowp x)
  = Some (prefix ++ v ++ snd x)%string.
Proof.
  revert h. induction positions as [|y rest IH]; intros h Hnd Hin Hres;
    [contradiction|].
  rewrite renameAll_cons. inversion Hnd as [|? ? Hnotin Hnd']; subst.
  destruct Hin as [->|Hin].
  - rewrite renameAll_other.
    + now apply nameAt_rename_same.
    + intros z Hz E. apply Hnotin. apply fieldAt_inj in E. rewrite E.
      now apply in_map.
  - apply IH; auto. intros E. apply lookup_rename_None in E. contradiction.
Qed.

(** The assignments whose fields exist run through. *)
Lemma assignAll_prefix (input : path) (done rest : list (nat * nat * string))
    (s : sheet) :
  valueAt (html s) input = Some v ->
  (forall x, In x done -> lookup (html s) (fieldAt rowp x) <> None) ->
  assignAll (Some rowp) prefix input (done ++ rest) s =
  assignAll (Some rowp) prefix input rest
    {| html := renameAll rowp prefix v done (html s); trace := trace s |}.
Proof.
  revert s. induction done as [|x done IH]; intros s Hv Hres.
  - destruct s. reflexivity.
  - cbn [app]. rewrite assignAll_cons. unfold bindM.
    rewrite assignName_eq, Hv.
    assert (Hx : lookup (html s) (fieldAt rowp x) <> None)
      by (apply Hres; now left).
    unfold fieldAt in Hx.
    destruct (lookup (html s) (rowp ++ [fst (fst x); snd (fst x)])) as [f|];
      [|congruence].
    rewrite IH; cbn [html trace].
    + reflexivity.
    + now rewrite valueAt_rename.
    + intros y Hy E. apply lookup_rename_None in E. revert E.
      apply Hres. now right.
Qed.

Lemma assignAll_run (input : path) (positions : list (nat * nat * string))
    (s : sheet) :
  valueAt (html s) input = Some v ->
  (forall x, In x positions -> lookup (html s) (fieldAt rowp x) <> None) ->
  assignAll (Some rowp) prefix input positions s =
  (Ok tt, {| html := renameAll rowp prefix v positions (html s); trace := trace s |}).
Proof.
  intros Hv Hres.
  rewrite <- (app_nil_r positions) at 1.
  now rewrite (assignAll_prefix input positions [] s Hv Hres).
Qed.

Lemma assignAll_fail (input : path) (done rest : list (nat * nat * string))
    (x : nat * nat * string) (s : sheet) :
  valueAt (html s) input = Some v ->
  (forall y, In y done -> lookup (html s) (fieldAt rowp y) <> None) ->
  lookup (html s) (fieldAt rowp x) = None ->
  assignAll (Some rowp) prefix input (done ++ x :: rest) s =
  (Throw TypeError,
   {| html := renameAll rowp prefix v done (html s); trace := trace s |}).
Proof.
  intros Hv Hres Hx.
  rewrite (assignAll_prefix input done (x :: rest) s Hv Hres).
  rewrite assignAll_cons. unfold bindM. rewrite assignName_eq. cbn [html].
  apply (proj2 (renameAll_None done (html s) _)) in Hx.
  unfold fieldAt in Hx. now rewrite Hx.
Qed.

End RenameAll.

Lemma first_missing {A : Type} (P : A -> Prop)
    (dec : forall x, {P x} + {~ P x}) (l : list A) :
  (forall x, In x l -> P x) \/
  exists done x rest,
    l = done ++ x :: rest /\ (forall y, In y done -> P y) /\ ~ P x.
Proof.
  induction l as [|a l IH]; [left; intros x []|].
  destruct (dec a) as [Ha|Ha].
  - destruct IH as [Hall|(done & x & rest & -> & Hdone & Hx)].
    + left. intros x [<-|Hx]; auto.
    + right. exists (a :: done), x, rest. repeat split; auto.
      intros y [<-|Hy]; auto.
  - right. exists [], a, l. repeat split; auto. intros y [].
Qed.

Lemma NoDup_app_disjoint {A : Type} (l1 l2 : list A) (a : A) :
  NoDup (l1 ++ l2) -> In a l1 -> In a l2 -> False.
Proof.
  induction l1 as [|b l1 IH]; simpl; [tauto|].
  intros Hnd [<-|H1] H2; inversion Hnd as [|? ? Hnotin Hnd']; subst.
  - apply Hnotin. apply in_or_app. now right.
  - now apply IH.
Qed.

Lemma renameAll_fixed (rowp : path) (prefix v : string)
    (positions : list (nat * nat * string)) (h : node) :
  (forall x, In x positions ->
             nameAt h (fieldAt rowp x) = Some (prefix ++ v ++ snd x)%string) ->
  renameAll rowp prefix v positions h = h.
Proof.
  induction positions as [|x rest IH]; intros Hnames; [reflexivity|].
  rewrite renameAll_cons.
  assert (Hx : modify (withName (prefix ++ v ++ snd x)%string) h (fieldAt rowp x) = h).
  { apply modify_fixed. intros n Hn. apply withName_same.
    specialize (Hnames x (or_introl eq_refl)). unfold nameAt in Hnames.
    rewrite Hn in Hnames. now injection Hnames. }
  rewrite Hx. apply IH. intros y Hy. apply Hnames. now right.
Qed.

Lemma fields_nonempty (c : collection) : fields c <> [].
Proof. destruct c; discriminate. Qed.

Lemma assignAll_None (prefix : string) (input : path)
    (positions : list (nat * nat * string)) (s : sheet) :
  positions <> [] ->
  assignAll None prefix input positions s = (Throw TypeError, s).
Proof.
  destruct positions as [|x rest]; [congruence|]. intros _.
  rewrite assignAll_cons. unfold bindM. now rewrite assignName_None.
Qed.

Lemma resolves_dec (h : node) (rowp : path) (x : nat * nat * string) :
  {lookup h (fieldAt rowp x) <> None} + {~ lookup h (fieldAt rowp x) <> None}.
Proof.
  destruct (lookup h (fieldAt rowp x)); [left | right]; congruence.
Qed.

(** A blur handler, outcome by outcome. *)
Lemma rebinder_run (c : collection) (event : Event) (s : sheet) (rowp : path)
    (v : string) :
  closest (html s) (currentTarget event) (rowClass c) = Some rowp ->
  valueAt (html s) (currentTarget event) = Some v ->
  (forall x, In x (fields c) -> lookup (html s) (fieldAt rowp x) <> None) ->
  rebinder c event s =
  (Ok tt,
   {| html := renameAll rowp (pathPrefix c) v (fields c) (html s);
      trace := trace s ++ [PreventDefault] |}).
Proof.
  intros Hrow Hv Hres. rewrite rebinder_eq.
  unfold bindM, preventDefault, emit, closestOf. cbn [html trace].
  rewrite Hrow. now rewrite (assignAll_run rowp _ v) by assumption.
Qed.

Lemma rebinder_fail (c : collection) (event : Event) (s : sheet) (rowp : path)
    (v : string) (done rest : list (nat * nat * string)) (x : nat * nat * string) :
  closest (html s) (currentTarget event) (rowClass c) = Some rowp ->
  valueAt (html s) (currentTarget event) = Some v ->
  fields c = done ++ x :: rest ->
  (forall y, In y done -> lookup (html s) (fieldAt rowp y) <> None) ->
  lookup (html s) (fieldAt rowp x) = None ->
  rebinder c event s =
  (Throw TypeError,
   {| html := renameAll rowp (pathPrefix c) v done (html s);
      trace := trace s ++ [PreventDefault] |}).
Proof.
  intros Hrow Hv Hfields Hres Hx. rewrite rebinder_eq.
  unfold bindM, preventDefault, emit, closestOf. cbn [html trace].
  rewrite Hrow, Hfields.
  now rewrite (assignAll_fail rowp _ v) by assumption.
Qed.

Lemma rebinder_Ok_inv (c : collection) (event : Event) (s s' : sheet) :
  rebinder c event s = (Ok tt, s') ->
  exists rowp v,
    closest (html s) (currentTarget event) (rowClass c) = Some rowp /\
    valueAt (html s) (currentTarget event) = Some v /\
    (forall x, In x (fields c) -> lookup (html s) (fieldAt rowp x) <> None) /\
    s' = {| html := renameAll rowp (pathPrefix c) v (fields c) (html s);
            trace := trace s ++ [PreventDefault] |}.
Proof.
  intros Hrun.
  destruct (closest (html s) (currentTarget event) (rowClass c)) as [rowp|] eqn:Hrow.
  2: { rewrite rebinder_eq in Hrun.
       unfold bindM, preventDefault, emit, closestOf in Hrun.
       cbn [html trace] in Hrun. rewrite Hrow in Hrun.
       rewrite assignAll_None in Hrun by apply fields_nonempty. discriminate. }
  destruct (valueAt (html s) (currentTarget event)) as [v|] eqn:Hv.
  2: { rewrite rebinder_eq in Hrun.
       unfold bindM, preventDefault, emit, closestOf in Hrun.
       cbn [html trace] in Hrun. rewrite Hrow in Hrun.
       destruct (fields c) as [|x rest] eqn:E; [now apply fields_nonempty in E|].
       rewrite assignAll_cons in Hrun. unfold bindM in Hrun.
       rewrite assignName_eq in Hrun. cbn [html] in Hrun. rewrite Hv in Hrun.
       destruct (lookup (html s) (rowp ++ [fst (fst x); snd (fst x)]));
         discriminate. }
  exists rowp, v.
  destruct (first_missing (fun x => lookup (html s) (fieldAt rowp x) <> None)
              (resolves_dec (html s) rowp) (fields c))
    as [Hall|(done & x & rest & Hfields & Hdone & Hx)].
  - rewrite (rebinder_run _ _ _ _ _ Hrow Hv Hall) in Hrun.
    injection Hrun as <-. auto.
  - assert (Hnone : lookup (html s) (fieldAt rowp x) = None)
      by (destruct (lookup (html s) (fieldAt rowp x)); [exfalso; apply Hx|]; congruence).
    rewrite (rebinder_fail _ _ _ _ _ _ _ _ Hrow Hv Hfields Hdone Hnone) in Hrun.
    discriminate.
Qed.

(** (X9) A blur outside any row of the handler's class throws a
    [TypeError]; the form is as before and nothing is submitted. *)
Theorem rebinder_without_row (c : collection) (event : Event) (s : sheet) :
  closest (html s) (currentTarget event) (rowClass c) = None ->
  rebinder c event s = (Throw TypeError, prevented s).
Proof.
  intros Hrow. rewrite rebinder_eq.
  unfold bindM, preventDefault, emit, closestOf. cbn [html trace].
  rewrite Hrow. now rewrite assignAll_None by apply fields_nonempty.
Qed.

Lemma rebinder_without_row_witness :
  closest (html Sample.untouchedSheet) (currentTarget Sample.blurFirstName)
    (rowClass Weapons) = None /\
  rebinder Weapons Sample.blurFirstName Sample.untouchedSheet
    = (Throw TypeError, prevented Sample.untouchedSheet).
Proof.
  split; [reflexivity|].
  apply (rebinder_without_row Weapons Sample.blurFirstName Sample.untouchedSheet).
  reflexivity.
Defined.

(** (X10) A blur handler is not atomic.  In a row that lacks one of the
    positions, it throws a [TypeError] at the first missing one; the
    fields before it have their new paths by then and keep them, the
    fields after it keep their old paths, and nothing is submitted. *)
Theorem rebinder_stops_halfway (c : collection) (event : Event) (s : sheet)
    (rowp : path) (v : string) (done rest : list (nat * nat * string))
    (x : nat * nat * string) :
  closest (html s) (currentTarget event) (rowClass c) = Some rowp ->
  valueAt (html s) (currentTarget event) = Some v ->
  fields c = done ++ x :: rest ->
  (forall y, In y done -> lookup (html s) (fieldAt rowp y) <> None) ->
  lookup (html s) (fieldAt rowp x) = None ->
  exists s',
    rebinder c event s = (Throw TypeError, s') /\
    (forall y, In y done ->
               nameAt (html s') (fieldAt rowp y)
               = Some (pathPrefix c ++ v ++ snd y)%string) /\
    (forall y, In y rest ->
               nameAt (html s') (fieldAt rowp y) = nameAt (html s) (fieldAt rowp y)) /\
    (forall q, (forall y, In y done -> q <> fieldAt rowp y) ->
               nameAt (html s') q = nameAt (html s) q) /\
    trace s' = trace s ++ [PreventDefault].
Proof.
  intros Hrow Hv Hfields Hdone Hx.
  eexists. split; [exact (rebinder_fail _ _ _ _ _ _ _ _ Hrow Hv Hfields Hdone Hx)|].
  cbn [html trace].
  pose proof (fields_NoDup c) as Hnd. rewrite Hfields, map_app in Hnd.
  split; [|split; [|split; [|reflexivity]]].
  - intros y Hy. apply renameAll_name; auto.
    now apply NoDup_app_remove_r in Hnd.
  - intros y Hy. apply renameAll_other. intros z Hz E.
    apply fieldAt_inj in E.
    apply (NoDup_app_disjoint _ _ (fst z) Hnd).
    + now apply in_map.
    + rewrite <- E. cbn [map]. right. now apply in_map.
  - intros q Hq. now apply renameAll_other.
Qed.

Lemma rebinder_stops_halfway_witness :
  closest (html shortSheet) (currentTarget Sample.blurFirstName) (rowClass Skills)
    = Some [0; 2; 0] /\
  valueAt (html shortSheet) (currentTarget Sample.blurFirstName) = Some "Climb" /\
  lookup (html shortSheet) (fieldAt [0; 2; 0] (3, 0, ".trained")) = None /\
  exists s',
    rebinder Skills Sample.blurFirstName shortSheet = (Throw TypeError, s') /\
    nameAt (html s') [0; 2; 0; 1; 0] = Some "data.skills.Climb.stat".
Proof.
  split; [reflexivity|]. split; [reflexivity|]. split; [reflexivity|].
  assert (Hdone : forall y,
             In y [(0, 0, ".name"); (1, 0, ".stat"); (2, 0, ".inability")] ->
             lookup (html shortSheet) (fieldAt [0; 2; 0] y) <> None).
  { intros y [<-|[<-|[<-|[]]]]; discriminate. }
  destruct (rebinder_stops_halfway Skills Sample.blurFirstName shortSheet
              [0; 2; 0] "Climb"
              [(0, 0, ".name"); (1, 0, ".stat"); (2, 0, ".inability")]
              [(4, 0, ".specialized")] (3, 0, ".trained")
              eq_refl eq_refl eq_refl Hdone eq_refl)
    as (s' & Hrun & Hnames & _).
  exists s'. split; [exact Hrun|].
  apply (Hnames (1, 0, ".stat")). right. now left.
Defined.

(** (X11) A blur handler that completes changes the paths of the positions
    of its row and nothing else: every [value] is as before, so is every
    path outside those positions, so is what [closest] answers for any
    element and any tag or class selector, no element is added or removed,
    and nothing is submitted. *)
Theorem rebinder_frame (c : collection) (event : Event) (s s' : sheet)
    (rowp : path) :
  rebinder c event s = (Ok tt, s') ->
  closest (html s) (currentTarget event) (rowClass c) = Some rowp ->
  (forall q, valueAt (html s') q = valueAt (html s) q) /\
  (forall q, (forall x, In x (fields c) -> q <> fieldAt rowp x) ->
             nameAt (html s') q = nameAt (html s) q) /\
  (forall q (sel : selector),
      closest (html s') q sel = closest (html s) q sel) /\
  (forall q, lookup (html s') q = None <-> lookup (html s) q = None) /\
  submissions (trace s') = submissions (trace s).
Proof.
  intros Hrun Hrow.
  destruct (rebinder_Ok_inv _ _ _ _ Hrun) as (rowp' & v & Hrow' & Hv & Hres & ->).
  rewrite Hrow in Hrow'. injection Hrow' as <-. cbn [html trace].
  split; [|split; [|split; [|split]]].
  - intros q. apply renameAll_value.
  - intros q Hq. now apply renameAll_other.
  - intros q sel. apply renameAll_closest.
  - intros q. apply renameAll_None.
  - unfold submissions. rewrite filter_app, length_app. simpl. lia.
Qed.

Lemma rebinder_frame_witness :
  rebinder Skills Sample.blurFirstName renamedSheet
    = (Ok tt, snd (rebinder Skills Sample.blurFirstName renamedSheet)) /\
  nameAt (html (snd (rebinder Skills Sample.blurFirstName renamedSheet)))
    [0; 2; 0; 1; 0] = Some "data.skills.Climb.stat" /\
  valueAt (html (snd (rebinder Skills Sample.blurFirstName renamedSheet)))
    [0; 2; 0; 1; 0] = valueAt (html renamedSheet) [0; 2; 0; 1; 0] /\
  submissions (trace (snd (rebinder Skills Sample.blurFirstName renamedSheet)))
    = submissions (trace renamedSheet).
Proof.
  split; [reflexivity|]. split; [reflexivity|].
  destruct (rebinder_frame Skills Sample.blurFirstName renamedSheet
              (snd (rebinder Skills Sample.blurFirstName renamedSheet))
              [0; 2; 0] eq_refl eq_refl)
    as (Hvalue & _ & _ & _ & Hsub).
  split; [apply Hvalue | exact Hsub].
Defined.

(** (X12) A blur handler is idempotent: run again right after it has
    completed, on the same event, it completes and leaves the form as its
    first run left it. *)
Theorem rebinder_idempotent (c : collection) (event : Event) (s s1 : sheet) :
  rebinder c event s = (Ok tt, s1) ->
  rebinder c event s1 = (Ok tt, prevented s1).
Proof.
  intros Hrun.
  destruct (rebinder_Ok_inv _ _ _ _ Hrun) as (rowp & v & Hrow & Hv & Hres & ->).
  set (h1 := renameAll rowp (pathPrefix c) v (fields c) (html s)).
  assert (Hrow1 : closest h1 (currentTarget event) (rowClass c) = Some rowp)
    by (unfold h1; now rewrite renameAll_closest).
  assert (Hv1 : valueAt h1 (currentTarget event) = Some v)
    by (unfold h1; now rewrite renameAll_value).
  assert (Hres1 : forall x, In x (fields c) -> lookup h1 (fieldAt rowp x) <> None).
  { intros x Hx E. unfold h1 in E. apply renameAll_None in E.
    now apply (Hres x). }
  rewrite (rebinder_run c event
             {| html := h1; trace := trace s ++ [PreventDefault] |}
             rowp v Hrow1 Hv1 Hres1).
  unfold prevented. cbn [html trace]. f_equal. f_equal.
  apply renameAll_fixed. intros x Hx. unfold h1.
  apply renameAll_name; auto. apply fields_NoDup.
Qed.

Lemma rebinder_idempotent_witness :
  rebinder Skills Sample.blurFirstName renamedSheet
    = (Ok tt, snd (rebinder Skills Sample.blurFirstName renamedSheet)) /\
  rebinder Skills Sample.blurFirstName
    (snd (rebinder Skills Sample.blurFirstName renamedSheet))
    = (Ok tt, prevented (snd (rebinder Skills Sample.blurFirstName renamedSheet))).
Proof.
  split; [reflexivity|].
  apply (rebinder_idempotent Skills Sample.blurFirstName renamedSheet).
  reflexivity.
Defined.

End RebindingMore.

(** ** More about the row controls *)

Module RowLifecycleMore.
Import Js Dom Sheet Rows DomFacts RowLifecycle.


Lemma closest_lookup (root : node) (p : path) (sel : selector) (q : path) :
  closest root p sel = Some q -> lookup root q <> None.
Proof.
  intros H. destruct (closest_Some _ _ _ _ H) as (n & Hn & _). congruence.
Qed.



(** (X14) A delete click whose control is in no element of the control's
    class - a weapon control inside a skill row, say - throws a
    [TypeError] before anything is removed or submitted. *)
Theorem delete_without_row (outcome : Event -> node -> result unit)
    (control : string) (event : Event) (s : sheet) (a : node) :
  lookup (html s) (currentTarget event) = Some a ->
  dataset_action (attrs a) = Some "delete" ->
  closest (html s) (currentTarget event) (Class control) = None ->
  onClickControlGenerator outcome control event s = (Throw TypeError, prevented s).
Proof.
  intros Ha Hact Hrow. now rewrite (delete_eq _ _ _ _ _ Ha Hact), Hrow.
Qed.

Lemma delete_without_row_witness :
  closest (html Sample.untouchedSheet) (currentTarget Sample.clickFirstDelete)
    (Class "weapon") = None /\
  onClickControlGenerator Sample.hostFulfils "weapon" Sample.clickFirstDelete
    Sample.untouchedSheet
    = (Throw TypeError, prevented Sample.untouchedSheet).
Proof.
  split; [reflexivity|].
  apply (delete_without_row Sample.hostFulfils "weapon" Sample.clickFirstDelete
           Sample.untouchedSheet (Sample.control "skill-control" "delete")).
  - reflexivity.
  - reflexivity.
  - reflexivity.
Defined.

(** (X15) A create click completes exactly when its control is inside a
    table that has a template and a [tbody] among its descendants. *)
Theorem create_completes_iff (outcome : Event -> node -> result unit)
    (control : string) (event : Event) (s : sheet) (a : node) :
  lookup (html s) (currentTarget event) = Some a ->
  dataset_action (attrs a) = Some "create" ->
  (fst (onClickControlGenerator outcome control event s) = Ok tt <->
   exists tp t,
     closest (html s) (currentTarget event) (Tag "table") = Some tp /\
     lookup (html s) tp = Some t /\
     getElementsByTagName t "template" <> [] /\
     getElementsByTagName t "tbody" <> []).
Proof.
  intros Ha Hact. rewrite (create_eq _ _ _ _ _ Ha Hact).
  destruct (closest (html s) (currentTarget event) (Tag "table")) as [tp|] eqn:Etp.
  2: { split; [discriminate|]. intros (tp & t & H & _). discriminate. }
  destruct (closest_Some _ _ _ _ Etp) as (t & Ht & _). rewrite Ht.
  destruct (getElementsByTagName t "template") as [|[tplp tpl] l1] eqn:E1;
    destruct (getElementsByTagName t "tbody") as [|[bp b] l2] eqn:E2;
    cbn [hd_error fst]; split; try discriminate.
  - intros (tp' & t' & [= <-] & Ht' & H1 & _).
    rewrite Ht in Ht'. injection Ht' as <-. congruence.
  - intros (tp' & t' & [= <-] & Ht' & H1 & _).
    rewrite Ht in Ht'. injection Ht' as <-. congruence.
  - intros (tp' & t' & [= <-] & Ht' & _ & H2).
    rewrite Ht in Ht'. injection Ht' as <-. congruence.
  - intros _. exists tp, t. rewrite E1, E2. repeat split; auto; discriminate.
  - reflexivity.
Qed.

Lemma create_completes_iff_witness :
  fst (onClickControlGenerator Sample.hostFulfils "skill" Sample.clickCreate
         Sample.untouchedSheet)
    = Ok tt /\
  fst (onClickControlGenerator Sample.hostFulfils "skill" Renaming.clickLoose
         Renaming.looseControl)
    <> Ok tt.
Proof.
  split.
  - reflexivity.
  - intros H.
    apply (proj1 (create_completes_iff Sample.hostFulfils "skill"
                    Renaming.clickLoose Renaming.looseControl
                    (Sample.control "skill-control" "create")
                    eq_refl eq_refl)) in H.
    destruct H as (tp & t & Htp & _). discriminate.
Defined.

Lemma removelast_last_app {A : Type} (l : list A) (x : A) :
  removelast (l ++ [x]) = l.
Proof. exact (List.removelast_last l x). Qed.

Lemma length_removeNth {A : Type} (i : nat) (l : list A) :
  i < List.length l -> S (List.length (removeNth i l)) = List.length l.
Proof.
  revert i. induction l as [|x l IH]; intros i Hi; simpl in *; [lia|].
  destruct i; simpl; [reflexivity|]. rewrite IH by lia. reflexivity.
Qed.

Lemma nth_error_removeNth_before {A : Type} (i j : nat) (l : list A) :
  j < i -> nth_error (removeNth i l) j = nth_error l j.
Proof.
  revert i j. induction l as [|x l IH]; intros i j Hj.
  - now destruct i, j.
  - destruct i; [lia|]. destruct j; simpl; [reflexivity|]. apply IH. lia.
Qed.

Lemma nth_error_removeNth_after {A : Type} (i j : nat) (l : list A) :
  i <= j -> nth_error (removeNth i l) j = nth_error l (S j).
Proof.
  revert i j. induction l as [|x l IH]; intros i j Hj.
  - destruct i, j; reflexivity.
  - destruct i; [reflexivity|]. destruct j; [lia|]. simpl. apply IH. lia.
Qed.

Lemma removeNth_app_last {A : Type} (l : list A) (x : A) :
  removeNth (List.length l) (l ++ [x]) = l.
Proof. induction l as [|y l IH]; simpl; [reflexivity | now rewrite IH]. Qed.

Lemma modifyNth_ext {A : Type} (f g : A -> A) (i : nat) (l : list A) :
  (forall x, f x = g x) -> modifyNth f i l = modifyNth g i l.
Proof.
  intros H. revert i. induction l as [|x l IH]; intros i; destruct i; simpl;
    auto; [now rewrite H | now rewrite IH].
Qed.

Lemma modifyNth_modifyNth {A : Type} (f g : A -> A) (i : nat) (l : list A) :
  modifyNth f i (modifyNth g i l) = modifyNth (fun x => f (g x)) i l.
Proof.
  revert i. induction l as [|x l IH]; intros i; destruct i; simpl; auto.
  now rewrite IH.
Qed.

(** Two changes of the same element are one change. *)
Lemma modify_modify (f g : node -> node) (root : node) (p : path) :
  modify f (modify g root p) p = modify (fun n => f (g n)) root p.
Proof.
  revert root. induction p as [|i p IH]; intros root; [reflexivity|].
  cbn [modify attrs content children]. f_equal.
  rewrite modifyNth_modifyNth. apply modifyNth_ext. intros c. apply IH.
Qed.

(** (X16) A delete click that finds its row takes exactly the one row out
    of its parent, however the host's [_onSubmit] ends: the parent has one
    child fewer, the rows before the deleted one keep their places, the
    rows after it move up by one, and the parent is the same element
    otherwise. *)
Theorem delete_keeps_other_rows (outcome : Event -> node -> result unit)
    (control : string) (event : Event) (s : sheet)
    (a : node) (r : result unit) (s' : sheet) (rowp : path) :
  lookup (html s) (currentTarget event) = Some a ->
  dataset_action (attrs a) = Some "delete" ->
  closest (html s) (currentTarget event) (Class control) = Some rowp ->
  rowp <> [] ->
  onClickControlGenerator outcome control event s = (r, s') ->
  exists parent parent',
    lookup (html s) (removelast rowp) = Some parent /\
    lookup (html s') (removelast rowp) = Some parent' /\
    attrs parent' = attrs parent /\
    S (List.length (children parent')) = List.length (children parent) /\
    (forall j, j < last rowp 0 ->
               nth_error (children parent') j = nth_error (children parent) j) /\
    (forall j, last rowp 0 <= j ->
               nth_error (children parent') j = nth_error (children parent) (S j)).
Proof.
  intros Ha Hact Hrow Hne Hrun.
  rewrite (delete_row_eq _ _ _ _ _ _ Ha Hact Hrow Hne) in Hrun.
  injection Hrun as <- <-. cbn [html].
  destruct (closest_Some _ _ _ _ Hrow) as (row & Hlook & _).
  rewrite <- (removelast_last rowp Hne) in Hlook at 1.
  rewrite lookup_app in Hlook.
  destruct (lookup (html s) (removelast rowp)) as [parent|] eqn:Ep;
    [|discriminate].
  cbn [lookup] in Hlook.
  destruct (nth_error (children parent) (last rowp 0)) as [c|] eqn:Ec;
    [|discriminate].
  assert (Hlt : last rowp 0 < List.length (children parent)).
  { apply nth_error_Some. congruence. }
  exists parent, (removeChildAt (last rowp 0) parent).
  split; [reflexivity|].
  split; [exact (lookup_modify_same _ _ _ _ Ep)|].
  split; [reflexivity|]. cbn [removeChildAt children].
  split; [now apply length_removeNth|].
  split; intros j Hj.
  - now apply nth_error_removeNth_before.
  - now apply nth_error_removeNth_after.
Qed.

Lemma delete_keeps_other_rows_witness :
  onClickControlGenerator Sample.hostRejects "skill" Sample.clickFirstDelete
    Sample.createdSheet
    = (Throw (Error "update failed"),
       snd (onClickControlGenerator Sample.hostRejects "skill"
              Sample.clickFirstDelete Sample.createdSheet)) /\
  exists parent parent',
    lookup (html Sample.createdSheet) [0; 2] = Some parent /\
    lookup (html (snd (onClickControlGenerator Sample.hostRejects "skill"
                         Sample.clickFirstDelete Sample.createdSheet))) [0; 2]
      = Some parent' /\
    List.length (children parent) = 2 /\
    List.length (children parent') = 1 /\
    nth_error (children parent') 0 = Some Sample.blankSkillRow.
Proof.
  split; [reflexivity|].
  destruct (delete_keeps_other_rows Sample.hostRejects "skill"
              Sample.clickFirstDelete
              Sample.createdSheet (Sample.control "skill-control" "delete")
              (Throw (Error "update failed"))
              (snd (onClickControlGenerator Sample.hostRejects "skill"
                      Sample.clickFirstDelete Sample.createdSheet))
              [0; 2; 0] eq_refl eq_refl eq_refl)
    as (parent & parent' & Hp & Hp' & _ & Hlen & _ & Hafter).
  - discriminate.
  - reflexivity.
  - exists parent, parent'.
    assert (E : parent = Sample.el "tbody" []
                  [Sample.skillRow "Climbing" "Climbing" "Speed";
                   Sample.blankSkillRow]).
    { cbn in Hp. now injection Hp as <-. }
    split; [exact Hp|]. split; [exact Hp'|].
    split; [now rewrite E|].
    split.
    + rewrite E in Hlen. cbn in Hlen. now injection Hlen.
    + rewrite (Hafter 0) by (cbn; lia). now rewrite E.
Defined.

(** (X17) Create and delete undo each other.  In a table whose template
    holds a single row, a create click followed by a delete click inside
    the row just appended leaves the form as it was before the two clicks,
    and that form is what the delete submits; the delete ends the way the
    host's [_onSubmit] ends for it. *)
Theorem create_then_delete_restores (outcome : Event -> node -> result unit)
    (control : string) (create delete : Event)
    (s : sheet) (a1 a2 : node) (tp tplp bp : path) (t tpl body row : node) :
  lookup (html s) (currentTarget create) = Some a1 ->
  dataset_action (attrs a1) = Some "create" ->
  closest (html s) (currentTarget create) (Tag "table") = Some tp ->
  lookup (html s) tp = Some t ->
  hd_error (getElementsByTagName t "template") = Some (tplp, tpl) ->
  hd_error (getElementsByTagName t "tbody") = Some (bp, body) ->
  content tpl = [row] ->
  let s1 := snd (onClickControlGenerator outcome control create s) in
  lookup (html s1) (currentTarget delete) = Some a2 ->
  dataset_action (attrs a2) = Some "delete" ->
  closest (html s1) (currentTarget delete) (Class control)
    = Some ((tp ++ bp) ++ [List.length (children body)]) ->
  fst (onClickControlGenerator outcome control create s) = Ok tt /\
  onClickControlGenerator outcome control delete s1 =
  (outcome delete (html s),
   {| html := html s;
      trace := trace s ++ [PreventDefault; PreventDefault; Submit (html s)] |}).
Proof.
  intros Ha1 Hc Htp Ht Htpl Hb Hrow s1 Ha2 Hd Hclosest.
  assert (Hs1 : onClickControlGenerator outcome control create s =
                (Ok tt,
                 {| html := modify (appendChildren [row]) (html s) (tp ++ bp);
                    trace := trace s ++ [PreventDefault] |})).
  { rewrite (create_eq _ _ _ _ _ Ha1 Hc), Htp, Ht, Htpl, Hb. now rewrite Hrow. }
  split; [now rewrite Hs1|].
  assert (Hne : (tp ++ bp) ++ [List.length (children body)] <> [])
    by (intros E; apply app_eq_nil in E as [_ E]; discriminate).
  rewrite (delete_row_eq _ _ _ _ _ _ Ha2 Hd Hclosest Hne).
  rewrite removelast_last_app, last_last.
  unfold s1. rewrite Hs1. cbn [snd html trace].
  assert (Hbody : lookup (html s) (tp ++ bp) = Some body).
  { destruct (firstByTag_lookup _ _ _ _ Hb) as [Hbl _].
    now rewrite lookup_app, Ht. }
  assert (Hback : modify (removeChildAt (List.length (children body)))
                    (modify (appendChildren [row]) (html s) (tp ++ bp)) (tp ++ bp)
                  = html s).
  { rewrite modify_modify. apply modify_fixed. intros n Hn.
    rewrite Hbody in Hn. injection Hn as <-.
    destruct body as [ab ctb csb]. unfold removeChildAt, appendChildren.
    cbn [attrs content children]. now rewrite removeNth_app_last. }
  rewrite Hback, <- app_assoc. reflexivity.
Qed.

Lemma create_then_delete_restores_witness :
  fst (onClickControlGenerator Sample.hostFulfils "skill" Sample.clickCreate
         Sample.untouchedSheet)
    = Ok tt /\
  onClickControlGenerator Sample.hostFulfils "skill" Renaming.clickSecondDelete
    (snd (onClickControlGenerator Sample.hostFulfils "skill" Sample.clickCreate
            Sample.untouchedSheet))
  = (Sample.hostFulfils Renaming.clickSecondDelete (html Sample.untouchedSheet),
     {| html := html Sample.untouchedSheet;
        trace := trace Sample.untouchedSheet ++
                 [PreventDefault; PreventDefault;
                  Submit (html Sample.untouchedSheet)] |}).
Proof.
  apply (create_then_delete_restores Sample.hostFulfils "skill" Sample.clickCreate
           Renaming.clickSecondDelete Sample.untouchedSheet
           (Sample.control "skill-control" "create")
           (Sample.control "skill-control" "delete")
           [0] [0] [2]
           (Sample.skillsTable [Sample.skillRow "Climbing" "Climbing" "Speed"])
           (Sample.templateOf [Sample.blankSkillRow])
           (Sample.el "tbody" [] [Sample.skillRow "Climbing" "Climbing" "Speed"])
           Sample.blankSkillRow).
  - reflexivity.
  - reflexivity.
  - reflexivity.
  - reflexivity.
  - reflexivity.
  - reflexivity.
  - reflexivity.
  - reflexivity.
  - reflexivity.
  - reflexivity.
Defined.

End RowLifecycleMore.
